(** * ZOF (Zero Of Functions) solver: the six root-finding methods

    A shallow embedding of the solver functions of [ZOF_CLI.py] and of their
    duplicates in [app.py], and theorems relating them to the specification.

    Each Python function is a loop [for i in range(1, max_iter+1)] over a few
    locals, with [return] and [raise] inside the loop and a [return] after it.
    The loop is [for_each] over the body of the loop, a function from the locals
    to the locals of the next pass or to the way the call ends ([flow],
    [outcome]).  A local that is bound only inside the loop is an [option].

    The functions are written over an arithmetic interface ([PyNum]), whose
    instance [float_num] (IEEE 754 binary64, round to nearest even) is the
    arithmetic of Python's [float], which is what the functions receive from
    both front ends.

    In [CLI] and [App] an evaluator is a function on numbers: [f] and [g] are
    what [sp.lambdify] returns, [df] is the evaluator of the derivative that
    [newton_raphson] builds with sympy; the theorems on these modules are
    about evaluators that return a value at every point.  In [Eff] an evaluator
    can read and change the state of the world and raise an exception of its
    own. *)

From Stdlib Require Import ZArith Bool String List Lia.
From Stdlib Require Import QArith Qabs Qpower Qfield.
From Stdlib Require Import PrimFloat SpecFloat FloatOps FloatAxioms.
Import ListNotations.

Local Open Scope Z_scope.
Local Open Scope list_scope.

(** ** Python values and control flow *)

(** The exceptions the solver functions can end in.  [ValueError] and
    [ZeroDivisionError] are raised explicitly (and [ZeroDivisionError] also by
    Python's [/] on a zero divisor); [UnboundLocalError] is what Python raises
    when a [return] after a loop reads a local that no iteration has bound.
    A message is its template and the values formatted into it. *)
Inductive exn (T : Type) : Type :=
| ValueError (msg : string)
| ZeroDivisionError (msg : string) (args : list T)
| UnboundLocalError (name : string).
Arguments ValueError {T} msg.
Arguments ZeroDivisionError {T} msg args.
Arguments UnboundLocalError {T} name.

(** The class of an exception, as an [except] clause sees it. *)
Inductive exn_class : Type := ValueError_class | ZeroDivisionError_class | UnboundLocalError_class.

Definition class_of {T} (e : exn T) : exn_class :=
  match e with
  | ValueError _ => ValueError_class
  | ZeroDivisionError _ _ => ZeroDivisionError_class
  | UnboundLocalError _ => UnboundLocalError_class
  end.

(** How a call of a solver function ends: it returns the tuple
    [(root, final_err, iters, rows)], or it raises.  [Raise] keeps the value the
    local [rows] had when the exception left the function: the caller cannot
    see it, but it says how many records had been produced by then. *)
Inductive outcome (T Row : Type) : Type :=
| Return (root final_err : T) (iters : Z) (rows : list Row)
| Raise (e : exn T) (rows : list Row).
Arguments Return {T Row} root final_err iters rows.
Arguments Raise {T Row} e rows.

Definition rows_of {T Row} (o : outcome T Row) : list Row :=
  match o with Return _ _ _ rows => rows | Raise _ rows => rows end.

(** An entry of a row: the iteration index is a Python [int], the rest are
    numbers. *)
Inductive cell (T : Type) : Type :=
| Int (i : Z)
| Num (x : T).
Arguments Int {T} i.
Arguments Num {T} x.

(** One pass of a [for] body either falls through to the next iteration with
    new values of the locals, or leaves the function ([return] or [raise]). *)
Inductive flow (S R : Type) : Type :=
| Continue (s : S)
| Leave (r : R).
Arguments Continue {S R} s.
Arguments Leave {S R} r.

(** [for i in idx: body], threading the locals [s]. *)
Fixpoint for_each {S R : Type} (body : Z -> S -> flow S R) (idx : list Z) (s : S) : flow S R :=
  match idx with
  | [] => Continue s
  | i :: idx' =>
      match body i s with
      | Continue s' => for_each body idx' s'
      | Leave r => Leave r
      end
  end.

(** Python's [range(lo, hi)]. *)
Definition range (lo hi : Z) : list Z :=
  map (fun k => lo + Z.of_nat k) (seq 0 (Z.to_nat (hi - lo))).

(** What one pass of a loop that records its iterations does, from the locals
    [s] at index [i]: it raises and leaves [rows] as it is, or it appends one
    row [r] and returns (the convergence test [conv] holds of [r]), or it
    appends one row and goes on.  [rows_in] reads the local [rows]; [pending]
    is what the [return] after the loop would give; [est] reads the returned
    pair off a row; [wf] says what row pass [i] writes; [bad] which exceptions
    a pass may raise. *)
Definition recording_pass {T S Row : Type}
  (rows_in : S -> list Row) (pending : S -> option (T * T))
  (conv : Row -> bool) (est : Row -> option (T * T))
  (wf : Z -> Row -> Prop) (bad : exn T -> Prop)
  (i : Z) (s : S) (fl : flow S (outcome T Row)) : Prop :=
  match fl with
  | Continue s' =>
      exists r, rows_in s' = rows_in s ++ [r] /\ wf i r /\ conv r = false /\
                pending s' = est r /\ est r <> None
  | Leave (Return root err iters rows) =>
      exists r, rows = rows_in s ++ [r] /\ wf i r /\ conv r = true /\
                est r = Some (root, err) /\ iters = i
  | Leave (Raise e rows) => rows = rows_in s /\ bad e
  end.

(** How a call of a method whose loop records its iterations can end, when
    the loop is entered with [rows] empty and runs over
    [range(1, max_iter + 1)]: it returns after pass [iters] with one row per
    pass, the rows before the last one not meeting the convergence test and the
    returned pair read off the last one, which meets the test unless it is
    the row of pass [max_iter]; or a pass [i] raises with the rows of the passes
    before it; or no pass runs and the [return] after the loop finds a local
    unbound. *)
Definition solve_outcome {T Row : Type}
  (conv : Row -> bool) (est : Row -> option (T * T))
  (wf : Z -> Row -> Prop) (bad : exn T -> Prop)
  (max_iter : Z) (o : outcome T Row) : Prop :=
  match o with
  | Return root err iters rows =>
      1 <= iters <= max_iter /\
      Forall2 wf (range 1 (iters + 1)) rows /\
      exists new r,
        rows = new ++ [r] /\
        Forall (fun r => conv r = false) new /\
        est r = Some (root, err) /\
        (conv r = true \/ (conv r = false /\ iters = max_iter))
  | Raise e rows =>
      Forall (fun r => conv r = false) rows /\
      (((exists name, e = UnboundLocalError name) /\ max_iter <= 0 /\ rows = []) \/
       (bad e /\ exists i, 1 <= i <= max_iter /\ Forall2 wf (range 1 i) rows))
  end.

(** ** The arithmetic the methods use *)

(** The operations the six methods perform on numbers: the literals [0] and
    [2.0], [+], [-], [*], the quotient of [/] (for a divisor that is not zero),
    [abs], [<] and [==]. *)
Class PyNum (T : Type) : Type := {
  nzero : T;
  ntwo : T;
  nadd : T -> T -> T;
  nsub : T -> T -> T;
  nmul : T -> T -> T;
  nquot : T -> T -> T;
  nabs : T -> T;
  nlt : T -> T -> bool;
  neq : T -> T -> bool
}.

Declare Scope py_scope.
Delimit Scope py_scope with py.
Notation "x + y" := (nadd x y) : py_scope.
Notation "x - y" := (nsub x y) : py_scope.
Notation "x * y" := (nmul x y) : py_scope.
Notation "x / y" := (nquot x y) : py_scope.
Notation "x <? y" := (nlt x y) : py_scope.
Notation "x >? y" := (nlt y x) (only parsing) : py_scope.
Notation "x =? y" := (neq x y) : py_scope.

(** Python's [x / y]: a zero divisor raises. *)
Definition pydiv {T : Type} {N : PyNum T} (x y : T) : exn T + T :=
  if (y =? nzero)%py then inl (ZeroDivisionError "float division by zero" [])
  else inr (x / y)%py.

(** Python's double precision [float]. *)
#[export] Instance float_num : PyNum float := {
  nzero := 0%float;
  ntwo := 2%float;
  nadd := PrimFloat.add;
  nsub := PrimFloat.sub;
  nmul := PrimFloat.mul;
  nquot := PrimFloat.div;
  nabs := PrimFloat.abs;
  nlt := PrimFloat.ltb;
  neq := PrimFloat.eqb
}.

(** What the theorems use of the comparisons: [x < y]
    excludes [y < x], [x == y] excludes both, and neither [abs(x)] nor
    [abs(x)/2.0] is below a [t] with [t < 0] or [t == 0]. *)
Class PyOrder (T : Type) {N : PyNum T} : Prop := {
  nlt_asym : forall x y : T, nlt x y = true -> nlt y x = false;
  neq_not_lt : forall x y : T, neq x y = true -> nlt x y = false /\ nlt y x = false;
  nabs_not_lt : forall x t : T,
    nlt t nzero = true \/ neq t nzero = true -> nlt (nabs x) t = false;
  nabs_half_not_lt : forall x t : T,
    nlt t nzero = true \/ neq t nzero = true -> nlt (nquot (nabs x) ntwo) t = false
}.

(** A double that is not negative: a zero, a positive number, [+inf] or
    [nan]. *)
Definition sf_nonneg (x : spec_float) : Prop :=
  match x with
  | S754_infinity true | S754_finite true _ _ => False
  | _ => True
  end.

(** ** ZOF_CLI.py *)

Module CLI.
Section Methods.
Context {T : Type} {N : PyNum T}.
Local Open Scope py_scope.

(** A row is a Python list, [[i, a, b, c, fc, error]] and the like. *)
Definition row : Type := list (cell T).

(** *** bisection_method *)

(** The locals [a, b, fa, fb, c, fc, rows]; [c] and [fc] are unbound until
    the first pass of the loop. *)
Definition bisection_locals : Type :=
  (T * T * T * T * option T * option T * list row)%type.

Definition bisection_body (f : T -> T) (tol : T) (i : Z) (s : bisection_locals)
  : flow bisection_locals (outcome T row) :=
  let '(a, b, fa, fb, _, _, rows) := s in
  let c := (a + b) / ntwo in
  let fc := f c in
  let error := nabs (b - a) / ntwo in
  let rows := rows ++ [[Int i; Num a; Num b; Num c; Num fc; Num error]] in
  if (nabs fc <? tol) || (error <? tol) then
    Leave (Return c (nabs fc) i rows)
  else if fa * fc <? nzero then
    Continue (a, c, fa, fc, Some c, Some fc, rows)
  else
    Continue (c, b, fc, fb, Some c, Some fc, rows).

Definition bisection_method (f : T -> T) (a b : T) (max_iter : Z) (tol : T)
  : outcome T row :=
  let rows := [] in
  let fa := f a in
  let fb := f b in
  if fa * fb >? nzero then
    Raise (ValueError "f(a) and f(b) must have opposite signs for Bisection.") rows
  else
    match for_each (bisection_body f tol) (range 1 (max_iter + 1))
            (a, b, fa, fb, None, None, rows) with
    | Leave r => r
    | Continue (_, _, _, _, c, fc, rows) =>
        match c, fc with
        | None, _ => Raise (UnboundLocalError "c") rows
        | Some _, None => Raise (UnboundLocalError "fc") rows
        | Some c, Some fc => Return c (nabs fc) max_iter rows
        end
    end.


(** *** regula_falsi *)

(** The locals [a, b, fa, fb, c, fc, rows]; [c] is bound before the loop,
    [fc] only by its first pass. *)
Definition regula_falsi_locals : Type :=
  (T * T * T * T * T * option T * list row)%type.

Definition regula_falsi_body (f : T -> T) (tol : T) (i : Z) (s : regula_falsi_locals)
  : flow regula_falsi_locals (outcome T row) :=
  let '(a, b, fa, fb, _, _, rows) := s in
  match pydiv (a * fb - b * fa) (fb - fa) with
  | inl e => Leave (Raise e rows)
  | inr c =>
      let fc := f c in
      let error := nabs fc in
      let rows := rows ++ [[Int i; Num a; Num b; Num c; Num fc; Num error]] in
      if nabs fc <? tol then
        Leave (Return c (nabs fc) i rows)
      else if fa * fc <? nzero then
        Continue (a, c, fa, fc, c, Some fc, rows)
      else
        Continue (c, b, fc, fb, c, Some fc, rows)
  end.

Definition regula_falsi (f : T -> T) (a b : T) (max_iter : Z) (tol : T)
  : outcome T row :=
  let rows := [] in
  let fa := f a in
  let fb := f b in
  if fa * fb >? nzero then
    Raise (ValueError "f(a) and f(b) must have opposite signs for Regula Falsi.") rows
  else
    let c := a in
    match for_each (regula_falsi_body f tol) (range 1 (max_iter + 1))
            (a, b, fa, fb, c, None, rows) with
    | Leave r => r
    | Continue (_, _, _, _, c, fc, rows) =>
        match fc with
        | None => Raise (UnboundLocalError "fc") rows
        | Some fc => Return c (nabs fc) max_iter rows
        end
    end.

(** *** secant_method *)

(** The locals [x0, x1, x2, rows]; [x2] is bound by the first pass. *)
Definition secant_locals : Type := (T * T * option T * list row)%type.

Definition secant_body (f : T -> T) (tol : T) (i : Z) (s : secant_locals)
  : flow secant_locals (outcome T row) :=
  let '(x0, x1, _, rows) := s in
  let f0 := f x0 in
  let f1 := f x1 in
  if (f1 - f0) =? nzero then
    Leave (Raise (ZeroDivisionError "Zero denominator in Secant method." []) rows)
  else
    match pydiv (f1 * (x1 - x0)) (f1 - f0) with
    | inl e => Leave (Raise e rows)
    | inr q =>
        let x2 := x1 - q in
        let err := nabs (x2 - x1) in
        let rows := rows ++ [[Int i; Num x0; Num x1; Num x2; Num (f x2); Num err]] in
        if (nabs (f x2) <? tol) || (err <? tol) then
          Leave (Return x2 (nabs (f x2)) i rows)
        else
          Continue (x1, x2, Some x2, rows)
    end.

Definition secant_method (f : T -> T) (x0 x1 : T) (max_iter : Z) (tol : T)
  : outcome T row :=
  let rows := [] in
  match for_each (secant_body f tol) (range 1 (max_iter + 1)) (x0, x1, None, rows) with
  | Leave r => r
  | Continue (_, _, x2, rows) =>
      match x2 with
      | None => Raise (UnboundLocalError "x2") rows
      | Some x2 => Return x2 (nabs (f x2)) max_iter rows
      end
  end.

(** *** newton_raphson *)

(** [df] stands for [sp.lambdify(x_sym, sp.diff(f_expr, x_sym), 'math')], the
    evaluator of the derivative that sympy builds from [f_expr] and [x_sym].
    The locals are [x, fx, rows]; [fx] is bound by the first pass. *)
Definition newton_locals : Type := (T * option T * list row)%type.

Definition newton_body (df f : T -> T) (tol : T) (i : Z) (s : newton_locals)
  : flow newton_locals (outcome T row) :=
  let '(x, _, rows) := s in
  let fx := f x in
  let dfx := df x in
  if dfx =? nzero then
    Leave (Raise (ZeroDivisionError "Zero derivative at x = {:.6g}" [x]) rows)
  else
    match pydiv fx dfx with
    | inl e => Leave (Raise e rows)
    | inr q =>
        let x_new := x - q in
        let err := nabs (x_new - x) in
        let rows := rows ++ [[Int i; Num x; Num fx; Num dfx; Num x_new; Num err]] in
        if (nabs fx <? tol) || (err <? tol) then
          Leave (Return x_new (nabs fx) i rows)
        else
          Continue (x_new, Some fx, rows)
    end.

Definition newton_raphson (df f : T -> T) (x0 : T) (max_iter : Z) (tol : T)
  : outcome T row :=
  let rows := [] in
  let x := x0 in
  match for_each (newton_body df f tol) (range 1 (max_iter + 1)) (x, None, rows) with
  | Leave r => r
  | Continue (x, fx, rows) =>
      match fx with
      | None => Raise (UnboundLocalError "fx") rows
      | Some fx => Return x (nabs fx) max_iter rows
      end
  end.

(** *** fixed_point_iteration *)

(** The locals [x, x_new, err, rows]; [x_new] and [err] are bound by the
    first pass. *)
Definition fixed_point_locals : Type := (T * option T * option T * list row)%type.

Definition fixed_point_body (g : T -> T) (tol : T) (i : Z) (s : fixed_point_locals)
  : flow fixed_point_locals (outcome T row) :=
  let '(x, _, _, rows) := s in
  let x_new := g x in
  let err := nabs (x_new - x) in
  let rows := rows ++ [[Int i; Num x; Num x_new; Num err]] in
  if err <? tol then
    Leave (Return x_new err i rows)
  else
    Continue (x_new, Some x_new, Some err, rows).

Definition fixed_point_iteration (g : T -> T) (x0 : T) (max_iter : Z) (tol : T)
  : outcome T row :=
  let rows := [] in
  let x := x0 in
  match for_each (fixed_point_body g tol) (range 1 (max_iter + 1)) (x, None, None, rows) with
  | Leave r => r
  | Continue (_, x_new, err, rows) =>
      match x_new, err with
      | None, _ => Raise (UnboundLocalError "x_new") rows
      | Some _, None => Raise (UnboundLocalError "err") rows
      | Some x_new, Some err => Return x_new err max_iter rows
      end
  end.

(** *** modified_secant *)

(** The locals [x, f_x, x_new, rows]; [f_x] and [x_new] are bound by the
    first pass. *)
Definition modified_secant_locals : Type := (T * option T * option T * list row)%type.

Definition modified_secant_body (f : T -> T) (delta tol : T) (i : Z)
  (s : modified_secant_locals) : flow modified_secant_locals (outcome T row) :=
  let '(x, _, _, rows) := s in
  let f_x := f x in
  let denom := f (x + delta) - f_x in
  if denom =? nzero then
    Leave (Raise (ZeroDivisionError "Zero denominator in Modified Secant." []) rows)
  else
    match pydiv (delta * f_x) denom with
    | inl e => Leave (Raise e rows)
    | inr q =>
        let x_new := x - q in
        let err := nabs (x_new - x) in
        let rows := rows ++ [[Int i; Num x; Num f_x; Num x_new; Num err]] in
        if (nabs f_x <? tol) || (err <? tol) then
          Leave (Return x_new (nabs f_x) i rows)
        else
          Continue (x_new, Some f_x, Some x_new, rows)
    end.

Definition modified_secant (f : T -> T) (x0 delta : T) (max_iter : Z) (tol : T)
  : outcome T row :=
  let rows := [] in
  let x := x0 in
  match for_each (modified_secant_body f delta tol) (range 1 (max_iter + 1))
          (x, None, None, rows) with
  | Leave r => r
  | Continue (_, f_x, x_new, rows) =>
      match x_new, f_x with
      | None, _ => Raise (UnboundLocalError "x_new") rows
      | Some _, None => Raise (UnboundLocalError "f_x") rows
      | Some x_new, Some f_x => Return x_new (nabs f_x) max_iter rows
      end
  end.

(** *** run_cli: the choice of a method *)

(** What [run_cli] has read when it calls a method: the choice ['1'] to ['6']
    with the evaluators and seeds of that method. *)
Inductive call : Type :=
| Bisection (f : T -> T) (a b : T)
| RegulaFalsi (f : T -> T) (a b : T)
| Secant (f : T -> T) (x0 x1 : T)
| NewtonRaphson (df f : T -> T) (x0 : T)
| FixedPoint (g : T -> T) (x0 : T)
| ModifiedSecant (f : T -> T) (x0 delta : T).

(** The [if choice == ...] chain of [run_cli], without its input and output. *)
Definition run_method (c : call) (max_iter : Z) (tol : T) : outcome T row :=
  match c with
  | Bisection f a b => bisection_method f a b max_iter tol
  | RegulaFalsi f a b => regula_falsi f a b max_iter tol
  | Secant f x0 x1 => secant_method f x0 x1 max_iter tol
  | NewtonRaphson df f x0 => newton_raphson df f x0 max_iter tol
  | FixedPoint g x0 => fixed_point_iteration g x0 max_iter tol
  | ModifiedSecant f x0 delta => modified_secant f x0 delta max_iter tol
  end.

(** *** What the locals hold *)

(** The local [rows] of each loop, and what the [return] after the loop would
    give from the locals ([None] while one of them is unbound). *)
Definition bisection_rows (s : bisection_locals) : list row :=
  let '(_, _, _, _, _, _, rows) := s in rows.

Definition bisection_pending (s : bisection_locals) : option (T * T) :=
  let '(_, _, _, _, c, fc, _) := s in
  match c, fc with
  | Some c, Some fc => Some (c, nabs fc)
  | _, _ => None
  end.

Definition regula_falsi_rows (s : regula_falsi_locals) : list row :=
  let '(_, _, _, _, _, _, rows) := s in rows.

Definition regula_falsi_pending (s : regula_falsi_locals) : option (T * T) :=
  let '(_, _, _, _, c, fc, _) := s in
  match fc with
  | Some fc => Some (c, nabs fc)
  | None => None
  end.

Definition secant_rows (s : secant_locals) : list row :=
  let '(_, _, _, rows) := s in rows.

Definition secant_pending (f : T -> T) (s : secant_locals) : option (T * T) :=
  let '(_, _, x2, _) := s in
  match x2 with
  | Some x2 => Some (x2, nabs (f x2))
  | None => None
  end.

Definition newton_rows (s : newton_locals) : list row :=
  let '(_, _, rows) := s in rows.

Definition newton_pending (s : newton_locals) : option (T * T) :=
  let '(x, fx, _) := s in
  match fx with
  | Some fx => Some (x, nabs fx)
  | None => None
  end.

Definition fixed_point_rows (s : fixed_point_locals) : list row :=
  let '(_, _, _, rows) := s in rows.

Definition fixed_point_pending (s : fixed_point_locals) : option (T * T) :=
  let '(_, x_new, err, _) := s in
  match x_new, err with
  | Some x_new, Some err => Some (x_new, err)
  | _, _ => None
  end.

Definition modified_secant_rows (s : modified_secant_locals) : list row :=
  let '(_, _, _, rows) := s in rows.

Definition modified_secant_pending (s : modified_secant_locals) : option (T * T) :=
  let '(_, f_x, x_new, _) := s in
  match x_new, f_x with
  | Some x_new, Some f_x => Some (x_new, nabs f_x)
  | _, _ => None
  end.

(** *** What a record says *)

(** The convergence test of the method, on the values its record holds. *)
Definition converged (c : call) (tol : T) (r : row) : bool :=
  match c, r with
  | Bisection _ _ _, [Int _; Num _; Num _; Num _; Num fc; Num error] =>
      (nabs fc <? tol) || (error <? tol)
  | RegulaFalsi _ _ _, [Int _; Num _; Num _; Num _; Num fc; Num _] =>
      nabs fc <? tol
  | Secant _ _ _, [Int _; Num _; Num _; Num _; Num fx2; Num err] =>
      (nabs fx2 <? tol) || (err <? tol)
  | NewtonRaphson _ _ _, [Int _; Num _; Num fx; Num _; Num _; Num err] =>
      (nabs fx <? tol) || (err <? tol)
  | FixedPoint _ _, [Int _; Num _; Num _; Num err] =>
      err <? tol
  | ModifiedSecant _ _ _, [Int _; Num _; Num f_x; Num _; Num err] =>
      (nabs f_x <? tol) || (err <? tol)
  | _, _ => false
  end.

(** The root estimate and the final error value that the method returns when
    the pass that wrote the record is its last one. *)
Definition estimate (c : call) (r : row) : option (T * T) :=
  match c, r with
  | Bisection _ _ _, [Int _; Num _; Num _; Num c; Num fc; Num _] => Some (c, nabs fc)
  | RegulaFalsi _ _ _, [Int _; Num _; Num _; Num c; Num fc; Num _] => Some (c, nabs fc)
  | Secant _ _ _, [Int _; Num _; Num _; Num x2; Num fx2; Num _] => Some (x2, nabs fx2)
  | NewtonRaphson _ _ _, [Int _; Num _; Num fx; Num _; Num x_new; Num _] => Some (x_new, nabs fx)
  | FixedPoint _ _, [Int _; Num _; Num x_new; Num err] => Some (x_new, err)
  | ModifiedSecant _ _ _, [Int _; Num _; Num f_x; Num x_new; Num _] => Some (x_new, nabs f_x)
  | _, _ => None
  end.

(** The error metric of the method, the last entry of its record. *)
Definition error_metric (r : row) : option T :=
  match last r (Int 0) with
  | Num e => Some e
  | Int _ => None
  end.

(** The record that pass [i] of the method writes, for some values of its
    locals. *)
Definition recorded (c : call) (i : Z) (r : row) : Prop :=
  match c with
  | Bisection f _ _ =>
      exists a b,
        let c := (a + b) / ntwo in
        r = [Int i; Num a; Num b; Num c; Num (f c); Num (nabs (b - a) / ntwo)]
  | RegulaFalsi f _ _ =>
      exists a b fa fb,
        let c := (a * fb - b * fa) / (fb - fa) in
        ((fb - fa) =? nzero) = false /\
        r = [Int i; Num a; Num b; Num c; Num (f c); Num (nabs (f c))]
  | Secant f _ _ =>
      exists x0 x1,
        let x2 := x1 - (f x1 * (x1 - x0)) / (f x1 - f x0) in
        ((f x1 - f x0) =? nzero) = false /\
        r = [Int i; Num x0; Num x1; Num x2; Num (f x2); Num (nabs (x2 - x1))]
  | NewtonRaphson df f _ =>
      exists x,
        let x_new := x - f x / df x in
        (df x =? nzero) = false /\
        r = [Int i; Num x; Num (f x); Num (df x); Num x_new; Num (nabs (x_new - x))]
  | FixedPoint g _ =>
      exists x,
        r = [Int i; Num x; Num (g x); Num (nabs (g x - x))]
  | ModifiedSecant f _ delta =>
      exists x,
        let denom := f (x + delta) - f x in
        let x_new := x - (delta * f x) / denom in
        (denom =? nzero) = false /\
        r = [Int i; Num x; Num (f x); Num x_new; Num (nabs (x_new - x))]
  end.

(** The entry test of the two bracketing methods, [fa*fb > 0]. *)
Definition bracket_rejected (c : call) : bool :=
  match c with
  | Bisection f a b | RegulaFalsi f a b => f a * f b >? nzero
  | _ => false
  end.

(** The exception a pass of the method can raise: none for bisection and fixed
    point iteration, the [ZeroDivisionError] of the zero test for the secant,
    Newton-Raphson and modified secant methods, the one of [/] for regula
    falsi. *)
Definition zero_division (c : call) (e : exn T) : Prop :=
  match c with
  | Bisection _ _ _ | FixedPoint _ _ => False
  | RegulaFalsi _ _ _ => e = ZeroDivisionError "float division by zero" []
  | Secant _ _ _ => e = ZeroDivisionError "Zero denominator in Secant method." []
  | NewtonRaphson _ _ _ => exists x, e = ZeroDivisionError "Zero derivative at x = {:.6g}" [x]
  | ModifiedSecant _ _ _ => e = ZeroDivisionError "Zero denominator in Modified Secant." []
  end.

End Methods.
Arguments row T : clear implicits.
Arguments call T : clear implicits.
End CLI.

(** ** app.py *)

(** The web application repeats the six functions; its rows are tuples and
    the message of Newton-Raphson's [ZeroDivisionError] has no argument. *)
Module App.
Section Methods.
Context {T : Type} {N : PyNum T}.
Local Open Scope py_scope.

(** A row is a Python tuple; its shape depends on the method. *)
Definition row6 : Type := (Z * T * T * T * T * T)%type.
Definition row5 : Type := (Z * T * T * T * T)%type.
Definition row4 : Type := (Z * T * T * T)%type.

(** *** bisection_method *)

(** The locals [a, b, fa, fb, c, fc, rows]; [c] and [fc] are unbound until
    the first pass of the loop. *)
Definition bisection_locals : Type :=
  (T * T * T * T * option T * option T * list row6)%type.

Definition bisection_body (f : T -> T) (tol : T) (i : Z) (s : bisection_locals)
  : flow bisection_locals (outcome T row6) :=
  let '(a, b, fa, fb, _, _, rows) := s in
  let c := (a + b) / ntwo in
  let fc := f c in
  let error := nabs (b - a) / ntwo in
  let rows := rows ++ [(i, a, b, c, fc, error)] in
  if (nabs fc <? tol) || (error <? tol) then
    Leave (Return c (nabs fc) i rows)
  else if fa * fc <? nzero then
    Continue (a, c, fa, fc, Some c, Some fc, rows)
  else
    Continue (c, b, fc, fb, Some c, Some fc, rows).

Definition bisection_method (f : T -> T) (a b : T) (max_iter : Z) (tol : T)
  : outcome T row6 :=
  let rows := [] in
  let fa := f a in
  let fb := f b in
  if fa * fb >? nzero then
    Raise (ValueError "f(a) and f(b) must have opposite signs for Bisection.") rows
  else
    match for_each (bisection_body f tol) (range 1 (max_iter + 1))
            (a, b, fa, fb, None, None, rows) with
    | Leave r => r
    | Continue (_, _, _, _, c, fc, rows) =>
        match c, fc with
        | None, _ => Raise (UnboundLocalError "c") rows
        | Some _, None => Raise (UnboundLocalError "fc") rows
        | Some c, Some fc => Return c (nabs fc) max_iter rows
        end
    end.


(** *** regula_falsi *)

(** The locals [a, b, fa, fb, c, fc, rows]; [c] is bound before the loop,
    [fc] only by its first pass. *)
Definition regula_falsi_locals : Type :=
  (T * T * T * T * T * option T * list row6)%type.

Definition regula_falsi_body (f : T -> T) (tol : T) (i : Z) (s : regula_falsi_locals)
  : flow regula_falsi_locals (outcome T row6) :=
  let '(a, b, fa, fb, _, _, rows) := s in
  match pydiv (a * fb - b * fa) (fb - fa) with
  | inl e => Leave (Raise e rows)
  | inr c =>
      let fc := f c in
      let error := nabs fc in
      let rows := rows ++ [(i, a, b, c, fc, error)] in
      if nabs fc <? tol then
        Leave (Return c (nabs fc) i rows)
      else if fa * fc <? nzero then
        Continue (a, c, fa, fc, c, Some fc, rows)
      else
        Continue (c, b, fc, fb, c, Some fc, rows)
  end.

Definition regula_falsi (f : T -> T) (a b : T) (max_iter : Z) (tol : T)
  : outcome T row6 :=
  let rows := [] in
  let fa := f a in
  let fb := f b in
  if fa * fb >? nzero then
    Raise (ValueError "f(a) and f(b) must have opposite signs for Regula Falsi.") rows
  else
    let c := a in
    match for_each (regula_falsi_body f tol) (range 1 (max_iter + 1))
            (a, b, fa, fb, c, None, rows) with
    | Leave r => r
    | Continue (_, _, _, _, c, fc, rows) =>
        match fc with
        | None => Raise (UnboundLocalError "fc") rows
        | Some fc => Return c (nabs fc) max_iter rows
        end
    end.

(** *** secant_method *)

(** The locals [x0, x1, x2, rows]; [x2] is bound by the first pass. *)
Definition secant_locals : Type := (T * T * option T * list row6)%type.

Definition secant_body (f : T -> T) (tol : T) (i : Z) (s : secant_locals)
  : flow secant_locals (outcome T row6) :=
  let '(x0, x1, _, rows) := s in
  let f0 := f x0 in
  let f1 := f x1 in
  if (f1 - f0) =? nzero then
    Leave (Raise (ZeroDivisionError "Zero denominator in Secant method." []) rows)
  else
    match pydiv (f1 * (x1 - x0)) (f1 - f0) with
    | inl e => Leave (Raise e rows)
    | inr q =>
        let x2 := x1 - q in
        let err := nabs (x2 - x1) in
        let rows := rows ++ [(i, x0, x1, x2, f x2, err)] in
        if (nabs (f x2) <? tol) || (err <? tol) then
          Leave (Return x2 (nabs (f x2)) i rows)
        else
          Continue (x1, x2, Some x2, rows)
    end.

Definition secant_method (f : T -> T) (x0 x1 : T) (max_iter : Z) (tol : T)
  : outcome T row6 :=
  let rows := [] in
  match for_each (secant_body f tol) (range 1 (max_iter + 1)) (x0, x1, None, rows) with
  | Leave r => r
  | Continue (_, _, x2, rows) =>
      match x2 with
      | None => Raise (UnboundLocalError "x2") rows
      | Some x2 => Return x2 (nabs (f x2)) max_iter rows
      end
  end.

(** *** newton_raphson *)

(** [df] stands for [sp.lambdify(x_sym, sp.diff(f_expr, x_sym), 'math')], the
    evaluator of the derivative that sympy builds from [f_expr] and [x_sym].
    The locals are [x, fx, rows]; [fx] is bound by the first pass. *)
Definition newton_locals : Type := (T * option T * list row6)%type.

Definition newton_body (df f : T -> T) (tol : T) (i : Z) (s : newton_locals)
  : flow newton_locals (outcome T row6) :=
  let '(x, _, rows) := s in
  let fx := f x in
  let dfx := df x in
  if dfx =? nzero then
    Leave (Raise (ZeroDivisionError "Zero derivative." []) rows)
  else
    match pydiv fx dfx with
    | inl e => Leave (Raise e rows)
    | inr q =>
        let x_new := x - q in
        let err := nabs (x_new - x) in
        let rows := rows ++ [(i, x, fx, dfx, x_new, err)] in
        if (nabs fx <? tol) || (err <? tol) then
          Leave (Return x_new (nabs fx) i rows)
        else
          Continue (x_new, Some fx, rows)
    end.

Definition newton_raphson (df f : T -> T) (x0 : T) (max_iter : Z) (tol : T)
  : outcome T row6 :=
  let rows := [] in
  let x := x0 in
  match for_each (newton_body df f tol) (range 1 (max_iter + 1)) (x, None, rows) with
  | Leave r => r
  | Continue (x, fx, rows) =>
      match fx with
      | None => Raise (UnboundLocalError "fx") rows
      | Some fx => Return x (nabs fx) max_iter rows
      end
  end.

(** *** fixed_point_iteration *)

(** The locals [x, x_new, err, rows]; [x_new] and [err] are bound by the
    first pass. *)
Definition fixed_point_locals : Type := (T * option T * option T * list row4)%type.

Definition fixed_point_body (g : T -> T) (tol : T) (i : Z) (s : fixed_point_locals)
  : flow fixed_point_locals (outcome T row4) :=
  let '(x, _, _, rows) := s in
  let x_new := g x in
  let err := nabs (x_new - x) in
  let rows := rows ++ [(i, x, x_new, err)] in
  if err <? tol then
    Leave (Return x_new err i rows)
  else
    Continue (x_new, Some x_new, Some err, rows).

Definition fixed_point_iteration (g : T -> T) (x0 : T) (max_iter : Z) (tol : T)
  : outcome T row4 :=
  let rows := [] in
  let x := x0 in
  match for_each (fixed_point_body g tol) (range 1 (max_iter + 1)) (x, None, None, rows) with
  | Leave r => r
  | Continue (_, x_new, err, rows) =>
      match x_new, err with
      | None, _ => Raise (UnboundLocalError "x_new") rows
      | Some _, None => Raise (UnboundLocalError "err") rows
      | Some x_new, Some err => Return x_new err max_iter rows
      end
  end.

(** *** modified_secant *)

(** The locals [x, f_x, x_new, rows]; [f_x] and [x_new] are bound by the
    first pass. *)
Definition modified_secant_locals : Type := (T * option T * option T * list row5)%type.

Definition modified_secant_body (f : T -> T) (delta tol : T) (i : Z)
  (s : modified_secant_locals) : flow modified_secant_locals (outcome T row5) :=
  let '(x, _, _, rows) := s in
  let f_x := f x in
  let denom := f (x + delta) - f_x in
  if denom =? nzero then
    Leave (Raise (ZeroDivisionError "Zero denominator in Modified Secant." []) rows)
  else
    match pydiv (delta * f_x) denom with
    | inl e => Leave (Raise e rows)
    | inr q =>
        let x_new := x - q in
        let err := nabs (x_new - x) in
        let rows := rows ++ [(i, x, f_x, x_new, err)] in
        if (nabs f_x <? tol) || (err <? tol) then
          Leave (Return x_new (nabs f_x) i rows)
        else
          Continue (x_new, Some f_x, Some x_new, rows)
    end.

Definition modified_secant (f : T -> T) (x0 delta : T) (max_iter : Z) (tol : T)
  : outcome T row5 :=
  let rows := [] in
  let x := x0 in
  match for_each (modified_secant_body f delta tol) (range 1 (max_iter + 1))
          (x, None, None, rows) with
  | Leave r => r
  | Continue (_, f_x, x_new, rows) =>
      match x_new, f_x with
      | None, _ => Raise (UnboundLocalError "x_new") rows
      | Some _, None => Raise (UnboundLocalError "f_x") rows
      | Some x_new, Some f_x => Return x_new (nabs f_x) max_iter rows
      end
  end.

End Methods.
End App.

(** ** Reading a row *)

(** The first entry of a row, the index of the pass that wrote it. *)
Definition row_index {T : Type} (r : CLI.row T) : option Z :=
  match r with
  | Int i :: _ => Some i
  | _ => None
  end.

(** ** The recurrences of the methods *)

Section Recurrences.
Context {T : Type} {N : PyNum T}.
Local Open Scope py_scope.

(** The value after [k] steps from [x]. *)
Definition iterates {A : Type} (step : A -> A) (x : A) (k : Z) : A :=
  Nat.iter (Z.to_nat k) step x.

(** The update of each loop, as a function of the values it carries to the
    next pass: [x_new = x - fx/dfx] of [newton_raphson]; the shift
    [x0, x1 = x1, x2] of [secant_method]; [x_new = x - (delta*f_x)/denom] of
    [modified_secant]; the choice between [[a, c]] and [[c, b]] of
    [bisection_method], for cached values that are the values of [f]. *)
Definition newton_step (df f : T -> T) (x : T) : T := x - f x / df x.

Definition secant_step (f : T -> T) (p : T * T) : T * T :=
  let '(x0, x1) := p in (x1, x1 - (f x1 * (x1 - x0)) / (f x1 - f x0)).

Definition modified_secant_step (f : T -> T) (delta : T) (x : T) : T :=
  x - (delta * f x) / (f (x + delta) - f x).

Definition bisection_step (f : T -> T) (p : T * T) : T * T :=
  let '(a, b) := p in
  let c := (a + b) / ntwo in
  if f a * f c <? nzero then (a, c) else (c, b).

(** The row that pass [k] writes when the passes before it went on. *)
Definition fixed_point_row (g : T -> T) (x0 : T) (k : Z) : CLI.row T :=
  let x := iterates g x0 (k - 1) in
  [Int k; Num x; Num (g x); Num (nabs (g x - x))].

Definition newton_row (df f : T -> T) (x0 : T) (k : Z) : CLI.row T :=
  let x := iterates (newton_step df f) x0 (k - 1) in
  let x_new := newton_step df f x in
  [Int k; Num x; Num (f x); Num (df x); Num x_new; Num (nabs (x_new - x))].

Definition secant_row (f : T -> T) (x0 x1 : T) (k : Z) : CLI.row T :=
  let p := iterates (secant_step f) (x0, x1) (k - 1) in
  let x2 := snd (secant_step f p) in
  [Int k; Num (fst p); Num (snd p); Num x2; Num (f x2); Num (nabs (x2 - snd p))].

Definition modified_secant_row (f : T -> T) (x0 delta : T) (k : Z) : CLI.row T :=
  let x := iterates (modified_secant_step f delta) x0 (k - 1) in
  let x_new := modified_secant_step f delta x in
  [Int k; Num x; Num (f x); Num x_new; Num (nabs (x_new - x))].

Definition bisection_row (f : T -> T) (a b : T) (k : Z) : CLI.row T :=
  let p := iterates (bisection_step f) (a, b) (k - 1) in
  let c := (fst p + snd p) / ntwo in
  [Int k; Num (fst p); Num (snd p); Num c; Num (f c); Num (nabs (snd p - fst p) / ntwo)].

End Recurrences.

(** ** The rows of the two front ends *)

(** The entries of a tuple row of [app.py], as the list row of [ZOF_CLI.py]
    with the same entries. *)
Definition entries6 {T : Type} (r : App.row6 (T := T)) : CLI.row T :=
  let '(i, x1, x2, x3, x4, x5) := r in [Int i; Num x1; Num x2; Num x3; Num x4; Num x5].

Definition entries5 {T : Type} (r : App.row5 (T := T)) : CLI.row T :=
  let '(i, x1, x2, x3, x4) := r in [Int i; Num x1; Num x2; Num x3; Num x4].

Definition entries4 {T : Type} (r : App.row4 (T := T)) : CLI.row T :=
  let '(i, x1, x2, x3) := r in [Int i; Num x1; Num x2; Num x3].

(** A call of a function of [ZOF_CLI.py] and a call of its duplicate in
    [app.py] end in the same way: both return, with the same root estimate,
    final error and iteration count and with rows that have the same entries;
    or both raise an exception of the same class, having produced rows with the
    same entries. *)
Definition same_result {T Row : Type} (entries : Row -> CLI.row T)
  (o : outcome T (CLI.row T)) (o' : outcome T Row) : Prop :=
  match o, o' with
  | Return root err iters rows, Return root' err' iters' rows' =>
      root = root' /\ err = err' /\ iters = iters' /\ rows = map entries rows'
  | Raise e rows, Raise e' rows' =>
      class_of e = class_of e' /\ rows = map entries rows'
  | _, _ => False
  end.

(** ** Evaluators with effects *)

(** The same six functions, for evaluators as Python has them: a call [f(x)]
    may read and change the state of the world [W] (a counter, a cache, a
    random generator, a file) and may raise an exception of its own ([E]),
    which leaves the method at once.  The methods themselves keep no state
    between calls: every name they use is a local, and [rows] is a new list in
    every call.  Each [f(...)] of the source is one call of the evaluator, in
    the order in which Python evaluates them; the secant method calls
    [f(x2)] three times in a pass that returns. *)
Module Eff.

Section Methods.
Context {T : Type} {N : PyNum T}.
Variables W E : Type.

(** An exception leaving a method: one the method raises itself, or one of an
    evaluator. *)
Inductive failure : Type :=
| Method (e : exn T)
| Evaluator (e : E).

(** A computation: from a world to a value or an exception, and a world. *)
Definition M (A : Type) : Type := W -> (failure + A) * W.

Definition ret {A : Type} (a : A) : M A := fun w => (inr a, w).

Definition raise {A : Type} (e : exn T) : M A := fun w => (inl (Method e), w).

Definition bind {A B : Type} (m : M A) (k : A -> M B) : M B :=
  fun w =>
    match m w with
    | (inl e, w') => (inl e, w')
    | (inr a, w') => k a w'
    end.

Definition evaluator : Type := T -> W -> (E + T) * W.

(** One call [f(x)]. *)
Definition evaluate (f : evaluator) (x : T) : M T :=
  fun w =>
    match f x w with
    | (inl e, w') => (inl (Evaluator e), w')
    | (inr y, w') => (inr y, w')
    end.

(** Python's [x / y]. *)
Definition div (x y : T) : M T :=
  match pydiv x y with
  | inl e => raise e
  | inr q => ret q
  end.

Local Notation "x <- m ;; k" := (bind m (fun x => k))
  (at level 61, m at next level, right associativity).

(** [for i in idx: body], threading the locals. *)
Fixpoint for_each {S R : Type} (body : Z -> S -> M (flow S R)) (idx : list Z) (s : S)
  : M (flow S R) :=
  match idx with
  | [] => ret (Continue s)
  | i :: idx' =>
      fl <- body i s ;;
      match fl with
      | Continue s' => for_each body idx' s'
      | Leave r => ret (Leave r)
      end
  end.

(** The tuple [(root, final_err, iters, rows)] a method returns. *)
Definition solved : Type := (T * T * Z * list (CLI.row T))%type.

(** *** bisection_method *)

Definition bisection_body (f : evaluator) (tol : T) (i : Z)
  (s : CLI.bisection_locals (T := T)) : M (flow CLI.bisection_locals solved) :=
  let '(a, b, fa, fb, _, _, rows) := s in
  let c := ((a + b) / ntwo)%py in
  fc <- evaluate f c ;;
  let error := (nabs (b - a) / ntwo)%py in
  let rows := rows ++ [[Int i; Num a; Num b; Num c; Num fc; Num error]] in
  if ((nabs fc <? tol) || (error <? tol))%py then
    ret (Leave (c, nabs fc, i, rows))
  else if (fa * fc <? nzero)%py then
    ret (Continue (a, c, fa, fc, Some c, Some fc, rows))
  else
    ret (Continue (c, b, fc, fb, Some c, Some fc, rows)).

Definition bisection_method (f : evaluator) (a b : T) (max_iter : Z) (tol : T) : M solved :=
  let rows := [] in
  fa <- evaluate f a ;;
  fb <- evaluate f b ;;
  if (fa * fb >? nzero)%py then
    raise (ValueError "f(a) and f(b) must have opposite signs for Bisection.")
  else
    fl <- for_each (bisection_body f tol) (range 1 (max_iter + 1))
            (a, b, fa, fb, None, None, rows) ;;
    match fl with
    | Leave r => ret r
    | Continue (_, _, _, _, c, fc, rows) =>
        match c, fc with
        | None, _ => raise (UnboundLocalError "c")
        | Some _, None => raise (UnboundLocalError "fc")
        | Some c, Some fc => ret (c, nabs fc, max_iter, rows)
        end
    end.

(** *** regula_falsi *)

Definition regula_falsi_body (f : evaluator) (tol : T) (i : Z)
  (s : CLI.regula_falsi_locals (T := T)) : M (flow CLI.regula_falsi_locals solved) :=
  let '(a, b, fa, fb, _, _, rows) := s in
  c <- div (a * fb - b * fa)%py (fb - fa)%py ;;
  fc <- evaluate f c ;;
  let error := nabs fc in
  let rows := rows ++ [[Int i; Num a; Num b; Num c; Num fc; Num error]] in
  if (nabs fc <? tol)%py then
    ret (Leave (c, nabs fc, i, rows))
  else if (fa * fc <? nzero)%py then
    ret (Continue (a, c, fa, fc, c, Some fc, rows))
  else
    ret (Continue (c, b, fc, fb, c, Some fc, rows)).

Definition regula_falsi (f : evaluator) (a b : T) (max_iter : Z) (tol : T) : M solved :=
  let rows := [] in
  fa <- evaluate f a ;;
  fb <- evaluate f b ;;
  if (fa * fb >? nzero)%py then
    raise (ValueError "f(a) and f(b) must have opposite signs for Regula Falsi.")
  else
    let c := a in
    fl <- for_each (regula_falsi_body f tol) (range 1 (max_iter + 1))
            (a, b, fa, fb, c, None, rows) ;;
    match fl with
    | Leave r => ret r
    | Continue (_, _, _, _, c, fc, rows) =>
        match fc with
        | None => raise (UnboundLocalError "fc")
        | Some fc => ret (c, nabs fc, max_iter, rows)
        end
    end.

(** *** secant_method *)

Definition secant_body (f : evaluator) (tol : T) (i : Z)
  (s : CLI.secant_locals (T := T)) : M (flow CLI.secant_locals solved) :=
  let '(x0, x1, _, rows) := s in
  f0 <- evaluate f x0 ;;
  f1 <- evaluate f x1 ;;
  if ((f1 - f0) =? nzero)%py then
    raise (ZeroDivisionError "Zero denominator in Secant method." [])
  else
    q <- div (f1 * (x1 - x0))%py (f1 - f0)%py ;;
    let x2 := (x1 - q)%py in
    let err := nabs (x2 - x1)%py in
    fx2 <- evaluate f x2 ;;
    let rows := rows ++ [[Int i; Num x0; Num x1; Num x2; Num fx2; Num err]] in
    fx2' <- evaluate f x2 ;;
    if ((nabs fx2' <? tol) || (err <? tol))%py then
      fx2'' <- evaluate f x2 ;;
      ret (Leave (x2, nabs fx2'', i, rows))
    else
      ret (Continue (x1, x2, Some x2, rows)).

Definition secant_method (f : evaluator) (x0 x1 : T) (max_iter : Z) (tol : T) : M solved :=
  let rows := [] in
  fl <- for_each (secant_body f tol) (range 1 (max_iter + 1)) (x0, x1, None, rows) ;;
  match fl with
  | Leave r => ret r
  | Continue (_, _, x2, rows) =>
      match x2 with
      | None => raise (UnboundLocalError "x2")
      | Some x2 => fx2 <- evaluate f x2 ;; ret (x2, nabs fx2, max_iter, rows)
      end
  end.

(** *** newton_raphson *)

Definition newton_body (df f : evaluator) (tol : T) (i : Z)
  (s : CLI.newton_locals (T := T)) : M (flow CLI.newton_locals solved) :=
  let '(x, _, rows) := s in
  fx <- evaluate f x ;;
  dfx <- evaluate df x ;;
  if (dfx =? nzero)%py then
    raise (ZeroDivisionError "Zero derivative at x = {:.6g}" [x])
  else
    q <- div fx dfx ;;
    let x_new := (x - q)%py in
    let err := nabs (x_new - x)%py in
    let rows := rows ++ [[Int i; Num x; Num fx; Num dfx; Num x_new; Num err]] in
    if ((nabs fx <? tol) || (err <? tol))%py then
      ret (Leave (x_new, nabs fx, i, rows))
    else
      ret (Continue (x_new, Some fx, rows)).

Definition newton_raphson (df f : evaluator) (x0 : T) (max_iter : Z) (tol : T) : M solved :=
  let rows := [] in
  let x := x0 in
  fl <- for_each (newton_body df f tol) (range 1 (max_iter + 1)) (x, None, rows) ;;
  match fl with
  | Leave r => ret r
  | Continue (x, fx, rows) =>
      match fx with
      | None => raise (UnboundLocalError "fx")
      | Some fx => ret (x, nabs fx, max_iter, rows)
      end
  end.

(** *** fixed_point_iteration *)

Definition fixed_point_body (g : evaluator) (tol : T) (i : Z)
  (s : CLI.fixed_point_locals (T := T)) : M (flow CLI.fixed_point_locals solved) :=
  let '(x, _, _, rows) := s in
  x_new <- evaluate g x ;;
  let err := nabs (x_new - x)%py in
  let rows := rows ++ [[Int i; Num x; Num x_new; Num err]] in
  if (err <? tol)%py then
    ret (Leave (x_new, err, i, rows))
  else
    ret (Continue (x_new, Some x_new, Some err, rows)).

Definition fixed_point_iteration (g : evaluator) (x0 : T) (max_iter : Z) (tol : T)
  : M solved :=
  let rows := [] in
  let x := x0 in
  fl <- for_each (fixed_point_body g tol) (range 1 (max_iter + 1)) (x, None, None, rows) ;;
  match fl with
  | Leave r => ret r
  | Continue (_, x_new, err, rows) =>
      match x_new, err with
      | None, _ => raise (UnboundLocalError "x_new")
      | Some _, None => raise (UnboundLocalError "err")
      | Some x_new, Some err => ret (x_new, err, max_iter, rows)
      end
  end.

(** *** modified_secant *)

Definition modified_secant_body (f : evaluator) (delta tol : T) (i : Z)
  (s : CLI.modified_secant_locals (T := T)) : M (flow CLI.modified_secant_locals solved) :=
  let '(x, _, _, rows) := s in
  f_x <- evaluate f x ;;
  f_xd <- evaluate f (x + delta)%py ;;
  let denom := (f_xd - f_x)%py in
  if (denom =? nzero)%py then
    raise (ZeroDivisionError "Zero denominator in Modified Secant." [])
  else
    q <- div (delta * f_x)%py denom ;;
    let x_new := (x - q)%py in
    let err := nabs (x_new - x)%py in
    let rows := rows ++ [[Int i; Num x; Num f_x; Num x_new; Num err]] in
    if ((nabs f_x <? tol) || (err <? tol))%py then
      ret (Leave (x_new, nabs f_x, i, rows))
    else
      ret (Continue (x_new, Some f_x, Some x_new, rows)).

Definition modified_secant (f : evaluator) (x0 delta : T) (max_iter : Z) (tol : T)
  : M solved :=
  let rows := [] in
  let x := x0 in
  fl <- for_each (modified_secant_body f delta tol) (range 1 (max_iter + 1))
          (x, None, None, rows) ;;
  match fl with
  | Leave r => ret r
  | Continue (_, f_x, x_new, rows) =>
      match x_new, f_x with
      | None, _ => raise (UnboundLocalError "x_new")
      | Some _, None => raise (UnboundLocalError "f_x")
      | Some x_new, Some f_x => ret (x_new, nabs f_x, max_iter, rows)
      end
  end.

(** *** The choice of a method *)

Inductive call : Type :=
| Bisection (f : evaluator) (a b : T)
| RegulaFalsi (f : evaluator) (a b : T)
| Secant (f : evaluator) (x0 x1 : T)
| NewtonRaphson (df f : evaluator) (x0 : T)
| FixedPoint (g : evaluator) (x0 : T)
| ModifiedSecant (f : evaluator) (x0 delta : T).

Definition run_method (c : call) (max_iter : Z) (tol : T) : M solved :=
  match c with
  | Bisection f a b => bisection_method f a b max_iter tol
  | RegulaFalsi f a b => regula_falsi f a b max_iter tol
  | Secant f x0 x1 => secant_method f x0 x1 max_iter tol
  | NewtonRaphson df f x0 => newton_raphson df f x0 max_iter tol
  | FixedPoint g x0 => fixed_point_iteration g x0 max_iter tol
  | ModifiedSecant f x0 delta => modified_secant f x0 delta max_iter tol
  end.

(** *** Determinism *)

(** A deterministic evaluator: what a call [f(x)] gives, a value or an
    exception, depends on [x] alone and not on the world the call is made
    in. *)
Definition deterministic (f : evaluator) : Prop :=
  forall x w1 w2, fst (f x w1) = fst (f x w2).

Definition deterministic_call (c : call) : Prop :=
  match c with
  | Bisection f _ _ | RegulaFalsi f _ _ | Secant f _ _
  | FixedPoint f _ | ModifiedSecant f _ _ => deterministic f
  | NewtonRaphson df f _ => deterministic df /\ deterministic f
  end.

(** A computation whose outcome does not depend on the world it starts in. *)
Definition independent {A : Type} (m : M A) : Prop :=
  forall w1 w2, fst (m w1) = fst (m w2).

(** The evaluator that a function on numbers is: it raises nothing and leaves
    the world alone. *)
Definition pure (f : T -> T) : evaluator := fun x w => (inr (f x), w).

Definition pure_call (c : CLI.call T) : call :=
  match c with
  | CLI.Bisection f a b => Bisection (pure f) a b
  | CLI.RegulaFalsi f a b => RegulaFalsi (pure f) a b
  | CLI.Secant f x0 x1 => Secant (pure f) x0 x1
  | CLI.NewtonRaphson df f x0 => NewtonRaphson (pure df) (pure f) x0
  | CLI.FixedPoint g x0 => FixedPoint (pure g) x0
  | CLI.ModifiedSecant f x0 delta => ModifiedSecant (pure f) x0 delta
  end.

(** What the caller sees of an [outcome]: the tuple returned or the exception
    raised. *)
Definition seen (o : outcome T (CLI.row T)) : failure + solved :=
  match o with
  | Return root final_err iters rows => inr (root, final_err, iters, rows)
  | Raise e _ => inl (Method e)
  end.

Definition seen_flow {S : Type} (fl : flow S (outcome T (CLI.row T)))
  : failure + flow S solved :=
  match fl with
  | Continue s => inr (Continue s)
  | Leave (Return root final_err iters rows) => inr (Leave (root, final_err, iters, rows))
  | Leave (Raise e _) => inl (Method e)
  end.

End Methods.

Arguments Method {T E} e.
Arguments Evaluator {T E} e.
Arguments ret {T W E A} a.
Arguments raise {T W E A} e.
Arguments bind {T W E A B} m k.
Arguments evaluate {T W E} f x.
Arguments pure {T W E} f.
Arguments pure_call {T W E} c.
Arguments seen {T E} o.
Arguments seen_flow {T E S} fl.
Arguments independent {T W E A} m.
Arguments for_each {T W E S R} body idx s.
Arguments Bisection {T W E} f a b.
Arguments RegulaFalsi {T W E} f a b.
Arguments Secant {T W E} f x0 x1.
Arguments NewtonRaphson {T W E} df f x0.
Arguments FixedPoint {T W E} g x0.
Arguments ModifiedSecant {T W E} f x0 delta.

End Eff.

(** ** Doubles as numbers *)

(** The rational number that a double denotes: none for the infinities and
    NaN. *)
Definition float_value (x : float) : option Q :=
  match Prim2SF x with
  | S754_zero _ => Some 0%Q
  | S754_finite s m e => Some (inject_Z (if s then Z.neg m else Z.pos m) * 2 ^ e)%Q
  | S754_infinity _ | S754_nan => None
  end.

(** A row of bisection whose midpoint and error were computed without
    rounding: its entries are numbers, [c] is exactly [(a + b)/2] and the error
    is exactly [|b - a|/2]. *)
Definition exact_pass (r : CLI.row float) : bool :=
  match r with
  | [Int _; Num a; Num b; Num c; Num _; Num e] =>
      match float_value a, float_value b, float_value c, float_value e with
      | Some qa, Some qb, Some qc, Some qe =>
          Qeq_bool qc ((qa + qb) / 2) && Qeq_bool qe (Qabs (qb - qa) / 2)
      | _, _, _, _ => false
      end
  | _ => false
  end.

(** Row number [j] (counted from [0]) of a bisection that started from a
    bracket of width [w]: its bracket has width [w / 2^j] and its error entry
    is [w / 2^(j+1)], as numbers. *)
Definition halved (w : Q) (j : nat) (r : CLI.row float) : Prop :=
  exists i ar br cr fcr e qa qb qe,
    r = [Int i; Num ar; Num br; Num cr; Num fcr; Num e] /\
    float_value ar = Some qa /\ float_value br = Some qb /\ float_value e = Some qe /\
    (Qabs (qb - qa) == w / 2 ^ Z.of_nat j)%Q /\
    (qe == w / 2 ^ (Z.of_nat j + 1))%Q.

(** A double that is a nonzero number: not [0.0], not [-0.0], not NaN. *)
Definition nonzero_number (x : float) : bool := ((x <? 0) || (0 <? x))%float.

(** Two doubles that are nonzero numbers of opposite signs. *)
Definition opposite_signs (x y : float) : bool :=
  ((x <? 0) && (0 <? y) || (0 <? x) && (y <? 0))%float.

(** A row of bisection in whose pass the product [fa*fc] that the code tests
    was a nonzero number: it was not NaN and did not underflow to zero, and
    [f(c)] was not zero. *)
Definition product_is_number (f : float -> float) (r : CLI.row float) : bool :=
  match r with
  | [Int _; Num a; Num _; Num _; Num fc; Num _] => nonzero_number (f a * fc)
  | _ => false
  end.

(** The locals of the bisection loop hold a bracket of [f]: the cached values
    are the values of [f] at the endpoints, and, if the product [fa*fc] was a
    nonzero number in every pass so far, they are nonzero numbers of opposite
    signs and their product is [<= 0]. *)
Definition bracket_kept (f : float -> float) (s : CLI.bisection_locals (T := float)) : Prop :=
  let '(a, b, fa, fb, _, _, rows) := s in
  fa = f a /\ fb = f b /\
  (forallb (product_is_number f) rows = true ->
   opposite_signs (f a) (f b) = true /\ (f a * f b <=? 0)%float = true).

(** ** print_iteration_table *)

(** Python's [s * n] and [s.ljust(width)] on strings of one-byte characters
    (the headers and the printed numbers are ASCII). *)
Fixpoint str_mul (s : string) (n : nat) : string :=
  match n with
  | O => EmptyString
  | S n' => String.append s (str_mul s n')
  end.

Definition ljust (s : string) (width : nat) : string :=
  String.append s (str_mul " " (width - String.length s)).

(** A comprehension [[e(x) for x in l]] whose element expression can raise:
    the first element that raises ends it.  The only exception in
    [print_iteration_table] is the [IndexError] of an index out of range, for
    which [nth_error] gives [None]. *)
Fixpoint comprehension {A B : Type} (e : A -> option B) (l : list A) : option (list B) :=
  match l with
  | [] => Some []
  | x :: l' =>
      match e x with
      | None => None
      | Some y =>
          match comprehension e l' with
          | None => None
          | Some ys => Some (y :: ys)
          end
      end
  end.

Definition enumerate {A : Type} (l : list A) : list (nat * A) :=
  combine (seq 0 (length l)) l.

Inductive index_error : Type := IndexError.

Section Table.
Context {T : Type}.

(** Python's [str] on the entries of a row. *)
Variable str : cell T -> string.

Definition col_widths (headers : list string) (rows : list (CLI.row T))
  : option (list nat) :=
  comprehension
    (fun ih : nat * string =>
       let (i, h) := ih in
       match comprehension (fun r : CLI.row T => nth_error r i) rows with
       | None => None
       | Some cells => Some (list_max (map String.length (h :: map str cells)))
       end)
    (enumerate headers).

Definition header_line (headers : list string) (col_widths : list nat) : option string :=
  option_map (String.concat " | ")
    (comprehension
       (fun ih : nat * string =>
          let (i, h) := ih in option_map (ljust h) (nth_error col_widths i))
       (enumerate headers)).

Definition sep (col_widths : list nat) : string :=
  String.concat "-+-" (map (str_mul "-") col_widths).

Definition row_line (headers : list string) (col_widths : list nat) (r : CLI.row T)
  : option string :=
  option_map (String.concat " | ")
    (comprehension
       (fun i : nat =>
          match nth_error r i, nth_error col_widths i with
          | Some c, Some w => Some (ljust (str c) w)
          | _, _ => None
          end)
       (seq 0 (length headers))).

(** The [for r in rows: print(...)] loop: the lines printed, and the
    exception that ended it, if any. *)
Fixpoint print_rows (headers : list string) (col_widths : list nat)
  (rows : list (CLI.row T)) : list string * option index_error :=
  match rows with
  | [] => ([], None)
  | r :: rows' =>
      match row_line headers col_widths r with
      | None => ([], Some IndexError)
      | Some line =>
          let (lines, e) := print_rows headers col_widths rows' in (line :: lines, e)
      end
  end.

(** The lines [print_iteration_table] prints, and the exception that ended
    it, if any. *)
Definition print_iteration_table (headers : list string) (rows : list (CLI.row T))
  : list string * option index_error :=
  match col_widths headers rows with
  | None => ([], Some IndexError)
  | Some ws =>
      match header_line headers ws with
      | None => ([], Some IndexError)
      | Some hl =>
          let (lines, e) := print_rows headers ws rows in (hl :: sep ws :: lines, e)
      end
  end.

(** Column [i] of a table whose rows all have an entry [i], and its width. *)
Definition column (i : nat) (rows : list (CLI.row T)) : list (cell T) :=
  map (fun r => nth i r (Int 0)) rows.

Definition width (rows : list (CLI.row T)) (ih : nat * string) : nat :=
  list_max (map String.length (snd ih :: map str (column (fst ih) rows))).

(** A printed line of the table: fields joined by [" | "], field [i] being
    text [i] followed by spaces up to the width of column [i]. *)
Definition table_line (col_widths : list nat) (texts : list string) (line : string) : Prop :=
  exists fields,
    line = String.concat " | " fields /\
    map String.length fields = col_widths /\
    Forall2 (fun t f => exists k, f = String.append t (str_mul " " k)) texts fields.

End Table.

(** ** run_cli: the report *)

(** The header list and the title [run_cli] passes for each choice. *)
Definition table_headers {T : Type} (c : CLI.call T) : list string :=
  match c with
  | CLI.Bisection _ _ _ | CLI.RegulaFalsi _ _ _ => ["iter"; "a"; "b"; "c"; "f(c)"; "error"]
  | CLI.Secant _ _ _ => ["iter"; "x0"; "x1"; "x2"; "f(x2)"; "error"]
  | CLI.NewtonRaphson _ _ _ => ["iter"; "x"; "f(x)"; "f'(x)"; "x_new"; "error"]
  | CLI.FixedPoint _ _ => ["iter"; "x"; "g(x)"; "error"]
  | CLI.ModifiedSecant _ _ _ => ["iter"; "x"; "f(x)"; "x_new"; "error"]
  end%string.

Definition table_title {T : Type} (c : CLI.call T) : string :=
  match c with
  | CLI.Bisection _ _ _ => "Bisection iterations:"
  | CLI.RegulaFalsi _ _ _ => "Regula Falsi iterations:"
  | CLI.Secant _ _ _ => "Secant iterations:"
  | CLI.NewtonRaphson _ _ _ => "Newton-Raphson iterations:"
  | CLI.FixedPoint _ _ => "Fixed Point iterations:"
  | CLI.ModifiedSecant _ _ _ => "Modified Secant iterations:"
  end.

Section Report.
Context {T : Type} {N : PyNum T}.

(** Python's [str] on a row entry and on an exception, and
    ["{:.12g}".format]. *)
Variable str : cell T -> string.
Variable str_exn : exn T -> string.
Variable format_12g : T -> string.

(** What [run_cli] prints, line by line, from the call of the method on (a
    [print] of a text that starts with a newline gives an empty line first).
    The [except Exception] clause covers the method and the table. *)
Definition run_cli (c : CLI.call T) (max_iter : Z) (tol : T) : list string :=
  match CLI.run_method c max_iter tol with
  | Raise e _ => [String.append "Computation error: " (str_exn e)]
  | Return root final_err iters rows =>
      let (table, e) := print_iteration_table str (table_headers c) rows in
      (EmptyString :: table_title c :: table) ++
      match e with
      | Some IndexError => ["Computation error: list index out of range"%string]
      | None =>
          [EmptyString;
           String.append "Final estimated root: " (format_12g root);
           String.append "Final function value / error estimate: " (format_12g final_err);
           String.append "Iterations used: " (str (Int iters))]
      end
  end.

End Report.

(** ** Evaluators and tolerances of the examples *)

(** The tolerance [1e-6], the default of both front ends. *)
Definition tol_1e6 : float := 0x1.0c6f7a0b5ed8dp-20%float.

(** [f(x) = x] *)
Definition f_x (x : float) : float := x.

(** [f(x) = x**2 - 2] *)
Definition f_sq2 (x : float) : float := (x * x - 2)%float.

(** [f(x) = x**2 - 1] *)
Definition f_sq1 (x : float) : float := (x * x - 1)%float.

(** [f(x) = 2*x] and its derivative. *)
Definition f_2x (x : float) : float := (2 * x)%float.
Definition df_2x (x : float) : float := 2%float.

(** [g(x) = 2*x] *)
Definition g_2x (x : float) : float := (2 * x)%float.

(** [f(x) = 2**1000 * x], which overflows to [inf] from [x = 2**24] on. *)
Definition f_huge (x : float) : float := (0x1p+1000 * x)%float.

(** [f(x) = x - 0.3] *)
Definition f_x03 (x : float) : float := (x - 0x1.3333333333333p-2)%float.

(** [x**n] for a natural number [n], by repeated multiplication; exact
    when [x] is a power of two. *)
Fixpoint fpow (x : float) (n : nat) : float :=
  match n with
  | O => 1%float
  | S n' => (x * fpow x n')%float
  end.

(** [f(x) = x**300 - 1e-300], with its root at [0.1]. *)
Definition f_pow300 (x : float) : float := (fpow x 300 - 0x1.56e1fc2f8f359p-997)%float.

(** The tolerance [1e-100]. *)
Definition tol_1e100 : float := 0x1.bff2ee48e053p-333%float.

(** The double nearest to [0.1]. *)
Definition x_01 : float := 0x1.999999999999ap-4%float.

(** [f(x) = x - 1] *)
Definition f_x1 (x : float) : float := (x - 1)%float.

(** [f(x) = x - 0.5] *)
Definition f_xh (x : float) : float := (x - 0.5)%float.

(** An evaluator that counts its calls in the world and has the values of
    [f], and one whose values alternate from call to call. *)
Definition counted (f : float -> float) : Eff.evaluator (T := float) nat Empty_set :=
  fun x n => (inr (f x), S n).

Definition alternating : Eff.evaluator (T := float) bool Empty_set :=
  fun x w => (inr (if w then x / 2 else x / 4)%float, negb w).

(** * Properties *)

(** ** Loops *)

Lemma range_length (lo hi : Z) : length (range lo hi) = Z.to_nat (hi - lo).
Proof. unfold range. now rewrite length_map, length_seq. Qed.

Lemma seq_nth_error (n start k j : nat) :
  nth_error (seq start n) k = Some j -> j = (start + k)%nat.
Proof.
  revert start k. induction n as [|n IH]; intros start k H; simpl in H.
  - destruct k; discriminate.
  - destruct k as [|k]; simpl in H.
    + inversion H. lia.
    + apply IH in H. lia.
Qed.

Lemma range_nth (lo hi : Z) (k : nat) (i : Z) :
  nth_error (range lo hi) k = Some i -> i = lo + Z.of_nat k.
Proof.
  unfold range. intros H. rewrite nth_error_map in H.
  destruct (nth_error (seq 0 (Z.to_nat (hi - lo))) k) as [j|] eqn:E; [|discriminate].
  apply seq_nth_error in E. simpl in E, H. subst j. now inversion H.
Qed.

Lemma range_split (lo hi : Z) (idx1 idx2 : list Z) (i : Z) :
  range lo hi = idx1 ++ i :: idx2 ->
  i = lo + Z.of_nat (length idx1) /\ i < hi.
Proof.
  intros H. split.
  - apply (range_nth lo hi). rewrite H, nth_error_app2 by lia.
    now rewrite Nat.sub_diag.
  - assert (length (range lo hi) = length idx1 + S (length idx2))%nat as L
      by (rewrite H, length_app; reflexivity).
    rewrite range_length in L.
    assert (i = lo + Z.of_nat (length idx1)) as ->.
    { apply (range_nth lo hi). rewrite H, nth_error_app2 by lia.
      now rewrite Nat.sub_diag. }
    lia.
Qed.

Section ForEach.
Context {S R : Type}.
Variable body : Z -> S -> flow S R.

Lemma for_each_app (idx1 idx2 : list Z) (s : S) :
  for_each body (idx1 ++ idx2) s =
  match for_each body idx1 s with
  | Continue s' => for_each body idx2 s'
  | Leave r => Leave r
  end.
Proof.
  revert s. induction idx1 as [|i idx1 IH]; intros s; simpl; [reflexivity|].
  destruct (body i s); [apply IH | reflexivity].
Qed.

(** A property of the locals that every pass keeps holds when the loop ends. *)
Lemma for_each_invariant (P : S -> Prop) :
  (forall i s s', P s -> body i s = Continue s' -> P s') ->
  forall idx s s', P s -> for_each body idx s = Continue s' -> P s'.
Proof.
  intros Hstep. induction idx as [|i idx IH]; intros s s' Hs H; simpl in H.
  - now inversion H; subst.
  - destruct (body i s) as [s1|r] eqn:E; [|discriminate].
    eapply IH; [eapply Hstep; eassumption | exact H].
Qed.

(** A loop that leaves the function does so in one of its passes. *)
Lemma for_each_leave (idx : list Z) (s : S) (r : R) :
  for_each body idx s = Leave r ->
  exists idx1 i idx2 s',
    idx = idx1 ++ i :: idx2 /\ for_each body idx1 s = Continue s' /\ body i s' = Leave r.
Proof.
  revert s. induction idx as [|i idx IH]; intros s H; simpl in H; [discriminate|].
  destruct (body i s) as [s1|r1] eqn:E.
  - destruct (IH _ H) as (idx1 & j & idx2 & s' & -> & H1 & H2).
    exists (i :: idx1), j, idx2, s'. simpl. rewrite E. auto.
  - inversion H; subst. exists [], i, idx, s. auto.
Qed.

End ForEach.

Lemma app_same_length {A : Type} (l1 l1' l2 l2' : list A) :
  length l1 = length l1' -> l1 ++ l2 = l1' ++ l2' -> l1 = l1' /\ l2 = l2'.
Proof.
  revert l1'. induction l1 as [|x l1 IH]; intros [|y l1'] L H; simpl in *; try discriminate.
  - auto.
  - inversion H; subst. destruct (IH l1') as [-> ->]; auto.
Qed.

Lemma range_snoc (lo hi : Z) : lo <= hi -> range lo (hi + 1) = range lo hi ++ [hi].
Proof.
  intros H. unfold range.
  replace (Z.to_nat (hi + 1 - lo)) with (Z.to_nat (hi - lo) + 1)%nat by lia.
  rewrite seq_app, map_app. simpl. do 2 f_equal. lia.
Qed.

Lemma seq_offset (m n : nat) : seq m n = map (fun k => (m + k)%nat) (seq 0 n).
Proof.
  revert m. induction n as [|n IH]; intros m; simpl; [reflexivity|].
  f_equal; [lia|]. rewrite <- (seq_shift n 0), map_map, (IH (S m)).
  apply map_ext. intros k. lia.
Qed.

Lemma range_app (lo mid hi : Z) :
  lo <= mid <= hi -> range lo hi = range lo mid ++ range mid hi.
Proof.
  intros H. unfold range.
  replace (Z.to_nat (hi - lo)) with (Z.to_nat (mid - lo) + Z.to_nat (hi - mid))%nat by lia.
  rewrite seq_app, map_app. f_equal. simpl.
  rewrite seq_offset, map_map. apply map_ext. intros k. lia.
Qed.

(** The passes before pass [i] are the passes [lo .. i - 1]. *)
Lemma range_prefix (lo hi : Z) (idx1 idx2 : list Z) (i : Z) :
  range lo hi = idx1 ++ i :: idx2 ->
  idx1 = range lo i /\ idx1 ++ [i] = range lo (i + 1) /\ lo <= i < hi.
Proof.
  intros H. destruct (range_split _ _ _ _ _ H) as [Hi Hlt].
  assert (lo <= i) as Hle by lia.
  assert (idx1 = range lo i) as E.
  { rewrite (range_app lo i hi) in H by lia.
    apply app_same_length in H; [symmetry; apply H|].
    rewrite range_length. lia. }
  split; [exact E|]. split; [|lia].
  rewrite E. symmetry. now apply range_snoc.
Qed.

(** ** Loops that record one row per pass *)

(** The six loops have one shape: a pass may raise, and otherwise appends one
    row to [rows] and then either returns (its convergence test holds) or goes
    on to the next pass.  [pending] is what the [return] after the loop would
    give with the locals as they are. *)
Section Recording.
Context {T S Row : Type}.
Variable body : Z -> S -> flow S (outcome T Row).
Variable rows_in : S -> list Row.
Variable pending : S -> option (T * T).
Variable conv : Row -> bool.
Variable est : Row -> option (T * T).
Variable wf : Z -> Row -> Prop.
Variable bad : exn T -> Prop.

Hypothesis pass : forall i s,
  recording_pass rows_in pending conv est wf bad i s (body i s).

Lemma loop_continue (idx : list Z) (s s' : S) :
  for_each body idx s = Continue s' ->
  exists new,
    rows_in s' = rows_in s ++ new /\
    Forall2 wf idx new /\
    Forall (fun r => conv r = false) new /\
    ((idx = [] /\ s' = s) \/
     (exists new0 r, new = new0 ++ [r] /\ pending s' = est r /\ est r <> None)).
Proof.
  revert s'. induction idx as [|i idx IH] using rev_ind; intros s' H.
  - simpl in H. inversion H; subst. exists []. rewrite app_nil_r.
    split; [reflexivity|]. split; [constructor|]. split; [constructor|]. now left.
  - rewrite for_each_app in H.
    destruct (for_each body idx s) as [s0|] eqn:E0; [|discriminate].
    destruct (IH _ eq_refl) as (new0 & Hrows & Hwf & Hnc & _).
    simpl in H. generalize (pass i s0). unfold recording_pass.
    destruct (body i s0) as [s1|]; [|discriminate].
    inversion H; subst s1. intros (r & Hr & Hw & Hc & Hp & He).
    exists (new0 ++ [r]). repeat split.
    + now rewrite Hr, Hrows, app_assoc.
    + apply Forall2_app; auto.
    + apply Forall_app; auto.
    + right. exists new0, r. auto.
Qed.

Lemma loop_return (idx : list Z) (s : S) (root err : T) (iters : Z) (rows : list Row) :
  for_each body idx s = Leave (Return root err iters rows) ->
  exists idx1 idx2 new r,
    idx = idx1 ++ iters :: idx2 /\
    rows = rows_in s ++ new ++ [r] /\
    Forall2 wf (idx1 ++ [iters]) (new ++ [r]) /\
    Forall (fun r => conv r = false) new /\
    conv r = true /\ est r = Some (root, err).
Proof.
  intros H. apply for_each_leave in H.
  destruct H as (idx1 & i & idx2 & s0 & -> & H1 & H2).
  destruct (loop_continue _ _ _ H1) as (new & Hrows & Hwf & Hnc & _).
  generalize (pass i s0). unfold recording_pass. rewrite H2.
  intros (r & Hr & Hw & Hc & He & ->).
  exists idx1, idx2, new, r. repeat split; auto.
  - now rewrite Hr, Hrows, app_assoc.
  - apply Forall2_app; auto.
Qed.

Lemma loop_raise (idx : list Z) (s : S) (e : exn T) (rows : list Row) :
  for_each body idx s = Leave (Raise e rows) ->
  exists idx1 i idx2 new,
    idx = idx1 ++ i :: idx2 /\
    rows = rows_in s ++ new /\
    Forall2 wf idx1 new /\
    Forall (fun r => conv r = false) new /\
    bad e.
Proof.
  intros H. apply for_each_leave in H.
  destruct H as (idx1 & i & idx2 & s0 & -> & H1 & H2).
  destruct (loop_continue _ _ _ H1) as (new & Hrows & Hwf & Hnc & _).
  generalize (pass i s0). unfold recording_pass. rewrite H2. intros [Hr Hb].
  exists idx1, i, idx2, new. repeat split; auto. now rewrite Hr.
Qed.

(** The loop over [range(1, max_iter + 1)] from locals with [rows] empty,
    followed by the [return] after the loop. *)
Variable fallthrough : S -> outcome T Row.
Variable max_iter : Z.

Hypothesis fall : forall s,
  match pending s with
  | Some (root, err) => fallthrough s = Return root err max_iter (rows_in s)
  | None => exists name, fallthrough s = Raise (UnboundLocalError name) (rows_in s)
  end.

Lemma loop_outcome (s0 : S) :
  rows_in s0 = [] -> pending s0 = None ->
  solve_outcome conv est wf bad max_iter
    match for_each body (range 1 (max_iter + 1)) s0 with
    | Leave r => r
    | Continue s' => fallthrough s'
    end.
Proof.
  intros Hrows0 Hpend0.
  destruct (for_each body (range 1 (max_iter + 1)) s0) as [s'|[root err iters rows|e rows]] eqn:E.
  - destruct (loop_continue _ _ _ E) as (new & Hrows & Hwf & Hnc & Hlast).
    rewrite Hrows0 in Hrows. simpl in Hrows. generalize (fall s').
    destruct Hlast as [[Hnil ->]|(new0 & r & -> & Hp & He)].
    + rewrite Hpend0. intros [name ->]. simpl.
      rewrite Hnil in Hwf. inversion Hwf; subst new. rewrite Hrows0.
      split; [constructor|]. left. split; [now exists name|]. split; [|reflexivity].
      assert (length (range 1 (max_iter + 1)) = O) as L by now rewrite Hnil.
      rewrite range_length in L. lia.
    + rewrite Hp. destruct (est r) as [[root err]|] eqn:Er; [|congruence].
      intros ->. simpl. rewrite Hrows.
      assert (1 <= max_iter) as Hm.
      { apply Forall2_length in Hwf. rewrite range_length, length_app in Hwf.
        simpl in Hwf. lia. }
      split; [lia|]. split; [exact Hwf|].
      exists new0, r. apply Forall_app in Hnc. destruct Hnc as [Hnc Hr].
      inversion Hr; subst. repeat split; auto.
  - destruct (loop_return _ _ _ _ _ _ E) as (idx1 & idx2 & new & r & Hidx & Hr & Hwf & Hnc & Hc & He).
    apply range_prefix in Hidx. destruct Hidx as (_ & Hpre & Hb).
    rewrite Hrows0 in Hr. simpl in Hr. subst rows. rewrite Hpre in Hwf. simpl.
    split; [lia|]. split; [exact Hwf|]. exists new, r. auto.
  - destruct (loop_raise _ _ _ _ E) as (idx1 & i & idx2 & new & Hidx & Hr & Hwf & Hnc & Hb).
    apply range_prefix in Hidx. destruct Hidx as (Hpre & _ & Hi).
    rewrite Hrows0 in Hr. simpl in Hr. subst rows idx1. simpl.
    split; [exact Hnc|]. right. split; [exact Hb|]. exists i. split; [lia|exact Hwf].
Qed.

End Recording.

(** ** One pass of each loop of [ZOF_CLI.py] *)

Section Passes.
Context {T : Type} {N : PyNum T}.
Import CLI.

Ltac pass_cases :=
  unfold recording_pass, pydiv;
  repeat match goal with
  | |- context [if ?b then _ else _] => destruct b eqn:?
  end.

Ltac pass_row wit :=
  eexists; (split; [reflexivity|]); simpl;
  (split; [wit|]); repeat split; auto; discriminate.

Lemma bisection_pass (f : T -> T) (a0 b0 tol : T) (i : Z) (s : bisection_locals) :
  recording_pass bisection_rows bisection_pending
    (converged (Bisection f a0 b0) tol) (estimate (Bisection f a0 b0))
    (recorded (Bisection f a0 b0)) (fun _ => False)
    i s (bisection_body f tol i s).
Proof.
  destruct s as [[[[[[a b] fa] fb] c] fc] rows]. unfold bisection_body.
  pass_cases; pass_row ltac:(exists a, b; reflexivity).
Qed.

Lemma regula_falsi_pass (f : T -> T) (a0 b0 tol : T) (i : Z) (s : regula_falsi_locals) :
  recording_pass regula_falsi_rows regula_falsi_pending
    (converged (RegulaFalsi f a0 b0) tol) (estimate (RegulaFalsi f a0 b0))
    (recorded (RegulaFalsi f a0 b0))
    (fun e => e = ZeroDivisionError "float division by zero" [])
    i s (regula_falsi_body f tol i s).
Proof.
  destruct s as [[[[[[a b] fa] fb] c] fc] rows]. unfold regula_falsi_body.
  pass_cases; try (split; reflexivity);
    pass_row ltac:(exists a, b, fa, fb; split; [assumption|reflexivity]).
Qed.

Lemma secant_pass (f : T -> T) (x00 x10 tol : T) (i : Z) (s : secant_locals) :
  recording_pass secant_rows (secant_pending f)
    (converged (Secant f x00 x10) tol) (estimate (Secant f x00 x10))
    (recorded (Secant f x00 x10))
    (fun e => e = ZeroDivisionError "Zero denominator in Secant method." [])
    i s (secant_body f tol i s).
Proof.
  destruct s as [[[x0 x1] x2] rows]. unfold secant_body.
  pass_cases; try (split; reflexivity);
    pass_row ltac:(exists x0, x1; split; [assumption|reflexivity]).
Qed.

Lemma newton_pass (df f : T -> T) (x00 tol : T) (i : Z) (s : newton_locals) :
  recording_pass newton_rows newton_pending
    (converged (NewtonRaphson df f x00) tol) (estimate (NewtonRaphson df f x00))
    (recorded (NewtonRaphson df f x00))
    (fun e => exists x, e = ZeroDivisionError "Zero derivative at x = {:.6g}" [x])
    i s (newton_body df f tol i s).
Proof.
  destruct s as [[x fx] rows]. unfold newton_body.
  pass_cases; try (split; [reflexivity|eexists; reflexivity]);
    pass_row ltac:(exists x; split; [assumption|reflexivity]).
Qed.

Lemma fixed_point_pass (g : T -> T) (x00 tol : T) (i : Z) (s : fixed_point_locals) :
  recording_pass fixed_point_rows fixed_point_pending
    (converged (FixedPoint g x00) tol) (estimate (FixedPoint g x00))
    (recorded (FixedPoint g x00)) (fun _ => False)
    i s (fixed_point_body g tol i s).
Proof.
  destruct s as [[[x x_new] err] rows]. unfold fixed_point_body.
  pass_cases; pass_row ltac:(exists x; reflexivity).
Qed.

Lemma modified_secant_pass (f : T -> T) (x00 delta tol : T) (i : Z)
  (s : modified_secant_locals) :
  recording_pass modified_secant_rows modified_secant_pending
    (converged (ModifiedSecant f x00 delta) tol) (estimate (ModifiedSecant f x00 delta))
    (recorded (ModifiedSecant f x00 delta))
    (fun e => e = ZeroDivisionError "Zero denominator in Modified Secant." [])
    i s (modified_secant_body f delta tol i s).
Proof.
  destruct s as [[[x f_x] x_new] rows]. unfold modified_secant_body.
  pass_cases; try (split; reflexivity);
    pass_row ltac:(exists x; split; [assumption|reflexivity]).
Qed.

End Passes.

(** ** How a call of a method of [ZOF_CLI.py] can end *)

Section Outcomes.
Context {T : Type} {N : PyNum T}.
Import CLI.

Lemma run_method_outcome (c : call T) (max_iter : Z) (tol : T) :
  if bracket_rejected c
  then exists msg, run_method c max_iter tol = Raise (ValueError msg) []
  else solve_outcome (converged c tol) (estimate c) (recorded c) (zero_division c)
         max_iter (run_method c max_iter tol).
Proof.
  destruct c as [f a b|f a b|f x0 x1|df f x0|g x0|f x0 delta]; simpl.
  - unfold bisection_method. destruct (nlt nzero (nmul (f a) (f b))); [eexists; reflexivity|].
    apply (loop_outcome _ bisection_rows bisection_pending) with
      (fallthrough := fun s => let '(_, _, _, _, c, fc, rows) := s in
         match c, fc with
         | None, _ => Raise (UnboundLocalError "c") rows
         | Some _, None => Raise (UnboundLocalError "fc") rows
         | Some c, Some fc => Return c (nabs fc) max_iter rows
         end); try reflexivity.
    + intros i s. apply bisection_pass.
    + intros [[[[[[? ?] ?] ?] [c|]] [fc|]] rows]; simpl; eauto.
  - unfold regula_falsi. destruct (nlt nzero (nmul (f a) (f b))); [eexists; reflexivity|].
    apply (loop_outcome _ regula_falsi_rows regula_falsi_pending) with
      (fallthrough := fun s => let '(_, _, _, _, c, fc, rows) := s in
         match fc with
         | None => Raise (UnboundLocalError "fc") rows
         | Some fc => Return c (nabs fc) max_iter rows
         end); try reflexivity.
    + intros i s. apply regula_falsi_pass.
    + intros [[[[[[? ?] ?] ?] c] [fc|]] rows]; simpl; eauto.
  - unfold secant_method.
    apply (loop_outcome _ secant_rows (secant_pending f)) with
      (fallthrough := fun s => let '(_, _, x2, rows) := s in
         match x2 with
         | None => Raise (UnboundLocalError "x2") rows
         | Some x2 => Return x2 (nabs (f x2)) max_iter rows
         end); try reflexivity.
    + intros i s. apply secant_pass.
    + intros [[[? ?] [x2|]] rows]; simpl; eauto.
  - unfold newton_raphson.
    apply (loop_outcome _ newton_rows newton_pending) with
      (fallthrough := fun s => let '(x, fx, rows) := s in
         match fx with
         | None => Raise (UnboundLocalError "fx") rows
         | Some fx => Return x (nabs fx) max_iter rows
         end); try reflexivity.
    + intros i s. apply newton_pass.
    + intros [[x [fx|]] rows]; simpl; eauto.
  - unfold fixed_point_iteration.
    apply (loop_outcome _ fixed_point_rows fixed_point_pending) with
      (fallthrough := fun s => let '(_, x_new, err, rows) := s in
         match x_new, err with
         | None, _ => Raise (UnboundLocalError "x_new") rows
         | Some _, None => Raise (UnboundLocalError "err") rows
         | Some x_new, Some err => Return x_new err max_iter rows
         end); try reflexivity.
    + intros i s. apply fixed_point_pass.
    + intros [[[? [x_new|]] [err|]] rows]; simpl; eauto.
  - unfold modified_secant.
    apply (loop_outcome _ modified_secant_rows modified_secant_pending) with
      (fallthrough := fun s => let '(_, f_x, x_new, rows) := s in
         match x_new, f_x with
         | None, _ => Raise (UnboundLocalError "x_new") rows
         | Some _, None => Raise (UnboundLocalError "f_x") rows
         | Some x_new, Some f_x => Return x_new (nabs f_x) max_iter rows
         end); try reflexivity.
    + intros i s. apply modified_secant_pass.
    + intros [[[? [f_x|]] [x_new|]] rows]; simpl; eauto.
Qed.

End Outcomes.

(** ** The comparisons in double precision *)

Lemma SFltb_asym (x y : spec_float) : SFltb x y = true -> SFltb y x = false.
Proof.
  unfold SFltb.
  destruct x as [sx|sx| |sx mx ex], y as [sy|sy| |sy my ey]; simpl;
    try destruct sx; try destruct sy; simpl; try congruence.
  - rewrite (Z.compare_antisym ex ey).
    destruct (ex ?= ey); simpl; try congruence.
    change (Pos.compare_cont Eq mx my) with (Pos.compare mx my).
    change (Pos.compare_cont Eq my mx) with (Pos.compare my mx).
    rewrite (Pos.compare_antisym mx my). destruct (mx ?= my)%positive; simpl; congruence.
  - rewrite (Z.compare_antisym ex ey).
    destruct (ex ?= ey); simpl; try congruence.
    change (Pos.compare_cont Eq mx my) with (Pos.compare mx my).
    change (Pos.compare_cont Eq my mx) with (Pos.compare my mx).
    rewrite (Pos.compare_antisym mx my). destruct (mx ?= my)%positive; simpl; congruence.
Qed.

Lemma SFeqb_not_lt (x y : spec_float) :
  SFeqb x y = true -> SFltb x y = false /\ SFltb y x = false.
Proof.
  unfold SFeqb, SFltb.
  destruct x as [sx|sx| |sx mx ex], y as [sy|sy| |sy my ey]; simpl;
    try destruct sx; try destruct sy; simpl; try congruence; auto.
  - rewrite (Z.compare_antisym ex ey).
    destruct (ex ?= ey); simpl; try congruence.
    change (Pos.compare_cont Eq mx my) with (Pos.compare mx my).
    change (Pos.compare_cont Eq my mx) with (Pos.compare my mx).
    rewrite (Pos.compare_antisym mx my). destruct (mx ?= my)%positive; simpl; auto; congruence.
  - rewrite (Z.compare_antisym ex ey).
    destruct (ex ?= ey); simpl; try congruence.
    change (Pos.compare_cont Eq mx my) with (Pos.compare mx my).
    change (Pos.compare_cont Eq my mx) with (Pos.compare my mx).
    rewrite (Pos.compare_antisym mx my). destruct (mx ?= my)%positive; simpl; auto; congruence.
Qed.

Lemma SFabs_nonneg (x : spec_float) : sf_nonneg (SFabs x).
Proof. destruct x; simpl; exact I. Qed.

Lemma binary_round_aux_nonneg (mx ex : Z) (lx : location) :
  sf_nonneg (binary_round_aux prec emax false mx ex lx).
Proof.
  unfold binary_round_aux.
  destruct (shr_fexp prec emax mx ex lx) as [mrs' e'].
  destruct (shr_fexp prec emax _ e' loc_Exact) as [mrs'' e''].
  destruct (shr_m mrs''); simpl; try exact I.
  destruct (Z.leb _ _); exact I.
Qed.

Lemma SFdiv_two_nonneg (x : spec_float) :
  sf_nonneg x -> sf_nonneg (SF64div x (Prim2SF 2)).
Proof.
  change (Prim2SF 2) with (S754_finite false 4503599627370496 (-51)).
  unfold SF64div, SFdiv. destruct x as [sx|sx| |sx mx ex]; try (intros; exact I).
  - destruct sx; [intros []|intros _; exact I].
  - destruct sx; [intros []|intros _].
    destruct (SFdiv_core_binary _ _ _ _ _ _) as [[mz ez] lz].
    apply binary_round_aux_nonneg.
Qed.

Lemma SF_nonneg_not_lt (x t : spec_float) :
  sf_nonneg x ->
  SFltb t (S754_zero false) = true \/ SFeqb t (S754_zero false) = true ->
  SFltb x t = false.
Proof.
  unfold SFltb, SFeqb.
  destruct x as [sx|sx| |sx mx ex], t as [st|st| |st mt et]; simpl;
    try destruct sx; try destruct st; simpl; intros Hx [H|H];
    try reflexivity; try discriminate; try contradiction.
Qed.

Lemma float_abs_not_lt (x t : float) :
  (t <? 0)%float = true \/ (t =? 0)%float = true -> (abs x <? t)%float = false.
Proof.
  rewrite !ltb_spec, eqb_spec, abs_spec.
  change (Prim2SF 0) with (S754_zero false).
  apply SF_nonneg_not_lt, SFabs_nonneg.
Qed.

Lemma float_abs_half_not_lt (x t : float) :
  (t <? 0)%float = true \/ (t =? 0)%float = true -> (abs x / 2 <? t)%float = false.
Proof.
  rewrite !ltb_spec, eqb_spec, div_spec, abs_spec.
  change (Prim2SF 0) with (S754_zero false).
  apply SF_nonneg_not_lt, SFdiv_two_nonneg, SFabs_nonneg.
Qed.

#[export] Instance float_order : PyOrder float.
Proof.
  split; simpl; intros x y.
  - rewrite !ltb_spec. apply SFltb_asym.
  - rewrite !ltb_spec, eqb_spec. apply SFeqb_not_lt.
  - apply float_abs_not_lt.
  - apply float_abs_half_not_lt.
Qed.

(** ** The entry test of the bracketing methods *)

Section BracketCheck.
Context {T : Type} {N : PyNum T}.
Import CLI.
Local Open Scope py_scope.

Lemma bracket_rejected_raises (f : T -> T) (a b : T) (max_iter : Z) (tol : T) :
  (f a * f b >? nzero) = true ->
  bisection_method f a b max_iter tol =
    Raise (ValueError "f(a) and f(b) must have opposite signs for Bisection.") [] /\
  regula_falsi f a b max_iter tol =
    Raise (ValueError "f(a) and f(b) must have opposite signs for Regula Falsi.") [].
Proof.
  intros H. unfold bisection_method, regula_falsi. now rewrite H.
Qed.

Lemma bracket_accepted_no_ValueError (c : call T) (max_iter : Z) (tol : T) :
  bracket_rejected c = false ->
  forall msg rows, run_method c max_iter tol <> Raise (ValueError msg) rows.
Proof.
  intros H msg rows E. generalize (run_method_outcome c max_iter tol).
  rewrite H, E. simpl. intros [_ [[[name Hn] _]|[Hb _]]]; [discriminate|].
  destruct c; simpl in Hb; try contradiction; try discriminate.
  destruct Hb; discriminate.
Qed.

End BracketCheck.

(** C1, as the code has it.  Bisection and regula falsi reject a bracket only
    when [f(a)*f(b) > 0]: the call then raises its [ValueError] with [rows]
    still empty.  When [f(a)*f(b) == 0] or [f(a)*f(b) < 0] neither method raises
    a [ValueError]. *)
Theorem C1_bracket_check {T : Type} {N : PyNum T} {O : PyOrder T}
  (f : T -> T) (a b : T) (max_iter : Z) (tol : T) :
  ((f a * f b >? nzero)%py = true ->
     CLI.bisection_method f a b max_iter tol =
       Raise (ValueError "f(a) and f(b) must have opposite signs for Bisection.") [] /\
     CLI.regula_falsi f a b max_iter tol =
       Raise (ValueError "f(a) and f(b) must have opposite signs for Regula Falsi.") []) /\
  ((f a * f b =? nzero)%py = true \/ (f a * f b <? nzero)%py = true ->
     forall msg rows,
       CLI.bisection_method f a b max_iter tol <> Raise (ValueError msg) rows /\
       CLI.regula_falsi f a b max_iter tol <> Raise (ValueError msg) rows).
Proof.
  split.
  - apply bracket_rejected_raises.
  - intros H msg rows.
    assert ((f a * f b >? nzero)%py = false) as G.
    { destruct H as [H|H]; [apply (neq_not_lt _ _ H) | apply (nlt_asym _ _ H)]. }
    split.
    + apply (bracket_accepted_no_ValueError (CLI.Bisection f a b)). exact G.
    + apply (bracket_accepted_no_ValueError (CLI.RegulaFalsi f a b)). exact G.
Qed.

(** In double precision: [f(x) = x**2 - 2] on [[2, 3]] is rejected, and
    [f(x) = x] on [[0, 1]], where the product is zero, is not. *)
Lemma C1_bracket_check_witness :
  (CLI.bisection_method f_sq2 2%float 3%float 50 tol_1e6 =
     Raise (ValueError "f(a) and f(b) must have opposite signs for Bisection.") [] /\
   CLI.regula_falsi f_sq2 2%float 3%float 50 tol_1e6 =
     Raise (ValueError "f(a) and f(b) must have opposite signs for Regula Falsi.") []) /\
  forall msg rows,
    CLI.bisection_method f_x 0%float 1%float 1 tol_1e6 <> Raise (ValueError msg) rows /\
    CLI.regula_falsi f_x 0%float 1%float 1 tol_1e6 <> Raise (ValueError msg) rows.
Proof.
  split.
  - apply (proj1 (C1_bracket_check f_sq2 2%float 3%float 50 tol_1e6)). reflexivity.
  - apply (proj2 (C1_bracket_check f_x 0%float 1%float 1 tol_1e6)). left. reflexivity.
Defined.

(** C1 fails where [f(a)*f(b) == 0]: for [f(x) = x] on [[0, 1]] the product
    is [0], so [f(a)*f(b) >= 0], and yet both methods go on and return. *)
Lemma C1_counterexample :
  (0 <=? f_x 0 * f_x 1)%float = true /\
  CLI.bisection_method f_x 0%float 1%float 1 tol_1e6 =
    Return 0.5%float 0.5%float 1
      [[Int 1; Num 0%float; Num 1%float; Num 0.5%float; Num 0.5%float; Num 0.5%float]] /\
  CLI.regula_falsi f_x 0%float 1%float 1 tol_1e6 =
    Return 0%float 0%float 1
      [[Int 1; Num 0%float; Num 1%float; Num 0%float; Num 0%float; Num 0%float]].
Proof. repeat split; vm_compute; reflexivity. Qed.

(** ** A tolerance that is not positive *)

Lemma Forall2_range_last {Row : Type} (wf : Z -> Row -> Prop) (lo hi : Z)
  (new : list Row) (r : Row) :
  lo <= hi -> Forall2 wf (range lo (hi + 1)) (new ++ [r]) -> wf hi r.
Proof.
  intros Hle H. rewrite range_snoc in H by exact Hle.
  apply Forall2_app_inv_r in H. destruct H as (l1 & l2 & _ & H2 & E).
  inversion H2 as [|i r' l2' rs' Hw Hnil]; subst. inversion Hnil; subst.
  apply app_inj_tail in E. destruct E as [_ <-]. exact Hw.
Qed.

(** With a tolerance that is negative or zero, no row that a pass writes meets
    the convergence test. *)
Lemma recorded_not_converged {T : Type} {N : PyNum T} {O : PyOrder T}
  (c : CLI.call T) (tol : T) (i : Z) (r : CLI.row T) :
  nlt tol nzero = true \/ neq tol nzero = true ->
  CLI.recorded c i r -> CLI.converged c tol r = false.
Proof.
  intros Ht. destruct c; simpl.
  - intros (a0 & b0 & ->). simpl.
    now rewrite (nabs_not_lt _ _ Ht), (nabs_half_not_lt _ _ Ht).
  - intros (a0 & b0 & fa & fb & _ & ->). simpl. now rewrite (nabs_not_lt _ _ Ht).
  - intros (y0 & y1 & _ & ->). simpl. now rewrite !(nabs_not_lt _ _ Ht).
  - intros (y & _ & ->). simpl. now rewrite !(nabs_not_lt _ _ Ht).
  - intros (y & ->). simpl. now rewrite (nabs_not_lt _ _ Ht).
  - intros (y & _ & ->). simpl. now rewrite !(nabs_not_lt _ _ Ht).
Qed.

(** C2, as the code has it.  No method checks [tol]: a tolerance that is
    negative or zero is accepted.  For an evaluator that returns a value at
    every point and [max_iter >= 1], a call that passes the bracket test runs
    its passes, none of which meets the convergence test: it returns after pass
    [max_iter] with [max_iter] rows, unless a pass raises the
    [ZeroDivisionError] of its method. *)
Theorem C2_no_validation {T : Type} {N : PyNum T} {O : PyOrder T}
  (c : CLI.call T) (max_iter : Z) (tol : T) :
  (tol <? nzero)%py = true \/ (tol =? nzero)%py = true ->
  1 <= max_iter ->
  CLI.bracket_rejected c = false ->
  (exists root err rows,
     CLI.run_method c max_iter tol = Return root err max_iter rows /\
     length rows = Z.to_nat max_iter /\
     Forall (fun r => CLI.converged c tol r = false) rows) \/
  (exists e rows,
     CLI.run_method c max_iter tol = Raise e rows /\ CLI.zero_division c e).
Proof.
  intros Ht Hm Hb. generalize (run_method_outcome c max_iter tol). rewrite Hb.
  destruct (CLI.run_method c max_iter tol) as [root err iters rows|e rows]; simpl.
  - intros (Hi & Hwf & new & r & -> & Hnc & _ & Hc). left.
    assert (CLI.converged c tol r = false) as Hr.
    { apply (recorded_not_converged c tol iters); [exact Ht|].
      apply (Forall2_range_last _ 1 iters new r); [lia|exact Hwf]. }
    destruct Hc as [Hc|[_ ->]]; [congruence|].
    exists root, err, (new ++ [r]). split; [reflexivity|]. split.
    + apply Forall2_length in Hwf. rewrite range_length in Hwf. lia.
    + apply Forall_app. split; [exact Hnc|]. constructor; [exact Hr|constructor].
  - intros [_ [[_ [Hle _]]|[Hbad _]]]; [lia|]. right. eauto.
Qed.

(** Fixed point iteration of [g(x) = 2*x] with [tol = -1] and
    [max_iter = 2]. *)
Lemma C2_no_validation_witness :
  (exists root err rows,
     CLI.run_method (CLI.FixedPoint g_2x 1%float) 2 (-1)%float = Return root err 2 rows /\
     length rows = Z.to_nat 2 /\
     Forall (fun r => CLI.converged (CLI.FixedPoint g_2x 1%float) (-1)%float r = false) rows) \/
  (exists e rows,
     CLI.run_method (CLI.FixedPoint g_2x 1%float) 2 (-1)%float = Raise e rows /\
     CLI.zero_division (CLI.FixedPoint g_2x 1%float) e).
Proof.
  apply (C2_no_validation (CLI.FixedPoint g_2x 1%float) 2 (-1)%float).
  - left. reflexivity.
  - lia.
  - reflexivity.
Defined.

(** C2 fails for the tolerance: with [tol = -1] and [max_iter = 2], fixed
    point iteration of [g(x) = 2*x] from [1] runs both passes and returns. *)
Lemma C2_counterexample :
  (-1 <=? 0)%float = true /\
  CLI.fixed_point_iteration g_2x 1%float 2 (-1)%float =
    Return 4%float 2%float 2
      [[Int 1; Num 1%float; Num 2%float; Num 1%float];
       [Int 2; Num 2%float; Num 4%float; Num 2%float]].
Proof. split; vm_compute; reflexivity. Qed.

(** ** Fixed point iteration *)

(** C10.  With [max_iter >= 1], fixed point iteration returns, after at least
    one and at most [max_iter] passes, with one row per pass; it has no branch
    that raises. *)
Theorem C10_fixed_point_returns {T : Type} {N : PyNum T}
  (g : T -> T) (x0 : T) (max_iter : Z) (tol : T) :
  1 <= max_iter ->
  exists root err iters rows,
    CLI.fixed_point_iteration g x0 max_iter tol = Return root err iters rows /\
    1 <= iters <= max_iter /\ length rows = Z.to_nat iters.
Proof.
  intros Hm. generalize (run_method_outcome (CLI.FixedPoint g x0) max_iter tol). simpl.
  destruct (CLI.fixed_point_iteration g x0 max_iter tol) as [root err iters rows|e rows]; simpl.
  - intros (Hi & Hwf & _). exists root, err, iters, rows.
    split; [reflexivity|]. split; [exact Hi|].
    apply Forall2_length in Hwf. rewrite range_length in Hwf. lia.
  - intros [_ [[_ [Hle _]]|[[] _]]]. lia.
Qed.

Lemma C10_fixed_point_returns_witness :
  exists root err iters rows,
    CLI.fixed_point_iteration g_2x 1%float 3 tol_1e6 = Return root err iters rows /\
    1 <= iters <= 3 /\ length rows = Z.to_nat iters.
Proof. apply (C10_fixed_point_returns g_2x 1%float 3 tol_1e6). lia. Defined.

(** ** Newton-Raphson *)

(** C3, as the code has it.  When Newton-Raphson returns, the last row is
    the one of pass [iters], the root estimate is its [x_new], and the final
    error is [abs(fx)] for the [fx] of that row, not its error entry
    [abs(x_new - x)]. *)
Theorem C3_newton_final_error {T : Type} {N : PyNum T}
  (df f : T -> T) (x0 : T) (max_iter : Z) (tol : T)
  (root err : T) (iters : Z) (rows : list (CLI.row T)) :
  CLI.newton_raphson df f x0 max_iter tol = Return root err iters rows ->
  exists rows0 x,
    rows = rows0 ++ [[Int iters; Num x; Num (f x); Num (df x); Num root;
                      Num (nabs (root - x)%py)]] /\
    root = (x - f x / df x)%py /\
    err = nabs (f x).
Proof.
  intros E. generalize (run_method_outcome (CLI.NewtonRaphson df f x0) max_iter tol).
  simpl. rewrite E. simpl.
  intros (Hi & Hwf & new & r & -> & _ & He & _).
  apply Forall2_range_last in Hwf; [|lia].
  destruct Hwf as (x & _ & ->). simpl in He. inversion He; subst.
  exists new, x. auto.
Qed.

Lemma C3_newton_final_error_witness :
  exists rows0 x,
    [[Int 1; Num 1%float; Num 2%float; Num 2%float; Num 0%float; Num 1%float]] =
      rows0 ++ [[Int 1; Num x; Num (f_2x x); Num (df_2x x); Num 0%float;
                 Num (nabs (0%float - x)%py)]] /\
    0%float = (x - f_2x x / df_2x x)%py /\
    2%float = nabs (f_2x x).
Proof.
  apply (C3_newton_final_error df_2x f_2x 1%float 1 tol_1e6 0%float 2%float 1).
  vm_compute. reflexivity.
Defined.

(** C3 fails: for [f(x) = 2*x] from [x0 = 1], one pass gives [x_new = 0] with
    error entry [abs(x_new - x) = 1], and the final error returned is
    [abs(f(1)) = 2]. *)
Lemma C3_counterexample :
  CLI.newton_raphson df_2x f_2x 1%float 1 tol_1e6 =
    Return 0%float 2%float 1
      [[Int 1; Num 1%float; Num 2%float; Num 2%float; Num 0%float; Num 1%float]] /\
  CLI.error_metric
    [Int 1; Num 1%float; Num 2%float; Num 2%float; Num 0%float; Num 1%float] = Some 1%float /\
  (2 =? 1)%float = false.
Proof. repeat split; vm_compute; reflexivity. Qed.

(** ** Exhausting the iterations *)

(** C4, as the code has it.  Take a call with [max_iter >= 1] that passes the
    bracket test and in which no pass meets the convergence test.  Either a
    pass raises the [ZeroDivisionError] of its method (which bisection and
    fixed point iteration do not have), or the call returns with
    [iters = max_iter], with [max_iter] rows, and with the root estimate and the
    final error value that the last pass computed ([abs] of a function value
    for all methods but fixed point iteration, and not the error entry of the
    row). *)
Theorem C4_exhaustion {T : Type} {N : PyNum T}
  (c : CLI.call T) (max_iter : Z) (tol : T) :
  1 <= max_iter ->
  CLI.bracket_rejected c = false ->
  Forall (fun r => CLI.converged c tol r = false) (rows_of (CLI.run_method c max_iter tol)) ->
  (exists root err rows0 r,
     CLI.run_method c max_iter tol = Return root err max_iter (rows0 ++ [r]) /\
     length (rows0 ++ [r]) = Z.to_nat max_iter /\
     CLI.estimate c r = Some (root, err)) \/
  (exists e rows,
     CLI.run_method c max_iter tol = Raise e rows /\
     CLI.zero_division c e /\
     (length rows < Z.to_nat max_iter)%nat).
Proof.
  intros Hm Hb. generalize (run_method_outcome c max_iter tol). rewrite Hb.
  destruct (CLI.run_method c max_iter tol) as [root err iters rows|e rows]; simpl.
  - intros (Hi & Hwf & new & r & -> & _ & He & Hc) Hall. left.
    apply Forall_app in Hall. destruct Hall as [_ Hr]. inversion Hr as [|? ? Hcr _]; subst.
    destruct Hc as [Hc|[_ ->]]; [congruence|].
    exists root, err, new, r. split; [reflexivity|]. split; [|exact He].
    apply Forall2_length in Hwf. rewrite range_length in Hwf. lia.
  - intros [_ [[_ [Hle _]]|[Hbad (i & Hi & Hwf)]]] _; [lia|]. right.
    exists e, rows. split; [reflexivity|]. split; [exact Hbad|].
    apply Forall2_length in Hwf. rewrite range_length in Hwf. lia.
Qed.

Lemma C4_exhaustion_witness :
  (exists root err rows0 r,
     CLI.run_method (CLI.FixedPoint g_2x 1%float) 2 tol_1e6 =
       Return root err 2 (rows0 ++ [r]) /\
     length (rows0 ++ [r]) = Z.to_nat 2 /\
     CLI.estimate (CLI.FixedPoint g_2x 1%float) r = Some (root, err)) \/
  (exists e rows,
     CLI.run_method (CLI.FixedPoint g_2x 1%float) 2 tol_1e6 = Raise e rows /\
     CLI.zero_division (CLI.FixedPoint g_2x 1%float) e /\
     (length rows < Z.to_nat 2)%nat).
Proof.
  apply (C4_exhaustion (CLI.FixedPoint g_2x 1%float) 2 tol_1e6).
  - lia.
  - reflexivity.
  - vm_compute. repeat constructor.
Defined.

(** C4 fails in two ways.  The secant method on [f(x) = x**2 - 1] from the
    seeds [1] and [-1] raises in its first pass, before any pass could meet the
    convergence test.  Bisection of [f(x) = x**2 - 2] on [[0, 2]] with
    [max_iter = 2] exhausts its passes and returns the final error
    [abs(f(1.5)) = 0.25], while the error metric of its last row is [0.5]. *)
Lemma C4_counterexample :
  CLI.secant_method f_sq1 1%float (-1)%float 5 tol_1e6 =
    Raise (ZeroDivisionError "Zero denominator in Secant method." []) [] /\
  CLI.bisection_method f_sq2 0%float 2%float 2 tol_1e6 =
    Return 1.5%float 0.25%float 2
      [[Int 1; Num 0%float; Num 2%float; Num 1%float; Num (-1)%float; Num 1%float];
       [Int 2; Num 1%float; Num 2%float; Num 1.5%float; Num 0.25%float; Num 0.5%float]] /\
  Forall (fun r => CLI.converged (CLI.Bisection f_sq2 0%float 2%float) tol_1e6 r = false)
    [[Int 1; Num 0%float; Num 2%float; Num 1%float; Num (-1)%float; Num 1%float];
     [Int 2; Num 1%float; Num 2%float; Num 1.5%float; Num 0.25%float; Num 0.5%float]] /\
  (0.25 =? 0.5)%float = false.
Proof. repeat split; try (vm_compute; reflexivity). repeat constructor. Qed.

(** ** Determinism *)

Section Independence.
Context {T : Type} {N : PyNum T} {W E : Type}.

Lemma independent_ret {A : Type} (a : A) :
  Eff.independent (Eff.ret (T := T) (W := W) (E := E) a).
Proof. intros w1 w2. reflexivity. Qed.

Lemma independent_raise {A : Type} (e : exn T) :
  Eff.independent (Eff.raise (W := W) (E := E) (A := A) e).
Proof. intros w1 w2. reflexivity. Qed.

Lemma independent_bind {A B : Type} (m : Eff.M (T := T) W E A) (k : A -> Eff.M W E B) :
  Eff.independent m -> (forall a, Eff.independent (k a)) -> Eff.independent (Eff.bind m k).
Proof.
  intros Hm Hk w1 w2. unfold Eff.bind. specialize (Hm w1 w2).
  destruct (m w1) as [[e1|a1] w1'], (m w2) as [[e2|a2] w2']; simpl in Hm;
    try discriminate; inversion Hm; subst; [reflexivity|apply Hk].
Qed.

Lemma independent_evaluate (f : Eff.evaluator (T := T) W E) (x : T) :
  Eff.deterministic W E f -> Eff.independent (Eff.evaluate f x).
Proof.
  intros Hf w1 w2. unfold Eff.evaluate. specialize (Hf x w1 w2).
  destruct (f x w1) as [[e1|y1] w1'], (f x w2) as [[e2|y2] w2']; simpl in Hf;
    try discriminate; inversion Hf; subst; reflexivity.
Qed.

Lemma independent_div (x y : T) : Eff.independent (Eff.div W E x y).
Proof.
  unfold Eff.div. destruct (pydiv x y); [apply independent_raise|apply independent_ret].
Qed.

Lemma independent_for_each {S R : Type} (body : Z -> S -> Eff.M (T := T) W E (flow S R)) :
  (forall i s, Eff.independent (body i s)) ->
  forall idx s, Eff.independent (Eff.for_each body idx s).
Proof.
  intros Hbody. induction idx as [|i idx IH]; intros s; cbn [Eff.for_each].
  - apply independent_ret.
  - apply independent_bind; [apply Hbody|].
    intros [s'|r]; [apply IH|apply independent_ret].
Qed.

End Independence.

(** The outcome of a computation built from [ret], [raise], [/], calls of
    deterministic evaluators, [bind], conditionals and case distinctions on
    values does not depend on the world. *)
Ltac independence :=
  repeat first
    [ apply independent_ret
    | apply independent_raise
    | apply independent_div
    | apply independent_evaluate; assumption
    | apply independent_bind; [|intros ?; cbv beta]
    | match goal with
      | |- Eff.independent (if ?b then _ else _) => destruct b
      | |- Eff.independent (match ?x with _ => _ end) => destruct x
      end ].

Section IndependentBodies.
Context {T : Type} {N : PyNum T} {W E : Type}.

Lemma bisection_body_independent (f : Eff.evaluator (T := T) W E) (tol : T) :
  Eff.deterministic W E f ->
  forall i s, Eff.independent (Eff.bisection_body W E f tol i s).
Proof.
  intros Hf i [[[[[[a b] fa] fb] c] fc] rows]. unfold Eff.bisection_body. cbv zeta.
  independence.
Qed.

Lemma regula_falsi_body_independent (f : Eff.evaluator (T := T) W E) (tol : T) :
  Eff.deterministic W E f ->
  forall i s, Eff.independent (Eff.regula_falsi_body W E f tol i s).
Proof.
  intros Hf i [[[[[[a b] fa] fb] c] fc] rows]. unfold Eff.regula_falsi_body. cbv zeta.
  independence.
Qed.

Lemma secant_body_independent (f : Eff.evaluator (T := T) W E) (tol : T) :
  Eff.deterministic W E f ->
  forall i s, Eff.independent (Eff.secant_body W E f tol i s).
Proof.
  intros Hf i [[[x0 x1] x2] rows]. unfold Eff.secant_body. cbv zeta. independence.
Qed.

Lemma newton_body_independent (df f : Eff.evaluator (T := T) W E) (tol : T) :
  Eff.deterministic W E df -> Eff.deterministic W E f ->
  forall i s, Eff.independent (Eff.newton_body W E df f tol i s).
Proof.
  intros Hdf Hf i [[x fx] rows]. unfold Eff.newton_body. cbv zeta. independence.
Qed.

Lemma fixed_point_body_independent (g : Eff.evaluator (T := T) W E) (tol : T) :
  Eff.deterministic W E g ->
  forall i s, Eff.independent (Eff.fixed_point_body W E g tol i s).
Proof.
  intros Hg i [[[x x_new] err] rows]. unfold Eff.fixed_point_body. cbv zeta. independence.
Qed.

Lemma modified_secant_body_independent (f : Eff.evaluator (T := T) W E) (delta tol : T) :
  Eff.deterministic W E f ->
  forall i s, Eff.independent (Eff.modified_secant_body W E f delta tol i s).
Proof.
  intros Hf i [[[x f_x] x_new] rows]. unfold Eff.modified_secant_body. cbv zeta.
  independence.
Qed.

(** With evaluators that raise nothing and leave the world alone, the
    methods are the functions of [CLI]. *)
Lemma for_each_pure {S : Type}
  (body : Z -> S -> flow S (outcome T (CLI.row T)))
  (body' : Z -> S -> Eff.M (T := T) W E (flow S (Eff.solved (T := T)))) :
  (forall i s w, body' i s w = (Eff.seen_flow (body i s), w)) ->
  forall idx s w,
    Eff.for_each body' idx s w = (Eff.seen_flow (for_each body idx s), w).
Proof.
  intros H. induction idx as [|i idx IH]; intros s w; cbn [Eff.for_each for_each].
  - reflexivity.
  - unfold Eff.bind. rewrite H.
    destruct (body i s) as [s'|[root err iters rows|e rows]]; cbn [Eff.seen_flow].
    + apply IH.
    + reflexivity.
    + reflexivity.
Qed.

End IndependentBodies.

Section PureEvaluators.
Context {T : Type} {N : PyNum T} {W E : Type}.

Ltac pure_cases :=
  unfold Eff.bind, Eff.evaluate, Eff.pure, Eff.div, Eff.ret, Eff.raise, pydiv; cbv zeta;
  repeat match goal with
  | |- context [if ?b then _ else _] => destruct b
  end; reflexivity.

Lemma bisection_body_pure (f : T -> T) (tol : T) (i : Z) (s : CLI.bisection_locals) (w : W) :
  Eff.bisection_body W E (Eff.pure f) tol i s w =
  (Eff.seen_flow (CLI.bisection_body f tol i s), w).
Proof.
  destruct s as [[[[[[a b] fa] fb] c] fc] rows].
  unfold Eff.bisection_body, CLI.bisection_body. pure_cases.
Qed.

Lemma regula_falsi_body_pure (f : T -> T) (tol : T) (i : Z) (s : CLI.regula_falsi_locals)
  (w : W) :
  Eff.regula_falsi_body W E (Eff.pure f) tol i s w =
  (Eff.seen_flow (CLI.regula_falsi_body f tol i s), w).
Proof.
  destruct s as [[[[[[a b] fa] fb] c] fc] rows].
  unfold Eff.regula_falsi_body, CLI.regula_falsi_body. pure_cases.
Qed.

Lemma secant_body_pure (f : T -> T) (tol : T) (i : Z) (s : CLI.secant_locals) (w : W) :
  Eff.secant_body W E (Eff.pure f) tol i s w =
  (Eff.seen_flow (CLI.secant_body f tol i s), w).
Proof.
  destruct s as [[[x0 x1] x2] rows].
  unfold Eff.secant_body, CLI.secant_body. pure_cases.
Qed.

Lemma newton_body_pure (df f : T -> T) (tol : T) (i : Z) (s : CLI.newton_locals) (w : W) :
  Eff.newton_body W E (Eff.pure df) (Eff.pure f) tol i s w =
  (Eff.seen_flow (CLI.newton_body df f tol i s), w).
Proof.
  destruct s as [[x fx] rows].
  unfold Eff.newton_body, CLI.newton_body. pure_cases.
Qed.

Lemma fixed_point_body_pure (g : T -> T) (tol : T) (i : Z) (s : CLI.fixed_point_locals)
  (w : W) :
  Eff.fixed_point_body W E (Eff.pure g) tol i s w =
  (Eff.seen_flow (CLI.fixed_point_body g tol i s), w).
Proof.
  destruct s as [[[x x_new] err] rows].
  unfold Eff.fixed_point_body, CLI.fixed_point_body. pure_cases.
Qed.

Lemma modified_secant_body_pure (f : T -> T) (delta tol : T) (i : Z)
  (s : CLI.modified_secant_locals) (w : W) :
  Eff.modified_secant_body W E (Eff.pure f) delta tol i s w =
  (Eff.seen_flow (CLI.modified_secant_body f delta tol i s), w).
Proof.
  destruct s as [[[x f_x] x_new] rows].
  unfold Eff.modified_secant_body, CLI.modified_secant_body. pure_cases.
Qed.

(** The two embeddings agree: on evaluators that are functions on numbers
    the methods with effects end as the methods of [CLI] do, and leave the
    world as it was. *)
Lemma run_method_pure (c : CLI.call T) (max_iter : Z) (tol : T) (w : W) :
  Eff.run_method W E (Eff.pure_call c) max_iter tol w =
  (Eff.seen (CLI.run_method c max_iter tol), w).
Proof.
  destruct c as [f a b|f a b|f x0 x1|df f x0|g x0|f x0 delta];
    cbn [Eff.pure_call Eff.run_method CLI.run_method].
  - unfold Eff.bisection_method, CLI.bisection_method. cbv zeta.
    unfold Eff.bind at 1 2. cbn [Eff.evaluate Eff.pure].
    destruct (nlt nzero (nmul (f a) (f b))); [reflexivity|].
    unfold Eff.bind. rewrite (for_each_pure (CLI.bisection_body f tol))
      by (intros; apply bisection_body_pure).
    destruct (for_each _ _ _) as [[[[[[[? ?] ?] ?] [c|]] [fc|]] rows]|[? ? ? ?|? ?]];
      reflexivity.
  - unfold Eff.regula_falsi, CLI.regula_falsi. cbv zeta.
    unfold Eff.bind at 1 2. cbn [Eff.evaluate Eff.pure].
    destruct (nlt nzero (nmul (f a) (f b))); [reflexivity|].
    unfold Eff.bind. rewrite (for_each_pure (CLI.regula_falsi_body f tol))
      by (intros; apply regula_falsi_body_pure).
    destruct (for_each _ _ _) as [[[[[[[? ?] ?] ?] c] [fc|]] rows]|[? ? ? ?|? ?]];
      reflexivity.
  - unfold Eff.secant_method, CLI.secant_method. cbv zeta.
    unfold Eff.bind at 1. rewrite (for_each_pure (CLI.secant_body f tol))
      by (intros; apply secant_body_pure).
    destruct (for_each _ _ _) as [[[[? ?] [x2|]] rows]|[? ? ? ?|? ?]]; reflexivity.
  - unfold Eff.newton_raphson, CLI.newton_raphson. cbv zeta.
    unfold Eff.bind. rewrite (for_each_pure (CLI.newton_body df f tol))
      by (intros; apply newton_body_pure).
    destruct (for_each _ _ _) as [[[? [fx|]] rows]|[? ? ? ?|? ?]]; reflexivity.
  - unfold Eff.fixed_point_iteration, CLI.fixed_point_iteration. cbv zeta.
    unfold Eff.bind. rewrite (for_each_pure (CLI.fixed_point_body g tol))
      by (intros; apply fixed_point_body_pure).
    destruct (for_each _ _ _) as [[[[? [x_new|]] [err|]] rows]|[? ? ? ?|? ?]]; reflexivity.
  - unfold Eff.modified_secant, CLI.modified_secant. cbv zeta.
    unfold Eff.bind. rewrite (for_each_pure (CLI.modified_secant_body f delta tol))
      by (intros; apply modified_secant_body_pure).
    destruct (for_each _ _ _) as [[[[? [f_x|]] [x_new|]] rows]|[? ? ? ?|? ?]]; reflexivity.
Qed.

End PureEvaluators.

(** C7.  Every solve is deterministic.  A call [f(x)] of an evaluator may
    read and change the world and may raise; when the evaluators of a call are
    deterministic (what [f(x)] gives depends on [x] alone), the way the call
    ends, the tuple [(root, final_err, iters, rows)] or the exception, is the
    same from every world: the methods add no state of their own.  In
    particular a second run, from the world the first run left, ends as the
    first. *)
Theorem C7_deterministic {T : Type} {N : PyNum T} (W E : Type)
  (c : Eff.call (T := T) W E) (max_iter : Z) (tol : T) :
  Eff.deterministic_call W E c ->
  forall w1 w2 : W,
    fst (Eff.run_method W E c max_iter tol w1) = fst (Eff.run_method W E c max_iter tol w2).
Proof.
  intros Hf.
  change (Eff.independent (Eff.run_method W E c max_iter tol)).
  destruct c as [f a b|f a b|f x0 x1|df f x0|g x0|f x0 delta];
    cbn [Eff.run_method Eff.deterministic_call] in *.
  - unfold Eff.bisection_method. cbv zeta. independence.
    apply independent_for_each, bisection_body_independent, Hf.
  - unfold Eff.regula_falsi. cbv zeta. independence.
    apply independent_for_each, regula_falsi_body_independent, Hf.
  - unfold Eff.secant_method. cbv zeta. independence.
    apply independent_for_each, secant_body_independent, Hf.
  - destruct Hf as [Hdf Hf]. unfold Eff.newton_raphson. cbv zeta. independence.
    apply independent_for_each, newton_body_independent; assumption.
  - unfold Eff.fixed_point_iteration. cbv zeta. independence.
    apply independent_for_each, fixed_point_body_independent, Hf.
  - unfold Eff.modified_secant. cbv zeta. independence.
    apply independent_for_each, modified_secant_body_independent, Hf.
Qed.

(** The secant method on [x^2 - 2] with an evaluator that counts its calls:
    the second run starts from the count the first run left and ends as the
    first. *)
Lemma C7_deterministic_witness :
  fst (Eff.run_method nat Empty_set (Eff.Secant (counted f_sq2) 1%float 2%float) 20 tol_1e6
         O) =
  fst (Eff.run_method nat Empty_set (Eff.Secant (counted f_sq2) 1%float 2%float) 20 tol_1e6
         (snd (Eff.run_method nat Empty_set (Eff.Secant (counted f_sq2) 1%float 2%float) 20
                 tol_1e6 O))).
Proof.
  apply (C7_deterministic nat Empty_set (Eff.Secant (counted f_sq2) 1%float 2%float) 20
           tol_1e6).
  intros x w1 w2. reflexivity.
Defined.

(** The hypothesis is needed: with an evaluator whose values alternate from
    call to call, the same call of fixed point iteration ends differently from
    two worlds. *)
Lemma alternating_evaluator_differs :
  fst (Eff.run_method bool Empty_set (Eff.FixedPoint alternating 1%float) 1 tol_1e6 true) =
    inr (0.5%float, 0.5%float, 1,
         [[Int 1; Num 1%float; Num 0.5%float; Num 0.5%float]]) /\
  fst (Eff.run_method bool Empty_set (Eff.FixedPoint alternating 1%float) 1 tol_1e6 false) =
    inr (0.25%float, 0.75%float, 1,
         [[Int 1; Num 1%float; Num 0.25%float; Num 0.75%float]]).
Proof. split; vm_compute; reflexivity. Qed.

(** ** The duplicates in [app.py] *)

(** Two loops whose passes correspond, from corresponding locals. *)
Lemma for_each_sim {S1 S2 R1 R2 : Type} (RS : S1 -> S2 -> Prop) (RR : R1 -> R2 -> Prop)
  (body1 : Z -> S1 -> flow S1 R1) (body2 : Z -> S2 -> flow S2 R2) :
  (forall i s1 s2, RS s1 s2 ->
     match body1 i s1, body2 i s2 with
     | Continue t1, Continue t2 => RS t1 t2
     | Leave r1, Leave r2 => RR r1 r2
     | _, _ => False
     end) ->
  forall idx s1 s2, RS s1 s2 ->
    match for_each body1 idx s1, for_each body2 idx s2 with
    | Continue t1, Continue t2 => RS t1 t2
    | Leave r1, Leave r2 => RR r1 r2
    | _, _ => False
    end.
Proof.
  intros Hbody. induction idx as [|i idx IH]; intros s1 s2 Hs; simpl; [exact Hs|].
  specialize (Hbody i s1 s2 Hs).
  destruct (body1 i s1) as [t1|r1], (body2 i s2) as [t2|r2]; try contradiction.
  - apply IH, Hbody.
  - exact Hbody.
Qed.

Section Duplicates.
Context {T : Type} {N : PyNum T}.

Ltac sim_cases :=
  unfold pydiv;
  repeat match goal with
  | |- context [if ?b then _ else _] => destruct b
  end;
  simpl; rewrite ?map_app; simpl; auto.

Lemma bisection_same (f : T -> T) (a b : T) (max_iter : Z) (tol : T) :
  same_result entries6 (CLI.bisection_method f a b max_iter tol)
                       (App.bisection_method f a b max_iter tol).
Proof.
  unfold CLI.bisection_method, App.bisection_method.
  destruct (nlt nzero (nmul (f a) (f b))); [simpl; auto|].
  generalize (for_each_sim
    (fun (s1 : CLI.bisection_locals) (s2 : App.bisection_locals) =>
       let '(a', b', fa, fb, c, fc, rows) := s2 in
       s1 = (a', b', fa, fb, c, fc, map entries6 rows))
    (same_result entries6)
    (CLI.bisection_body f tol) (App.bisection_body f tol)).
  intros Hsim.
  specialize (Hsim ltac:(
    intros i s1 [[[[[[a' b'] fa] fb] c] fc] rows] ->;
    unfold CLI.bisection_body, App.bisection_body; sim_cases)
    (range 1 (max_iter + 1)) (a, b, f a, f b, None, None, [])
    (a, b, f a, f b, None, None, []) eq_refl).
  revert Hsim. cbv zeta.
  destruct (for_each (CLI.bisection_body f tol) _ _) as [s1|r1],
           (for_each (App.bisection_body f tol) _ _) as [s2|r2];
    try (intros Hf; exact (False_ind _ Hf)); [|auto].
  destruct s2 as [[[[[[a' b'] fa] fb] c] fc] rows]. intros ->.
  destruct c, fc; simpl; auto.
Qed.

Lemma regula_falsi_same (f : T -> T) (a b : T) (max_iter : Z) (tol : T) :
  same_result entries6 (CLI.regula_falsi f a b max_iter tol)
                       (App.regula_falsi f a b max_iter tol).
Proof.
  unfold CLI.regula_falsi, App.regula_falsi.
  destruct (nlt nzero (nmul (f a) (f b))); [simpl; auto|].
  generalize (for_each_sim
    (fun (s1 : CLI.regula_falsi_locals) (s2 : App.regula_falsi_locals) =>
       let '(a', b', fa, fb, c, fc, rows) := s2 in
       s1 = (a', b', fa, fb, c, fc, map entries6 rows))
    (same_result entries6)
    (CLI.regula_falsi_body f tol) (App.regula_falsi_body f tol)).
  intros Hsim.
  specialize (Hsim ltac:(
    intros i s1 [[[[[[a' b'] fa] fb] c] fc] rows] ->;
    unfold CLI.regula_falsi_body, App.regula_falsi_body; sim_cases)
    (range 1 (max_iter + 1)) (a, b, f a, f b, a, None, [])
    (a, b, f a, f b, a, None, []) eq_refl).
  revert Hsim. cbv zeta.
  destruct (for_each (CLI.regula_falsi_body f tol) _ _) as [s1|r1],
           (for_each (App.regula_falsi_body f tol) _ _) as [s2|r2];
    try (intros Hf; exact (False_ind _ Hf)); [|auto].
  destruct s2 as [[[[[[a' b'] fa] fb] c] fc] rows]. intros ->.
  destruct fc; simpl; auto.
Qed.

Lemma secant_same (f : T -> T) (x0 x1 : T) (max_iter : Z) (tol : T) :
  same_result entries6 (CLI.secant_method f x0 x1 max_iter tol)
                       (App.secant_method f x0 x1 max_iter tol).
Proof.
  unfold CLI.secant_method, App.secant_method.
  generalize (for_each_sim
    (fun (s1 : CLI.secant_locals) (s2 : App.secant_locals) =>
       let '(x0', x1', x2, rows) := s2 in
       s1 = (x0', x1', x2, map entries6 rows))
    (same_result entries6)
    (CLI.secant_body f tol) (App.secant_body f tol)).
  intros Hsim.
  specialize (Hsim ltac:(
    intros i s1 [[[x0' x1'] x2] rows] ->;
    unfold CLI.secant_body, App.secant_body; sim_cases)
    (range 1 (max_iter + 1)) (x0, x1, None, []) (x0, x1, None, []) eq_refl).
  revert Hsim. cbv zeta.
  destruct (for_each (CLI.secant_body f tol) _ _) as [s1|r1],
           (for_each (App.secant_body f tol) _ _) as [s2|r2];
    try (intros Hf; exact (False_ind _ Hf)); [|auto].
  destruct s2 as [[[x0' x1'] x2] rows]. intros ->.
  destruct x2; simpl; auto.
Qed.

Lemma newton_same (df f : T -> T) (x0 : T) (max_iter : Z) (tol : T) :
  same_result entries6 (CLI.newton_raphson df f x0 max_iter tol)
                       (App.newton_raphson df f x0 max_iter tol).
Proof.
  unfold CLI.newton_raphson, App.newton_raphson.
  generalize (for_each_sim
    (fun (s1 : CLI.newton_locals) (s2 : App.newton_locals) =>
       let '(x, fx, rows) := s2 in s1 = (x, fx, map entries6 rows))
    (same_result entries6)
    (CLI.newton_body df f tol) (App.newton_body df f tol)).
  intros Hsim.
  specialize (Hsim ltac:(
    intros i s1 [[x fx] rows] ->;
    unfold CLI.newton_body, App.newton_body; sim_cases)
    (range 1 (max_iter + 1)) (x0, None, []) (x0, None, []) eq_refl).
  revert Hsim. cbv zeta.
  destruct (for_each (CLI.newton_body df f tol) _ _) as [s1|r1],
           (for_each (App.newton_body df f tol) _ _) as [s2|r2];
    try (intros Hf; exact (False_ind _ Hf)); [|auto].
  destruct s2 as [[x fx] rows]. intros ->.
  destruct fx; simpl; auto.
Qed.

Lemma fixed_point_same (g : T -> T) (x0 : T) (max_iter : Z) (tol : T) :
  same_result entries4 (CLI.fixed_point_iteration g x0 max_iter tol)
                       (App.fixed_point_iteration g x0 max_iter tol).
Proof.
  unfold CLI.fixed_point_iteration, App.fixed_point_iteration.
  generalize (for_each_sim
    (fun (s1 : CLI.fixed_point_locals) (s2 : App.fixed_point_locals) =>
       let '(x, x_new, err, rows) := s2 in s1 = (x, x_new, err, map entries4 rows))
    (same_result entries4)
    (CLI.fixed_point_body g tol) (App.fixed_point_body g tol)).
  intros Hsim.
  specialize (Hsim ltac:(
    intros i s1 [[[x x_new] err] rows] ->;
    unfold CLI.fixed_point_body, App.fixed_point_body; sim_cases)
    (range 1 (max_iter + 1)) (x0, None, None, []) (x0, None, None, []) eq_refl).
  revert Hsim. cbv zeta.
  destruct (for_each (CLI.fixed_point_body g tol) _ _) as [s1|r1],
           (for_each (App.fixed_point_body g tol) _ _) as [s2|r2];
    try (intros Hf; exact (False_ind _ Hf)); [|auto].
  destruct s2 as [[[x x_new] err] rows]. intros ->.
  destruct x_new, err; simpl; auto.
Qed.

Lemma modified_secant_same (f : T -> T) (x0 delta : T) (max_iter : Z) (tol : T) :
  same_result entries5 (CLI.modified_secant f x0 delta max_iter tol)
                       (App.modified_secant f x0 delta max_iter tol).
Proof.
  unfold CLI.modified_secant, App.modified_secant.
  generalize (for_each_sim
    (fun (s1 : CLI.modified_secant_locals) (s2 : App.modified_secant_locals) =>
       let '(x, f_x, x_new, rows) := s2 in s1 = (x, f_x, x_new, map entries5 rows))
    (same_result entries5)
    (CLI.modified_secant_body f delta tol) (App.modified_secant_body f delta tol)).
  intros Hsim.
  specialize (Hsim ltac:(
    intros i s1 [[[x f_x] x_new] rows] ->;
    unfold CLI.modified_secant_body, App.modified_secant_body; sim_cases)
    (range 1 (max_iter + 1)) (x0, None, None, []) (x0, None, None, []) eq_refl).
  revert Hsim. cbv zeta.
  destruct (for_each (CLI.modified_secant_body f delta tol) _ _) as [s1|r1],
           (for_each (App.modified_secant_body f delta tol) _ _) as [s2|r2];
    try (intros Hf; exact (False_ind _ Hf)); [|auto].
  destruct s2 as [[[x f_x] x_new] rows]. intros ->.
  destruct f_x, x_new; simpl; auto.
Qed.

End Duplicates.

(** C8.  Each of the six functions of [ZOF_CLI.py] and its duplicate in
    [app.py] end in the same way on the same arguments: the same root estimate,
    final error and iteration count, and rows with the same entries, or an
    exception of the same class. *)
Theorem C8_duplicates_agree {T : Type} {N : PyNum T}
  (df f g : T -> T) (a b x0 x1 delta : T) (max_iter : Z) (tol : T) :
  same_result entries6 (CLI.bisection_method f a b max_iter tol)
                       (App.bisection_method f a b max_iter tol) /\
  same_result entries6 (CLI.regula_falsi f a b max_iter tol)
                       (App.regula_falsi f a b max_iter tol) /\
  same_result entries6 (CLI.secant_method f x0 x1 max_iter tol)
                       (App.secant_method f x0 x1 max_iter tol) /\
  same_result entries6 (CLI.newton_raphson df f x0 max_iter tol)
                       (App.newton_raphson df f x0 max_iter tol) /\
  same_result entries4 (CLI.fixed_point_iteration g x0 max_iter tol)
                       (App.fixed_point_iteration g x0 max_iter tol) /\
  same_result entries5 (CLI.modified_secant f x0 delta max_iter tol)
                       (App.modified_secant f x0 delta max_iter tol).
Proof.
  repeat split.
  - apply bisection_same.
  - apply regula_falsi_same.
  - apply secant_same.
  - apply newton_same.
  - apply fixed_point_same.
  - apply modified_secant_same.
Qed.

(** ** The zero test of the secant method *)

Lemma SFcompare_Eq_finite sx mx ex sy my ey :
  SFcompare (S754_finite sx mx ex) (S754_finite sy my ey) = Some Eq ->
  sx = sy /\ mx = my /\ ex = ey.
Proof.
  simpl. destruct sx, sy; try discriminate.
  - destruct (ex ?= ey)%Z eqn:E; try discriminate.
    apply Z.compare_eq in E.
    change (Pos.compare_cont Eq mx my) with (Pos.compare mx my).
    destruct (mx ?= my)%positive eqn:E'; try discriminate.
    apply Pos.compare_eq in E'. auto.
  - destruct (ex ?= ey)%Z eqn:E; try discriminate.
    apply Z.compare_eq in E.
    change (Pos.compare_cont Eq mx my) with (Pos.compare mx my).
    destruct (mx ?= my)%positive eqn:E'; try discriminate.
    apply Pos.compare_eq in E'. auto.
Qed.

(** In double precision the difference of two equal finite values is zero, so
    the test [(f1 - f0) == 0] fires whenever [f1 == f0] and the values are
    finite. *)
Lemma float_equal_difference (x y : float) :
  is_finite x = true -> (y =? x)%float = true -> (y - x =? 0)%float = true.
Proof.
  unfold is_finite, is_nan, is_infinity.
  rewrite !eqb_spec, abs_spec, sub_spec.
  change (Prim2SF infinity) with (S754_infinity false).
  change (Prim2SF 0) with (S754_zero false).
  destruct (Prim2SF x) as [sx|sx| |sx mx ex], (Prim2SF y) as [sy|sy| |sy my ey];
    simpl; try discriminate; intros Hfin Heq;
    try (destruct sx; discriminate Hfin);
    try (destruct sx, sy; discriminate Heq).
  - destruct sx, sy; reflexivity.
  - unfold SFeqb in Heq.
    destruct (SFcompare (S754_finite sy my ey) (S754_finite sx mx ex)) as [[| |]|] eqn:E;
      try discriminate.
    apply SFcompare_Eq_finite in E. destruct E as (-> & -> & ->).
    replace (IntDef.Z.min ex ex) with ex by (symmetry; apply Z.min_id).
    rewrite Z.sub_diag. reflexivity.
Qed.

(** C6, as the code has it.  Whenever a pass of the secant loop starts with
    seeds [x0'] and [x1'] for which [f(x1') - f(x0')] evaluates to zero, the
    call raises the [ZeroDivisionError] of the method and returns no result;
    the rows are those of the passes before.  With no pass before ([idx1]
    empty: the seeds of the call, and [max_iter >= 1]) [rows] is empty. *)
Theorem C6_secant_zero_denominator {T : Type} {N : PyNum T}
  (f : T -> T) (x0 x1 : T) (max_iter : Z) (tol : T)
  (idx1 idx2 : list Z) (i : Z) (x0' x1' : T) (x2' : option T) (rows' : list (CLI.row T)) :
  range 1 (max_iter + 1) = idx1 ++ i :: idx2 ->
  for_each (CLI.secant_body f tol) idx1 (x0, x1, None, []) = Continue (x0', x1', x2', rows') ->
  (f x1' - f x0' =? nzero)%py = true ->
  CLI.secant_method f x0 x1 max_iter tol =
    Raise (ZeroDivisionError "Zero denominator in Secant method." []) rows' /\
  length rows' = length idx1.
Proof.
  intros Hidx Hpre Hzero. split.
  - unfold CLI.secant_method. rewrite Hidx, for_each_app, Hpre. simpl.
    unfold CLI.secant_body. now rewrite Hzero.
  - destruct (loop_continue _ _ _ _ _ _ _ (secant_pass f x0 x1 tol) _ _ _ Hpre)
      as (new & Hrows & Hwf & _).
    simpl in Hrows. subst rows'. apply Forall2_length in Hwf. now rewrite Hwf.
Qed.

(** The example of the specification: [f(x) = x**2 - 1] with the seeds [1]
    and [-1]. *)
Lemma C6_secant_zero_denominator_witness :
  CLI.secant_method f_sq1 1%float (-1)%float 5 tol_1e6 =
    Raise (ZeroDivisionError "Zero denominator in Secant method." []) [] /\
  length (@nil (CLI.row float)) = length (@nil Z).
Proof.
  apply (C6_secant_zero_denominator f_sq1 1%float (-1)%float 5 tol_1e6
           [] [2; 3; 4; 5] 1 1%float (-1)%float None []); reflexivity.
Defined.

(** C6 fails where the equal values are infinite: for [f(x) = 2**1000 * x]
    and the seeds [2**1000] and [2**1001], [f(x1) == f(x0)] holds ([inf == inf])
    but [f(x1) - f(x0)] is [nan], the test does not fire, and the call returns
    after its two passes.  And with [max_iter = 0] the seeds [1] and [-1] of
    [f(x) = x**2 - 1] are never tested: the call ends in the
    [UnboundLocalError] of the [return] after the loop. *)
Lemma C6_counterexample :
  (f_huge 0x1p+1001 =? f_huge 0x1p+1000)%float = true /\
  CLI.secant_method f_huge 0x1p+1000%float 0x1p+1001%float 2 tol_1e6 =
    Return nan nan 2
      [[Int 1; Num 0x1p+1000%float; Num 0x1p+1001%float; Num nan; Num nan; Num nan];
       [Int 2; Num 0x1p+1001%float; Num nan; Num nan; Num nan; Num nan]] /\
  (f_sq1 (-1) =? f_sq1 1)%float = true /\
  CLI.secant_method f_sq1 1%float (-1)%float 0 tol_1e6 = Raise (UnboundLocalError "x2") [].
Proof. repeat split; vm_compute; reflexivity. Qed.

(** ** The widths of the brackets of bisection *)

Section Exact.
Local Open Scope Q_scope.

Lemma Qabs_half (x : Q) : Qabs (x / 2) == Qabs x / 2.
Proof. unfold Qdiv. rewrite Qabs_Qmult. reflexivity. Qed.

Lemma midpoint_left (a b : Q) : Qabs ((a + b) / 2 - a) == Qabs (b - a) / 2.
Proof. rewrite <- Qabs_half. apply Qabs_wd. field. Qed.

Lemma midpoint_right (a b : Q) : Qabs (b - (a + b) / 2) == Qabs (b - a) / 2.
Proof. rewrite <- Qabs_half. apply Qabs_wd. field. Qed.

Lemma pow2_succ (z : Z) : 2 ^ (z + 1) == 2 ^ z * 2.
Proof. rewrite Qpower_plus by discriminate. reflexivity. Qed.

Lemma pow2_nonzero (z : Z) : ~ 2 ^ z == 0.
Proof. apply Qpower_not_0. discriminate. Qed.

(** What [exact_pass] says of a row. *)
Lemma exact_pass_values (i : Z) (a b c fc e : float) :
  exact_pass [Int i; Num a; Num b; Num c; Num fc; Num e] = true ->
  exists qa qb qc qe,
    float_value a = Some qa /\ float_value b = Some qb /\
    float_value c = Some qc /\ float_value e = Some qe /\
    qc == (qa + qb) / 2 /\ qe == Qabs (qb - qa) / 2.
Proof.
  cbn [exact_pass].
  destruct (float_value a) as [qa|]; [|discriminate].
  destruct (float_value b) as [qb|]; [|discriminate].
  destruct (float_value c) as [qc|]; [|discriminate].
  destruct (float_value e) as [qe|]; [|discriminate].
  intros H. apply andb_prop in H. destruct H as [H1 H2].
  apply Qeq_bool_iff in H1, H2. exists qa, qb, qc, qe. auto 6.
Qed.

Lemma halved_first (i : Z) (a b c fc e : float) (qa qb qe : Q) :
  float_value a = Some qa -> float_value b = Some qb -> float_value e = Some qe ->
  qe == Qabs (qb - qa) / 2 ->
  halved (Qabs (qb - qa)) 0 [Int i; Num a; Num b; Num c; Num fc; Num e].
Proof.
  intros Ha Hb He H. exists i, a, b, c, fc, e, qa, qb, qe.
  split; [reflexivity|]. repeat (split; [assumption|]).
  rewrite H. simpl. split; field.
Qed.

Lemma halved_next (w w' : Q) (j : nat) (r : CLI.row float) :
  w' == w / 2 -> halved w' j r -> halved w (S j) r.
Proof.
  intros H (i & ar & br & cr & fcr & e & qa & qb & qe & -> & Ha & Hb & He & H1 & H2).
  exists i, ar, br, cr, fcr, e, qa, qb, qe. split; [reflexivity|].
  repeat (split; [assumption|]).
  rewrite Nat2Z.inj_succ. unfold Z.succ. rewrite H1, H2, H, !pow2_succ.
  generalize (pow2_nonzero (Z.of_nat j)). intros Hz. split; field; exact Hz.
Qed.

(** The rows a bisection loop appends, from locals with bracket [[a, b]]:
    as long as the passes have rounded nothing, the widths halve. *)
Lemma bisection_loop_halving (f : float -> float) (tol : float) (idx : list Z) :
  forall (a b fa fb : float) (c fc : option float) (rows : list (CLI.row float)),
  exists new,
    match for_each (CLI.bisection_body f tol) idx (a, b, fa, fb, c, fc, rows) with
    | Continue s' => CLI.bisection_rows s'
    | Leave o => rows_of o
    end = (rows ++ new)%list /\
    forall j r,
      nth_error new j = Some r ->
      forallb exact_pass (firstn (S j) new) = true ->
      exists qa qb,
        float_value a = Some qa /\ float_value b = Some qb /\
        halved (Qabs (qb - qa)) j r.
Proof.
  induction idx as [|i idx IH]; intros a b fa fb c fc rows.
  - exists []. simpl. rewrite app_nil_r. split; [reflexivity|].
    intros [|j] r H; discriminate.
  - cbn [for_each]. unfold CLI.bisection_body at 1. cbv zeta.
    set (c0 := (nquot (nadd a b) ntwo)). set (e0 := nquot (nabs (nsub b a)) ntwo).
    set (r0 := [Int i; Num a; Num b; Num c0; Num (f c0); Num e0]).
    assert (exact_pass r0 = true ->
            exists qa qb qc,
              float_value a = Some qa /\ float_value b = Some qb /\
              float_value c0 = Some qc /\ qc == (qa + qb) / 2 /\
              halved (Qabs (qb - qa)) 0 r0) as H0.
    { intros Hx. apply exact_pass_values in Hx.
      destruct Hx as (qa & qb & qc & qe & Ha & Hb & Hc & He & Hqc & Hqe).
      exists qa, qb, qc. repeat (split; [assumption|]).
      now apply (halved_first i a b c0 (f c0) e0 qa qb qe). }
    destruct (nlt (nabs (f c0)) tol || nlt e0 tol).
    + exists [r0]. split; [reflexivity|].
      intros [|[|j]] r H Hx; try discriminate. inversion H; subst r.
      cbn [firstn forallb] in Hx. rewrite andb_true_r in Hx.
      destruct (H0 Hx) as (qa & qb & qc & Ha & Hb & _ & _ & Hh). eauto.
    + assert (forall a1 b1 new,
                (forall j r, nth_error new j = Some r ->
                   forallb exact_pass (firstn (S j) new) = true ->
                   exists q1 q2, float_value a1 = Some q1 /\ float_value b1 = Some q2 /\
                                 halved (Qabs (q2 - q1)) j r) ->
                (forall qa qb qc q1 q2,
                   float_value a = Some qa -> float_value b = Some qb ->
                   float_value c0 = Some qc -> qc == (qa + qb) / 2 ->
                   float_value a1 = Some q1 -> float_value b1 = Some q2 ->
                   Qabs (q2 - q1) == Qabs (qb - qa) / 2) ->
                forall j r, nth_error (r0 :: new) j = Some r ->
                  forallb exact_pass (firstn (S j) (r0 :: new)) = true ->
                  exists qa qb, float_value a = Some qa /\ float_value b = Some qb /\
                                halved (Qabs (qb - qa)) j r) as Hstep.
      { intros a1 b1 new Hnew Hw [|j] r H Hx.
        - inversion H; subst r. cbn [firstn forallb] in Hx. rewrite andb_true_r in Hx.
          destruct (H0 Hx) as (qa & qb & qc & Ha & Hb & _ & _ & Hh). eauto.
        - cbn [nth_error] in H. cbn [firstn forallb] in Hx.
          apply andb_prop in Hx. destruct Hx as [Hx0 Hx].
          destruct (H0 Hx0) as (qa & qb & qc & Ha & Hb & Hc & Hqc & _).
          destruct (Hnew j r H Hx) as (q1 & q2 & H1 & H2 & Hh).
          exists qa, qb. repeat (split; [assumption|]).
          apply (halved_next _ (Qabs (q2 - q1))); [|exact Hh].
          now apply (Hw qa qb qc q1 q2). }
      destruct (nlt (nmul fa (f c0)) nzero).
      * destruct (IH a c0 fa (f c0) (Some c0) (Some (f c0)) (rows ++ [r0])%list)
          as (new & Hrows & Hnew).
        exists (r0 :: new). split; [now rewrite Hrows, <- app_assoc|].
        apply (Hstep a c0 new Hnew).
        intros qa qb qc q1 q2 Ha Hb Hc Hqc H1 H2.
        assert (q1 = qa) by congruence. assert (q2 = qc) by congruence. subst q1 q2.
        rewrite <- midpoint_left. apply Qabs_wd. rewrite Hqc. reflexivity.
      * destruct (IH c0 b (f c0) fb (Some c0) (Some (f c0)) (rows ++ [r0])%list)
          as (new & Hrows & Hnew).
        exists (r0 :: new). split; [now rewrite Hrows, <- app_assoc|].
        apply (Hstep c0 b new Hnew).
        intros qa qb qc q1 q2 Ha Hb Hc Hqc H1 H2.
        assert (q1 = qc) by congruence. assert (q2 = qb) by congruence. subst q1 q2.
        rewrite <- midpoint_right. apply Qabs_wd. rewrite Hqc. reflexivity.
Qed.

End Exact.

Lemma Forall2_range_nth {Row : Type} (wf : Z -> Row -> Prop) (lo hi : Z)
  (rows : list Row) (j : nat) (r : Row) :
  Forall2 wf (range lo hi) rows -> nth_error rows j = Some r -> wf (lo + Z.of_nat j) r.
Proof.
  intros H Hj.
  assert (exists i, nth_error (range lo hi) j = Some i /\ wf i r) as (i & Hi & Hw).
  { revert j Hj. induction H as [|i0 r0 l l' Hw _ IH]; intros [|j] Hj; simpl in *;
      try discriminate.
    - inversion Hj; subst. eauto.
    - apply IH, Hj. }
  apply range_nth in Hi. now subst.
Qed.

(** C5, in double precision.  As long as the passes of a bisection round
    nothing (every recorded midpoint is exactly [(a + b)/2] and every recorded
    error exactly [|b - a|/2], as numbers), the widths halve exactly: row [i]
    (row number [j = i - 1] counted from [0]) records a bracket of width
    [|b - a| / 2^(i-1)] and the error [|b - a| / 2^i], for the endpoints [a] and
    [b] of the call. *)
Theorem C5_halving_exact (f : float -> float) (a b : float) (max_iter : Z) (tol : float)
  (j : nat) (r : CLI.row float) :
  nth_error (rows_of (CLI.bisection_method f a b max_iter tol)) j = Some r ->
  forallb exact_pass (firstn (S j) (rows_of (CLI.bisection_method f a b max_iter tol)))
    = true ->
  exists qa qb,
    float_value a = Some qa /\ float_value b = Some qb /\
    exists ar br cr fcr e qar qbr qe,
      r = [Int (Z.of_nat j + 1); Num ar; Num br; Num cr; Num fcr; Num e] /\
      float_value ar = Some qar /\ float_value br = Some qbr /\ float_value e = Some qe /\
      (Qabs (qbr - qar) == Qabs (qb - qa) / 2 ^ Z.of_nat j)%Q /\
      (qe == Qabs (qb - qa) / 2 ^ (Z.of_nat j + 1))%Q.
Proof.
  intros Hj Hx.
  assert (CLI.recorded (CLI.Bisection f a b) (1 + Z.of_nat j) r) as Hrec.
  { generalize (run_method_outcome (CLI.Bisection f a b) max_iter tol).
    cbn [CLI.bracket_rejected CLI.run_method].
    destruct (nlt nzero (nmul (f a) (f b))) eqn:G.
    - intros [msg E]. rewrite E in Hj. destruct j; discriminate.
    - destruct (CLI.bisection_method f a b max_iter tol) as [root err iters rows|e rows];
        cbn [rows_of solve_outcome] in *.
      + intros (_ & Hwf & _). eapply Forall2_range_nth; eassumption.
      + intros [_ [[_ [_ ->]]|[[] _]]]. destruct j; discriminate. }
  assert (exists qa qb, float_value a = Some qa /\ float_value b = Some qb /\
                        halved (Qabs (qb - qa)) j r) as (qa & qb & Ha & Hb & Hh).
  { revert Hj Hx. unfold CLI.bisection_method.
    destruct (nlt nzero (nmul (f a) (f b))); [destruct j; discriminate|].
    destruct (bisection_loop_halving f tol (range 1 (max_iter + 1))
                a b (f a) (f b) None None []) as (new & Hrows & Hnew).
    revert Hrows. cbv zeta.
    destruct (for_each _ _ _) as [[[[[[[a' b'] fa] fb] c] fc] rows]|o]; simpl.
    - intros ->. destruct c, fc; simpl; apply Hnew.
    - intros ->. apply Hnew. }
  exists qa, qb. repeat (split; [assumption|]).
  remember (1 + Z.of_nat j) as k eqn:Hk.
  destruct Hrec as (a1 & b1 & Er).
  destruct Hh as (i & ar & br & cr & fcr & e & qar & qbr & qe & Hr & H1 & H2 & H3 & H4 & H5).
  rewrite Hr in Er. cbv zeta in Er. injection Er as Ei _ _ _ _ _.
  exists ar, br, cr, fcr, e, qar, qbr, qe.
  split; [rewrite Hr; do 2 f_equal; lia | auto 6].
Qed.

(** Bisection of [x^2 - 2] on [[0, 2]]: the brackets [[0, 2]], [[1, 2]] and
    [[1, 1.5]] are halved without rounding, and the third row records the
    width [2 / 2^2] and the error [2 / 2^3]. *)
Lemma C5_halving_exact_witness :
  exists qa qb,
    float_value 0 = Some qa /\ float_value 2 = Some qb /\
    exists ar br cr fcr e qar qbr qe,
      [Int 3; Num 1%float; Num 1.5%float; Num 1.25%float; Num (-0.4375)%float;
       Num 0.25%float] =
        [Int (Z.of_nat 2 + 1); Num ar; Num br; Num cr; Num fcr; Num e] /\
      float_value ar = Some qar /\ float_value br = Some qbr /\ float_value e = Some qe /\
      (Qabs (qbr - qar) == Qabs (qb - qa) / 2 ^ Z.of_nat 2)%Q /\
      (qe == Qabs (qb - qa) / 2 ^ (Z.of_nat 2 + 1))%Q.
Proof.
  apply (C5_halving_exact f_sq2 0%float 2%float 3 tol_1e6 2%nat).
  - vm_compute. reflexivity.
  - vm_compute. reflexivity.
Defined.

(** C5 fails in double precision: bisection of [f(x) = x - 0.3] on
    [[0.1, 1]] has the initial width [0.9], and its second row records the error
    [0.22500000000000003], which is not [0.9 / 2^2 = 0.225] and not half of the
    error [0.45] of the first row: the midpoint [(0.1 + 1) / 2] is rounded. *)
Lemma C5_counterexample :
  (f_x03 x_01 * f_x03 1 <? 0)%float = true /\
  CLI.bisection_method f_x03 x_01 1%float 2 tol_1e6 =
    Return 0x1.4cccccccccccdp-2%float 0x1.99999999999ap-6%float 2
      [[Int 1; Num x_01; Num 1%float; Num 0x1.199999999999ap-1%float;
        Num 0x1.0000000000001p-2%float; Num 0x1.ccccccccccccdp-2%float];
       [Int 2; Num x_01; Num 0x1.199999999999ap-1%float; Num 0x1.4cccccccccccdp-2%float;
        Num 0x1.99999999999ap-6%float; Num 0x1.ccccccccccccep-3%float]] /\
  (abs (1 - x_01) / 4)%float = 0x1.ccccccccccccdp-3%float /\
  (0x1.ccccccccccccep-3 =? abs (1 - x_01) / 4)%float = false /\
  (0x1.ccccccccccccep-3 * 2 =? 0x1.ccccccccccccdp-2)%float = false.
Proof. repeat split; vm_compute; reflexivity. Qed.

(** ** The bracket of bisection *)

(** In any arithmetic the cached [fa] and [fb] are the values of [f] at the
    endpoints. *)
Lemma bisection_cache_coherent {T : Type} {N : PyNum T} (f : T -> T) (tol : T)
  (idx : list Z) (a b : T) (c fc : option T) (rows : list (CLI.row T))
  (a' b' fa' fb' : T) (c' fc' : option T) (rows' : list (CLI.row T)) :
  for_each (CLI.bisection_body f tol) idx (a, b, f a, f b, c, fc, rows) =
    Continue (a', b', fa', fb', c', fc', rows') ->
  fa' = f a' /\ fb' = f b'.
Proof.
  intros H.
  apply (for_each_invariant (CLI.bisection_body f tol)
           (fun s => let '(a, b, fa, fb, _, _, _) := s in fa = f a /\ fb = f b))
    in H; [exact H| |split; reflexivity].
  clear. intros i [[[[[[a b] fa] fb] c] fc] rows] s' [-> ->].
  unfold CLI.bisection_body.
  destruct (nlt _ _ || nlt _ _); [discriminate|].
  destruct (nlt _ _); intros E; inversion E; subst; split; reflexivity.
Qed.

(** The sign of a product in double precision. *)
Section Signs.

Lemma shr_1_nonneg (mrs : shr_record) : 0 <= shr_m mrs -> 0 <= shr_m (shr_1 mrs).
Proof.
  destruct mrs as [m r s]. destruct m as [|[p|p|]|p]; simpl; intros H; try lia.
Qed.

Lemma iter_pos_shr_1_nonneg (p : positive) :
  forall mrs, 0 <= shr_m mrs -> 0 <= shr_m (iter_pos shr_1 p mrs).
Proof.
  induction p as [p IH|p IH|]; intros mrs H; simpl.
  - apply IH, IH, shr_1_nonneg, H.
  - apply IH, IH, H.
  - apply shr_1_nonneg, H.
Qed.

Lemma shr_fexp_nonneg (m e : Z) (l : location) :
  0 <= m -> 0 <= shr_m (fst (shr_fexp prec emax m e l)).
Proof.
  intros H. unfold shr_fexp, shr.
  assert (0 <= shr_m (shr_record_of_loc m l)) as H0 by (destruct l as [|[| |]]; exact H).
  destruct (fexp prec emax (Zdigits2 m + e) - e) as [|p|p]; simpl; try exact H0.
  apply iter_pos_shr_1_nonneg, H0.
Qed.

Lemma round_nearest_even_nonneg (m : Z) (l : location) :
  0 <= m -> 0 <= round_nearest_even m l.
Proof.
  intros H. destruct l as [|[| |]]; simpl; try destruct (Z.even m); lia.
Qed.

(** Rounding keeps the sign: the result is a zero, a finite number or an
    infinity of the sign given. *)
Lemma binary_round_aux_sign (s : bool) (m e : Z) (l : location) :
  0 <= m ->
  binary_round_aux prec emax s m e l = S754_zero s \/
  (exists m' e', binary_round_aux prec emax s m e l = S754_finite s m' e') \/
  binary_round_aux prec emax s m e l = S754_infinity s.
Proof.
  intros H. unfold binary_round_aux.
  generalize (shr_fexp_nonneg m e l H).
  destruct (shr_fexp prec emax m e l) as [mrs' e']. cbn [fst]. intros H1.
  generalize (shr_fexp_nonneg _ e' loc_Exact
                (round_nearest_even_nonneg (shr_m mrs') (loc_of_shr_record mrs') H1)).
  destruct (shr_fexp prec emax _ e' loc_Exact) as [mrs'' e'']. cbn [fst]. intros H2.
  destruct (shr_m mrs'') as [|p|p]; [now left| |lia].
  destruct (Z.leb _ _); [right; left; eauto | now right; right].
Qed.

Lemma SFmul_finite (sx sy : bool) (mx my : positive) (ex ey : Z) :
  let z := SFmul prec emax (S754_finite sx mx ex) (S754_finite sy my ey) in
  z = S754_zero (xorb sx sy) \/
  (exists m' e', z = S754_finite (xorb sx sy) m' e') \/
  z = S754_infinity (xorb sx sy).
Proof. apply binary_round_aux_sign. lia. Qed.

Ltac product_cases :=
  match goal with
  | |- context [SFmul prec emax ?x ?y] =>
      destruct x as [[|]|[|]| |[|] mx ex], y as [[|]|[|]| |[|] my ey];
      try (cbn; intros; congruence)
  end;
  match goal with
  | |- context [SFmul prec emax (S754_finite ?sx ?mx ?ex) (S754_finite ?sy ?my ?ey)] =>
      let E := fresh "E" in
      destruct (SFmul_finite sx sy mx my ex ey) as [E|[(? & ? & E)|E]];
      cbv zeta in E; rewrite E; cbn; intros; congruence
  end.

Lemma SFmul_negative (x y : spec_float) :
  SFltb (SFmul prec emax x y) (S754_zero false) = true ->
  SFltb x (S754_zero false) && SFltb (S754_zero false) y
  || SFltb (S754_zero false) x && SFltb y (S754_zero false) = true.
Proof. product_cases. Qed.

Lemma SFmul_positive (x y : spec_float) :
  SFltb (S754_zero false) (SFmul prec emax x y) = true ->
  SFltb x (S754_zero false) && SFltb y (S754_zero false)
  || SFltb (S754_zero false) x && SFltb (S754_zero false) y = true.
Proof. product_cases. Qed.

Lemma SFmul_opposite (x y : spec_float) :
  SFltb x (S754_zero false) && SFltb (S754_zero false) y
  || SFltb (S754_zero false) x && SFltb y (S754_zero false) = true ->
  SFleb (SFmul prec emax x y) (S754_zero false) = true.
Proof. product_cases. Qed.

Local Open Scope float_scope.

(** A negative product has factors that are nonzero numbers of opposite
    signs; a positive product has factors of the same sign; and the product of
    two nonzero numbers of opposite signs is [<= 0] (it is negative, or it has
    underflowed to [-0.0]). *)
Lemma product_negative (x y : float) :
  (x * y <? 0) = true -> opposite_signs x y = true.
Proof.
  unfold opposite_signs. rewrite !ltb_spec, mul_spec.
  change (Prim2SF 0) with (S754_zero false). apply SFmul_negative.
Qed.

Lemma product_positive (x y : float) :
  (0 <? x * y) = true -> (x <? 0) && (y <? 0) || (0 <? x) && (0 <? y) = true.
Proof.
  rewrite !ltb_spec, mul_spec.
  change (Prim2SF 0) with (S754_zero false). apply SFmul_positive.
Qed.

Lemma product_opposite (x y : float) :
  opposite_signs x y = true -> (x * y <=? 0) = true.
Proof.
  unfold opposite_signs. rewrite !ltb_spec, leb_spec, mul_spec.
  change (Prim2SF 0) with (S754_zero false). apply SFmul_opposite.
Qed.

Lemma opposite_signs_kept (x y z : float) :
  opposite_signs x y = true ->
  (x * z <? 0) = false -> nonzero_number (x * z) = true ->
  opposite_signs z y = true.
Proof.
  unfold nonzero_number. intros Hxy Hn Hz. rewrite Hn in Hz. cbn [orb] in Hz.
  apply product_positive in Hz. revert Hxy Hz. unfold opposite_signs.
  generalize (nlt_asym (T := float) x 0) (nlt_asym (T := float) 0 x). cbn [nlt float_num].
  destruct (x <? 0), (0 <? x), (z <? 0), (0 <? z), (y <? 0), (0 <? y); cbn;
    intros H1 H2; try congruence;
    try (specialize (H1 eq_refl); discriminate);
    try (specialize (H2 eq_refl); discriminate).
Qed.

End Signs.

Section Bracket.
Import CLI.
Local Open Scope float_scope.

(** A pass that goes on keeps the bracket. *)
Lemma bisection_pass_keeps_bracket (f : float -> float) (tol : float) (i : Z)
  (s s' : bisection_locals) :
  bracket_kept f s -> bisection_body f tol i s = Continue s' -> bracket_kept f s'.
Proof.
  destruct s as [[[[[[a b] fa] fb] c] fc] rows]. intros (-> & -> & Hs).
  unfold bisection_body. cbv zeta.
  set (c0 := nquot (nadd a b) ntwo).
  destruct (nlt (nabs (f c0)) tol || _); [discriminate|].
  destruct (nlt (nmul (f a) (f c0)) nzero) eqn:Hlt; intros E; inversion E; subst;
    cbn [bracket_kept]; (split; [reflexivity|]); (split; [reflexivity|]);
    rewrite forallb_app; intros Hrows;
    apply andb_prop in Hrows; destruct Hrows as [Hrows Hrow];
    destruct (Hs Hrows) as [Hopp _];
    cbn [forallb product_is_number] in Hrow; rewrite andb_true_r in Hrow.
  - apply product_negative in Hlt. split; [exact Hlt | now apply product_opposite].
  - assert (opposite_signs (f c0) (f b) = true) as H
      by (apply (opposite_signs_kept (f a)); assumption).
    split; [exact H | now apply product_opposite].
Qed.

End Bracket.

(** C9, in double precision.  From a bracket with [f(a)*f(b) < 0], after any
    number of passes of the bisection loop the cached [fa] and [fb] are the
    values of [f] at the current endpoints; and if in each of these passes the
    product [fa*fc] that the code tests was a nonzero number (not NaN, not
    underflowed to zero, [f(c)] not zero), then [f(a)] and [f(b)] are nonzero
    numbers of opposite signs for the current bracket, and [f(a)*f(b) <= 0]. *)
Theorem C9_bracket_invariant (f : float -> float) (a b tol : float) (idx : list Z)
  (s' : CLI.bisection_locals) :
  (f a * f b <? 0)%float = true ->
  for_each (CLI.bisection_body f tol) idx (a, b, f a, f b, None, None, []) = Continue s' ->
  bracket_kept f s'.
Proof.
  intros Hab H.
  apply (for_each_invariant (CLI.bisection_body f tol) (bracket_kept f)
           (bisection_pass_keeps_bracket f tol)
           idx (a, b, f a, f b, None, None, []) s'); [|exact H].
  cbn [bracket_kept]. split; [reflexivity|]. split; [reflexivity|]. intros _.
  apply product_negative in Hab. split; [exact Hab | now apply product_opposite].
Qed.

(** Bisection of [x^2 - 2] on [[0, 2]]: the first pass moves [a] to [1], the
    second moves [b] to [1.5]; both products [fa*fc] are nonzero numbers. *)
Lemma C9_bracket_invariant_witness :
  bracket_kept f_sq2
    (1%float, 1.5%float, (-1)%float, 0.25%float, Some 1.5%float, Some 0.25%float,
     [[Int 1; Num 0%float; Num 2%float; Num 1%float; Num (-1)%float; Num 1%float];
      [Int 2; Num 1%float; Num 2%float; Num 1.5%float; Num 0.25%float; Num 0.5%float]]) /\
  forallb (product_is_number f_sq2)
    [[Int 1; Num 0%float; Num 2%float; Num 1%float; Num (-1)%float; Num 1%float];
     [Int 2; Num 1%float; Num 2%float; Num 1.5%float; Num 0.25%float; Num 0.5%float]] = true.
Proof.
  split.
  - apply (C9_bracket_invariant f_sq2 0%float 2%float tol_1e6 (range 1 3)).
    + vm_compute. reflexivity.
    + vm_compute. reflexivity.
  - vm_compute. reflexivity.
Defined.

(** C9 fails in double precision: for [f(x) = x**300 - 1e-300] on [[0, 1]]
    with the tolerance [1e-100], [f(0)*f(1) < 0], the first pass computes
    [c = 0.5] and [fc = 2**-300], the product [fa*fc] underflows to [-0.0],
    which is not [< 0], so [a] moves to [c]: the new bracket [[0.5, 1]] has
    [f(a)*f(b) > 0] and no longer holds the root [0.1].
    It also fails with the tolerance [0], which the code accepts: for
    [f(x) = x - 1] on [[0, 2]] the first pass finds [fc = 0] at [c = 1] and moves
    [a] there, and the second pass moves [a] to [1.5]: the bracket [[1.5, 2]]
    has [f(a)*f(b) > 0]. *)
Lemma C9_counterexample :
  (0 <? tol_1e100)%float = true /\
  (f_pow300 0 * f_pow300 1 <? 0)%float = true /\
  for_each (CLI.bisection_body f_pow300 tol_1e100) (range 1 2)
    (0%float, 1%float, f_pow300 0, f_pow300 1, None, None, []) =
    Continue (0.5%float, 1%float, 0x1p-300%float, 1%float,
              Some 0.5%float, Some 0x1p-300%float,
              [[Int 1; Num 0%float; Num 1%float; Num 0.5%float; Num 0x1p-300%float;
                Num 0.5%float]]) /\
  (f_pow300 0.5 * f_pow300 1 <=? 0)%float = false /\
  (f_x1 0 * f_x1 2 <? 0)%float = true /\
  for_each (CLI.bisection_body f_x1 0%float) (range 1 3)
    (0%float, 2%float, f_x1 0, f_x1 2, None, None, []) =
    Continue (1.5%float, 2%float, 0.5%float, 1%float,
              Some 1.5%float, Some 0.5%float,
              [[Int 1; Num 0%float; Num 2%float; Num 1%float; Num 0%float; Num 1%float];
               [Int 2; Num 1%float; Num 2%float; Num 1.5%float; Num 0.5%float;
                Num 0.5%float]]) /\
  (f_x1 1.5 * f_x1 2 <=? 0)%float = false.
Proof. repeat split; vm_compute; reflexivity. Qed.

(** * Further properties of the methods *)

(** ** What a returned result looks like *)

Lemma recorded_index {T : Type} {N : PyNum T} (c : CLI.call T) (i : Z) (r : CLI.row T) :
  CLI.recorded c i r -> row_index r = Some i /\ CLI.estimate c r <> None.
Proof.
  destruct c; simpl.
  - intros (a0 & b0 & ->). split; [reflexivity|discriminate].
  - intros (a0 & b0 & fa & fb & _ & ->). split; [reflexivity|discriminate].
  - intros (y0 & y1 & _ & ->). split; [reflexivity|discriminate].
  - intros (y & _ & ->). split; [reflexivity|discriminate].
  - intros (y & ->). split; [reflexivity|discriminate].
  - intros (y & _ & ->). split; [reflexivity|discriminate].
Qed.

(** X1.  A result that any of the six methods returns has between [1] and
    [max_iter] iterations and exactly [iters] rows, and the row at position [k]
    (from [0]) is the one pass [k + 1] wrote: it starts with the index [k + 1]. *)
Theorem X1_result_shape {T : Type} {N : PyNum T}
  (c : CLI.call T) (max_iter : Z) (tol root err : T) (iters : Z) (rows : list (CLI.row T)) :
  CLI.run_method c max_iter tol = Return root err iters rows ->
  1 <= iters <= max_iter /\
  length rows = Z.to_nat iters /\
  forall k r, nth_error rows k = Some r ->
    row_index r = Some (Z.of_nat k + 1) /\ CLI.recorded c (Z.of_nat k + 1) r.
Proof.
  intros E. generalize (run_method_outcome c max_iter tol). rewrite E.
  destruct (CLI.bracket_rejected c); [intros [msg H]; discriminate|].
  simpl. intros (Hi & Hwf & _). split; [exact Hi|]. split.
  - apply Forall2_length in Hwf. rewrite range_length in Hwf. lia.
  - intros k r Hk. apply (Forall2_range_nth _ _ _ _ _ _ Hwf) in Hk.
    rewrite Z.add_comm. split; [apply (recorded_index c), Hk | exact Hk].
Qed.

Lemma X1_result_shape_witness :
  1 <= 1 <= 1 /\
  length [[Int 1; Num 0%float; Num 1%float; Num 0.5%float; Num 0.5%float; Num 0.5%float]] =
    Z.to_nat 1 /\
  forall k r,
    nth_error [[Int 1; Num 0%float; Num 1%float; Num 0.5%float; Num 0.5%float; Num 0.5%float]] k
      = Some r ->
    row_index r = Some (Z.of_nat k + 1) /\
    CLI.recorded (CLI.Bisection f_x 0%float 1%float) (Z.of_nat k + 1) r.
Proof.
  apply (X1_result_shape (CLI.Bisection f_x 0%float 1%float) 1 tol_1e6 0.5%float 0.5%float 1).
  vm_compute. reflexivity.
Defined.

(** X2.  The loop stops at the first pass whose row meets the convergence
    test: in a returned result every row but the last fails the test, the
    returned pair is read off the last row, and the last row meets the test
    whenever the result came before pass [max_iter]. *)
Theorem X2_first_convergence {T : Type} {N : PyNum T}
  (c : CLI.call T) (max_iter : Z) (tol root err : T) (iters : Z) (rows : list (CLI.row T)) :
  CLI.run_method c max_iter tol = Return root err iters rows ->
  exists before last,
    rows = before ++ [last] /\
    Forall (fun r => CLI.converged c tol r = false) before /\
    CLI.estimate c last = Some (root, err) /\
    (iters < max_iter -> CLI.converged c tol last = true).
Proof.
  intros E. generalize (run_method_outcome c max_iter tol). rewrite E.
  destruct (CLI.bracket_rejected c); [intros [msg H]; discriminate|].
  simpl. intros (Hi & _ & new & r & -> & Hnc & He & Hc).
  exists new, r. repeat split; auto.
  intros Hlt. destruct Hc as [Hc|[_ Hc]]; [exact Hc|lia].
Qed.

(** Bisection of [x - 1] on [[0, 4]] with the bound 50: the first row fails
    the test, the second finds [f(1) = 0] and the call returns after two
    passes. *)
Lemma X2_first_convergence_witness :
  exists before last,
    [[Int 1; Num 0%float; Num 4%float; Num 2%float; Num 1%float; Num 2%float];
     [Int 2; Num 0%float; Num 2%float; Num 1%float; Num 0%float; Num 1%float]] =
      before ++ [last] /\
    Forall (fun r => CLI.converged (CLI.Bisection f_x1 0%float 4%float) tol_1e6 r = false) before /\
    CLI.estimate (CLI.Bisection f_x1 0%float 4%float) last = Some (1%float, 0%float) /\
    (2 < 50 -> CLI.converged (CLI.Bisection f_x1 0%float 4%float) tol_1e6 last = true).
Proof.
  apply (X2_first_convergence (CLI.Bisection f_x1 0%float 4%float) 50 tol_1e6 1%float 0%float 2).
  vm_compute. reflexivity.
Defined.

(** X3.  With evaluators that return a value at every point (an evaluator
    that raises is not covered: its exception leaves the method as it is), the
    only [ZeroDivisionError] a call can end in is the one of its method:
    bisection and fixed point iteration have none; the secant,
    Newton-Raphson and modified secant methods raise only the error of their
    own zero test, so that their division never raises Python's
    "float division by zero"; regula falsi raises only that one.  It is raised
    by a pass, after fewer than [max_iter] rows, none of which met the
    convergence test. *)
Theorem X3_zero_division_only {T : Type} {N : PyNum T}
  (c : CLI.call T) (max_iter : Z) (tol : T) (e : exn T) (rows : list (CLI.row T)) :
  CLI.run_method c max_iter tol = Raise e rows ->
  class_of e = ZeroDivisionError_class ->
  CLI.zero_division c e /\
  (length rows < Z.to_nat max_iter)%nat /\
  Forall (fun r => CLI.converged c tol r = false) rows.
Proof.
  intros E Hc. generalize (run_method_outcome c max_iter tol). rewrite E.
  destruct (CLI.bracket_rejected c).
  - intros [msg H]. inversion H; subst. discriminate.
  - simpl. intros [Hnc [[[name ->] _]|[Hb (i & Hi & Hwf)]]]; [discriminate|].
    split; [exact Hb|]. split; [|exact Hnc].
    apply Forall2_length in Hwf. rewrite range_length in Hwf. lia.
Qed.

Lemma X3_zero_division_only_witness :
  CLI.zero_division (CLI.Secant f_sq1 1%float (-1)%float)
    (ZeroDivisionError "Zero denominator in Secant method." []) /\
  (length (@nil (CLI.row float)) < Z.to_nat 5)%nat /\
  Forall (fun r => CLI.converged (CLI.Secant f_sq1 1%float (-1)%float) tol_1e6 r = false) [].
Proof.
  apply (X3_zero_division_only (CLI.Secant f_sq1 1%float (-1)%float) 5 tol_1e6).
  - vm_compute. reflexivity.
  - reflexivity.
Defined.

(** ** The passes compute the recurrence of the method *)

Lemma range_first (lo hi : Z) : lo < hi -> range lo hi = lo :: range (lo + 1) hi.
Proof.
  intros H. unfold range.
  replace (Z.to_nat (hi - lo)) with (S (Z.to_nat (hi - (lo + 1)))) by lia.
  simpl. f_equal; [lia|].
  rewrite <- (seq_shift _ 0), map_map. apply map_ext. intros k. lia.
Qed.

(** A property of the locals that depends on the index of the pass. *)
Lemma for_each_range {S R : Type} (body : Z -> S -> flow S R) (P : Z -> S -> Prop)
  (hi : Z) :
  (forall i s s', i < hi -> P i s -> body i s = Continue s' -> P (i + 1) s') ->
  forall (n : nat) (lo : Z) (s : S),
    n = Z.to_nat (hi - lo) -> lo <= hi -> P lo s ->
    match for_each body (range lo hi) s with
    | Continue s' => P hi s'
    | Leave r => exists i s1, lo <= i < hi /\ P i s1 /\ body i s1 = Leave r
    end.
Proof.
  intros Hstep. induction n as [|n IH]; intros lo s Hn Hle Hs.
  - assert (lo = hi) as -> by lia. unfold range. rewrite Z.sub_diag. simpl. exact Hs.
  - rewrite range_first by lia. simpl.
    destruct (body lo s) as [s1|r] eqn:E.
    + assert (P (lo + 1) s1) as H1 by (apply (Hstep lo s); [lia|assumption..]).
      specialize (IH (lo + 1) s1 ltac:(lia) ltac:(lia) H1).
      destruct (for_each body (range (lo + 1) hi) s1); [exact IH|].
      destruct IH as (i & s2 & Hi & H2 & H3). exists i, s2. split; [lia|auto].
    + exists lo, s. split; [lia|auto].
Qed.

Lemma iterates_next {A : Type} (step : A -> A) (x : A) (i : Z) :
  1 <= i -> iterates step x (i + 1 - 1) = step (iterates step x (i - 1)).
Proof.
  intros H. unfold iterates.
  replace (Z.to_nat (i + 1 - 1)) with (S (Z.to_nat (i - 1))) by lia. reflexivity.
Qed.

Lemma map_range_snoc {A : Type} (row : Z -> A) (i : Z) :
  1 <= i -> map row (range 1 i) ++ [row i] = map row (range 1 (i + 1)).
Proof. intros H. rewrite range_snoc by exact H. now rewrite map_app. Qed.

Lemma iterates_last {A : Type} (step : A -> A) (x : A) (i : Z) :
  1 <= i -> iterates step x i = step (iterates step x (i - 1)).
Proof.
  intros H. rewrite <- (iterates_next step x i H). f_equal. lia.
Qed.

(** The last row of a returned result is the last row of its trace. *)
Lemma trace_last_row {A : Type} (row : Z -> A) (iters : Z) (new : list A) (r : A) :
  1 <= iters -> new ++ [r] = map row (range 1 (iters + 1)) -> r = row iters.
Proof.
  intros H E. rewrite <- map_range_snoc in E by exact H.
  apply app_inj_tail in E. apply E.
Qed.

Section Traces.
Context {T : Type} {N : PyNum T}.
Import CLI.

Lemma fixed_point_loop_trace (g : T -> T) (x0 tol : T) (max_iter : Z) :
  match for_each (fixed_point_body g tol) (range 1 (max_iter + 1)) (x0, None, None, []) with
  | Continue s' => fixed_point_rows s' = map (fixed_point_row g x0) (range 1 (max_iter + 1))
  | Leave (Return _ _ iters rows) => rows = map (fixed_point_row g x0) (range 1 (iters + 1))
  | Leave (Raise _ _) => True
  end.
Proof.
  destruct (Z.lt_ge_cases max_iter 0) as [Hneg|Hpos].
  { unfold range. replace (Z.to_nat (max_iter + 1 - 1)) with O by lia. reflexivity. }
  generalize (for_each_range (fixed_point_body g tol)
    (fun i s => 1 <= i /\ let '(x, _, _, rows) := s in
                x = iterates g x0 (i - 1) /\ rows = map (fixed_point_row g x0) (range 1 i))
    (max_iter + 1)).
  intros H.
  specialize (H ltac:(
    intros i [[[x xn] er] rows] s' _ [Hi [-> ->]]; unfold fixed_point_body;
    destruct (nlt _ _); [discriminate|]; intros E; inversion E; subst;
    split; [lia|]; split; [now rewrite iterates_next | now rewrite <- map_range_snoc])
    (Z.to_nat (max_iter + 1 - 1)) 1 (x0, None, None, []) eq_refl ltac:(lia)
    ltac:(split; [lia|split; reflexivity])).
  destruct (for_each _ _ _) as [[[[x xn] er] rows]|o].
  - apply H.
  - destruct H as (i & [[[x xn] er] rows] & Hi & [_ [-> ->]] & Hb).
    unfold fixed_point_body in Hb. destruct (nlt _ _); [|discriminate].
    inversion Hb; subst. now rewrite <- map_range_snoc by lia.
Qed.

Lemma newton_loop_trace (df f : T -> T) (x0 tol : T) (max_iter : Z) :
  match for_each (newton_body df f tol) (range 1 (max_iter + 1)) (x0, None, []) with
  | Continue s' => newton_rows s' = map (newton_row df f x0) (range 1 (max_iter + 1))
  | Leave (Return _ _ iters rows) => rows = map (newton_row df f x0) (range 1 (iters + 1))
  | Leave (Raise _ _) => True
  end.
Proof.
  destruct (Z.lt_ge_cases max_iter 0) as [Hneg|Hpos].
  { unfold range. replace (Z.to_nat (max_iter + 1 - 1)) with O by lia. reflexivity. }
  generalize (for_each_range (newton_body df f tol)
    (fun i s => 1 <= i /\ let '(x, _, rows) := s in
                x = iterates (newton_step df f) x0 (i - 1) /\
                rows = map (newton_row df f x0) (range 1 i))
    (max_iter + 1)).
  intros H.
  specialize (H ltac:(
    intros i [[x fx] rows] s' _ [Hi [-> ->]]; unfold newton_body, pydiv;
    destruct (neq _ _); [discriminate|]; destruct (nlt _ _ || nlt _ _); [discriminate|];
    intros E; inversion E; subst;
    split; [lia|]; split; [now rewrite iterates_next | now rewrite <- map_range_snoc])
    (Z.to_nat (max_iter + 1 - 1)) 1 (x0, None, []) eq_refl ltac:(lia)
    ltac:(split; [lia|split; reflexivity])).
  destruct (for_each _ _ _) as [[[x fx] rows]|o].
  - apply H.
  - destruct H as (i & [[x fx] rows] & Hi & [_ [-> ->]] & Hb).
    unfold newton_body, pydiv in Hb. destruct (neq _ _); [inversion Hb; exact I|].
    destruct (nlt _ _ || nlt _ _); [|discriminate].
    inversion Hb; subst. now rewrite <- map_range_snoc by lia.
Qed.

Lemma secant_loop_trace (f : T -> T) (x0 x1 tol : T) (max_iter : Z) :
  match for_each (secant_body f tol) (range 1 (max_iter + 1)) (x0, x1, None, []) with
  | Continue s' => secant_rows s' = map (secant_row f x0 x1) (range 1 (max_iter + 1))
  | Leave (Return _ _ iters rows) => rows = map (secant_row f x0 x1) (range 1 (iters + 1))
  | Leave (Raise _ _) => True
  end.
Proof.
  destruct (Z.lt_ge_cases max_iter 0) as [Hneg|Hpos].
  { unfold range. replace (Z.to_nat (max_iter + 1 - 1)) with O by lia. reflexivity. }
  generalize (for_each_range (secant_body f tol)
    (fun i s => 1 <= i /\ let '(y0, y1, _, rows) := s in
                (y0, y1) = iterates (secant_step f) (x0, x1) (i - 1) /\
                rows = map (secant_row f x0 x1) (range 1 i))
    (max_iter + 1)).
  intros H.
  specialize (H ltac:(
    intros i [[[y0 y1] y2] rows] s' _ [Hi [Hp ->]]; unfold secant_body, pydiv;
    destruct (neq _ _); [discriminate|]; destruct (nlt _ _ || nlt _ _); [discriminate|];
    intros E; inversion E; subst;
    split; [lia|]; split;
    [rewrite iterates_next, <- Hp by lia; reflexivity
    |rewrite <- map_range_snoc by lia; f_equal; unfold secant_row; now rewrite <- Hp])
    (Z.to_nat (max_iter + 1 - 1)) 1 (x0, x1, None, []) eq_refl ltac:(lia)
    ltac:(split; [lia|split; reflexivity])).
  destruct (for_each _ _ _) as [[[[y0 y1] y2] rows]|o].
  - apply H.
  - destruct H as (i & [[[y0 y1] y2] rows] & Hi & [_ [Hp ->]] & Hb).
    unfold secant_body, pydiv in Hb. destruct (neq _ _); [inversion Hb; exact I|].
    destruct (nlt _ _ || nlt _ _); [|discriminate].
    inversion Hb; subst. rewrite <- map_range_snoc by lia.
    f_equal. unfold secant_row. now rewrite <- Hp.
Qed.

Lemma modified_secant_loop_trace (f : T -> T) (x0 delta tol : T) (max_iter : Z) :
  match for_each (modified_secant_body f delta tol) (range 1 (max_iter + 1))
          (x0, None, None, []) with
  | Continue s' =>
      modified_secant_rows s' = map (modified_secant_row f x0 delta) (range 1 (max_iter + 1))
  | Leave (Return _ _ iters rows) =>
      rows = map (modified_secant_row f x0 delta) (range 1 (iters + 1))
  | Leave (Raise _ _) => True
  end.
Proof.
  destruct (Z.lt_ge_cases max_iter 0) as [Hneg|Hpos].
  { unfold range. replace (Z.to_nat (max_iter + 1 - 1)) with O by lia. reflexivity. }
  generalize (for_each_range (modified_secant_body f delta tol)
    (fun i s => 1 <= i /\ let '(x, _, _, rows) := s in
                x = iterates (modified_secant_step f delta) x0 (i - 1) /\
                rows = map (modified_secant_row f x0 delta) (range 1 i))
    (max_iter + 1)).
  intros H.
  specialize (H ltac:(
    intros i [[[x fx] xn] rows] s' _ [Hi [-> ->]]; unfold modified_secant_body, pydiv;
    destruct (neq _ _); [discriminate|]; destruct (nlt _ _ || nlt _ _); [discriminate|];
    intros E; inversion E; subst;
    split; [lia|]; split; [now rewrite iterates_next | now rewrite <- map_range_snoc])
    (Z.to_nat (max_iter + 1 - 1)) 1 (x0, None, None, []) eq_refl ltac:(lia)
    ltac:(split; [lia|split; reflexivity])).
  destruct (for_each _ _ _) as [[[[x fx] xn] rows]|o].
  - apply H.
  - destruct H as (i & [[[x fx] xn] rows] & Hi & [_ [-> ->]] & Hb).
    unfold modified_secant_body, pydiv in Hb. destruct (neq _ _); [inversion Hb; exact I|].
    destruct (nlt _ _ || nlt _ _); [|discriminate].
    inversion Hb; subst. now rewrite <- map_range_snoc by lia.
Qed.

Lemma bisection_loop_trace (f : T -> T) (a b tol : T) (max_iter : Z) :
  match for_each (bisection_body f tol) (range 1 (max_iter + 1))
          (a, b, f a, f b, None, None, []) with
  | Continue s' => bisection_rows s' = map (bisection_row f a b) (range 1 (max_iter + 1))
  | Leave (Return _ _ iters rows) => rows = map (bisection_row f a b) (range 1 (iters + 1))
  | Leave (Raise _ _) => True
  end.
Proof.
  destruct (Z.lt_ge_cases max_iter 0) as [Hneg|Hpos].
  { unfold range. replace (Z.to_nat (max_iter + 1 - 1)) with O by lia. reflexivity. }
  generalize (for_each_range (bisection_body f tol)
    (fun i s => 1 <= i /\ let '(a', b', fa, _, _, _, rows) := s in
                fa = f a' /\
                (a', b') = iterates (bisection_step f) (a, b) (i - 1) /\
                rows = map (bisection_row f a b) (range 1 i))
    (max_iter + 1)).
  intros H.
  specialize (H ltac:(
    intros i [[[[[[a' b'] fa] fb] c] fc] rows] s' _ [Hi [-> [Hp ->]]];
    unfold bisection_body;
    destruct (nlt _ _ || nlt _ _); [discriminate|];
    destruct (nlt (nmul (f a') _) nzero) eqn:Hs; intros E; inversion E; subst;
    (split; [lia|]); (split; [reflexivity|]); split;
    [rewrite iterates_next, <- Hp by lia; unfold bisection_step; now rewrite Hs
    |rewrite <- map_range_snoc by lia; f_equal; unfold bisection_row; now rewrite <- Hp
    |rewrite iterates_next, <- Hp by lia; unfold bisection_step; now rewrite Hs
    |rewrite <- map_range_snoc by lia; f_equal; unfold bisection_row; now rewrite <- Hp])
    (Z.to_nat (max_iter + 1 - 1)) 1 (a, b, f a, f b, None, None, []) eq_refl ltac:(lia)
    ltac:(split; [lia|repeat split; reflexivity])).
  destruct (for_each _ _ _) as [[[[[[[a' b'] fa] fb] c] fc] rows]|o].
  - apply H.
  - destruct H as (i & [[[[[[a' b'] fa] fb] c] fc] rows] & Hi & [_ [-> [Hp ->]]] & Hb).
    unfold bisection_body in Hb.
    destruct (nlt _ _ || nlt _ _);
      [|destruct (nlt (nmul (f a') _) nzero); discriminate].
    inversion Hb; subst. rewrite <- map_range_snoc by lia.
    f_equal. unfold bisection_row. now rewrite <- Hp.
Qed.

End Traces.

(** X8.  Fixed point iteration computes the iterates of [g]: when it returns
    after [iters] passes, row [k] holds [g^(k-1)(x0)], [g^k(x0)] and the step
    between them, the root estimate is [g^iters(x0)] and the final error is the
    size of the last step. *)
Theorem X8_fixed_point_trace {T : Type} {N : PyNum T}
  (g : T -> T) (x0 : T) (max_iter : Z) (tol root err : T) (iters : Z)
  (rows : list (CLI.row T)) :
  CLI.fixed_point_iteration g x0 max_iter tol = Return root err iters rows ->
  rows = map (fixed_point_row g x0) (range 1 (iters + 1)) /\
  root = iterates g x0 iters /\
  err = nabs (nsub root (iterates g x0 (iters - 1))).
Proof.
  intros E.
  generalize (run_method_outcome (CLI.FixedPoint g x0) max_iter tol). simpl.
  rewrite E. simpl. intros (Hi & _ & new & r & Hrows & _ & He & _).
  assert (rows = map (fixed_point_row g x0) (range 1 (iters + 1))) as Ht.
  { generalize (fixed_point_loop_trace g x0 tol max_iter). revert E.
    unfold CLI.fixed_point_iteration. cbv zeta.
    destruct (for_each _ _ _) as [[[[x xn] er] rows']|o].
    - destruct xn, er; intros E; inversion E; subst. simpl. auto.
    - intros ->. auto. }
  split; [exact Ht|].
  rewrite Hrows in Ht. apply trace_last_row in Ht; [|lia]. subst r.
  unfold fixed_point_row in He. simpl in He. inversion He; subst.
  rewrite (iterates_last g x0 iters) by lia. auto.
Qed.

Lemma X8_fixed_point_trace_witness :
  [[Int 1; Num 1%float; Num 2%float; Num 1%float];
   [Int 2; Num 2%float; Num 4%float; Num 2%float]] =
    map (fixed_point_row g_2x 1%float) (range 1 (2 + 1)) /\
  4%float = iterates g_2x 1%float 2 /\
  2%float = nabs (nsub 4%float (iterates g_2x 1%float (2 - 1))).
Proof.
  apply (X8_fixed_point_trace g_2x 1%float 2 (-1)%float 4%float 2%float 2).
  vm_compute. reflexivity.
Defined.

Lemma range_In (lo hi k : Z) : lo <= k < hi -> In k (range lo hi).
Proof.
  intros H. unfold range. apply in_map_iff. exists (Z.to_nat (k - lo)).
  split; [lia|]. apply in_seq. lia.
Qed.

Lemma Forall2_map_self {A B : Type} (R : A -> B -> Prop) (g : A -> B) (l : list A) :
  Forall2 R l (map g l) -> forall x, In x l -> R x (g x).
Proof.
  induction l as [|y l IH]; simpl; intros H x Hx; [contradiction|].
  inversion H; subst. destruct Hx as [<-|Hx]; auto.
Qed.

(** X9.  Newton-Raphson computes the Newton iterates
    [x <- x - f(x)/df(x)]: when it returns after [iters] passes, row [k] is the
    row of the iterate number [k - 1], the root estimate is the iterate number
    [iters], the final error is [abs(f(x))] at the iterate before it, and the
    derivative was not zero at any iterate a pass started from. *)
Theorem X9_newton_trace {T : Type} {N : PyNum T}
  (df f : T -> T) (x0 : T) (max_iter : Z) (tol root err : T) (iters : Z)
  (rows : list (CLI.row T)) :
  CLI.newton_raphson df f x0 max_iter tol = Return root err iters rows ->
  rows = map (newton_row df f x0) (range 1 (iters + 1)) /\
  root = iterates (newton_step df f) x0 iters /\
  err = nabs (f (iterates (newton_step df f) x0 (iters - 1))) /\
  forall k, 1 <= k <= iters ->
    neq (df (iterates (newton_step df f) x0 (k - 1))) nzero = false.
Proof.
  intros E.
  generalize (run_method_outcome (CLI.NewtonRaphson df f x0) max_iter tol). simpl.
  rewrite E. simpl. intros (Hi & Hwf & new & r & Hrows & _ & He & _).
  assert (rows = map (newton_row df f x0) (range 1 (iters + 1))) as Ht.
  { generalize (newton_loop_trace df f x0 tol max_iter). revert E.
    unfold CLI.newton_raphson. cbv zeta.
    destruct (for_each _ _ _) as [[[x fx] rows']|o].
    - destruct fx; intros E; inversion E; subst. simpl. auto.
    - intros ->. auto. }
  split; [exact Ht|]. split; [|split].
  - rewrite Hrows in Ht. apply trace_last_row in Ht; [|lia]. subst r.
    unfold newton_row in He. simpl in He. inversion He; subst.
    now rewrite (iterates_last _ x0 iters) by lia.
  - rewrite Hrows in Ht. apply trace_last_row in Ht; [|lia]. subst r.
    unfold newton_row in He. simpl in He. now inversion He.
  - intros k Hk. rewrite Ht in Hwf.
    assert (In k (range 1 (iters + 1))) as Hin by (apply range_In; lia).
    apply (Forall2_map_self _ _ _ Hwf k) in Hin.
    destruct Hin as (x & Hx & Er). unfold newton_row in Er. cbv zeta in Er.
    congruence.
Qed.

Lemma X9_newton_trace_witness :
  [[Int 1; Num 1%float; Num 2%float; Num 2%float; Num 0%float; Num 1%float]] =
    map (newton_row df_2x f_2x 1%float) (range 1 (1 + 1)) /\
  0%float = iterates (newton_step df_2x f_2x) 1%float 1 /\
  2%float = nabs (f_2x (iterates (newton_step df_2x f_2x) 1%float (1 - 1))) /\
  forall k, 1 <= k <= 1 ->
    neq (df_2x (iterates (newton_step df_2x f_2x) 1%float (k - 1))) nzero = false.
Proof.
  apply (X9_newton_trace df_2x f_2x 1%float 1 tol_1e6 0%float 2%float 1).
  vm_compute. reflexivity.
Defined.

(** X10.  The secant method computes the secant recurrence on pairs,
    [(x0, x1) <- (x1, x2)] with [x2 = x1 - f(x1)*(x1 - x0)/(f(x1) - f(x0))]:
    when it returns after [iters] passes, row [k] is the row of the pair number
    [k - 1], the root estimate is the second component of the pair number
    [iters], the final error is [abs(f(root))], and no pass started from a pair
    with [f(x1) - f(x0) == 0]. *)
Theorem X10_secant_trace {T : Type} {N : PyNum T}
  (f : T -> T) (x0 x1 : T) (max_iter : Z) (tol root err : T) (iters : Z)
  (rows : list (CLI.row T)) :
  CLI.secant_method f x0 x1 max_iter tol = Return root err iters rows ->
  rows = map (secant_row f x0 x1) (range 1 (iters + 1)) /\
  root = snd (iterates (secant_step f) (x0, x1) iters) /\
  err = nabs (f root) /\
  forall k, 1 <= k <= iters ->
    let p := iterates (secant_step f) (x0, x1) (k - 1) in
    neq (nsub (f (snd p)) (f (fst p))) nzero = false.
Proof.
  intros E.
  generalize (run_method_outcome (CLI.Secant f x0 x1) max_iter tol). simpl.
  rewrite E. simpl. intros (Hi & Hwf & new & r & Hrows & _ & He & _).
  assert (rows = map (secant_row f x0 x1) (range 1 (iters + 1))) as Ht.
  { generalize (secant_loop_trace f x0 x1 tol max_iter). revert E.
    unfold CLI.secant_method. cbv zeta.
    destruct (for_each _ _ _) as [[[[y0 y1] y2] rows']|o].
    - destruct y2; intros E; inversion E; subst. simpl. auto.
    - intros ->. auto. }
  split; [exact Ht|].
  assert (root = snd (iterates (secant_step f) (x0, x1) iters) /\ err = nabs (f root))
    as [Hr Herr].
  { rewrite Hrows in Ht. apply trace_last_row in Ht; [|lia]. subst r.
    unfold secant_row in He. simpl in He. inversion He; subst.
    now rewrite (iterates_last _ (x0, x1) iters) by lia. }
  split; [exact Hr|]. split; [exact Herr|].
  intros k Hk. rewrite Ht in Hwf.
  assert (In k (range 1 (iters + 1))) as Hin by (apply range_In; lia).
  apply (Forall2_map_self _ _ _ Hwf k) in Hin.
  destruct Hin as (y0 & y1 & Hx & Er). unfold secant_row in Er. cbv zeta in Er.
  congruence.
Qed.

Lemma X10_secant_trace_witness :
  [[Int 1; Num 0%float; Num 1%float; Num 0.5%float; Num 0%float; Num 0.5%float]] =
    map (secant_row f_xh 0%float 1%float) (range 1 (1 + 1)) /\
  0.5%float = snd (iterates (secant_step f_xh) (0%float, 1%float) 1) /\
  0%float = nabs (f_xh 0.5%float) /\
  forall k, 1 <= k <= 1 ->
    let p := iterates (secant_step f_xh) (0%float, 1%float) (k - 1) in
    neq (nsub (f_xh (snd p)) (f_xh (fst p))) nzero = false.
Proof.
  apply (X10_secant_trace f_xh 0%float 1%float 5 tol_1e6 0.5%float 0%float 1).
  vm_compute. reflexivity.
Defined.

(** X11.  The modified secant method computes the recurrence
    [x <- x - delta*f(x)/(f(x + delta) - f(x))]: when it returns after [iters]
    passes, row [k] is the row of the iterate number [k - 1], the root estimate
    is the iterate number [iters], the final error is [abs(f(x))] at the
    iterate before it, and no pass started from an [x] with
    [f(x + delta) - f(x) == 0]. *)
Theorem X11_modified_secant_trace {T : Type} {N : PyNum T}
  (f : T -> T) (x0 delta : T) (max_iter : Z) (tol root err : T) (iters : Z)
  (rows : list (CLI.row T)) :
  CLI.modified_secant f x0 delta max_iter tol = Return root err iters rows ->
  rows = map (modified_secant_row f x0 delta) (range 1 (iters + 1)) /\
  root = iterates (modified_secant_step f delta) x0 iters /\
  err = nabs (f (iterates (modified_secant_step f delta) x0 (iters - 1))) /\
  forall k, 1 <= k <= iters ->
    let x := iterates (modified_secant_step f delta) x0 (k - 1) in
    neq (nsub (f (nadd x delta)) (f x)) nzero = false.
Proof.
  intros E.
  generalize (run_method_outcome (CLI.ModifiedSecant f x0 delta) max_iter tol). simpl.
  rewrite E. simpl. intros (Hi & Hwf & new & r & Hrows & _ & He & _).
  assert (rows = map (modified_secant_row f x0 delta) (range 1 (iters + 1))) as Ht.
  { generalize (modified_secant_loop_trace f x0 delta tol max_iter). revert E.
    unfold CLI.modified_secant. cbv zeta.
    destruct (for_each _ _ _) as [[[[x fx] xn] rows']|o].
    - destruct xn, fx; intros E; inversion E; subst. simpl. auto.
    - intros ->. auto. }
  split; [exact Ht|]. split; [|split].
  - rewrite Hrows in Ht. apply trace_last_row in Ht; [|lia]. subst r.
    unfold modified_secant_row in He. simpl in He. inversion He; subst.
    now rewrite (iterates_last _ x0 iters) by lia.
  - rewrite Hrows in Ht. apply trace_last_row in Ht; [|lia]. subst r.
    unfold modified_secant_row in He. simpl in He. now inversion He.
  - intros k Hk. rewrite Ht in Hwf.
    assert (In k (range 1 (iters + 1))) as Hin by (apply range_In; lia).
    apply (Forall2_map_self _ _ _ Hwf k) in Hin.
    destruct Hin as (y & Hx & Er). unfold modified_secant_row in Er. cbv zeta in Er.
    congruence.
Qed.

Lemma X11_modified_secant_trace_witness :
  [[Int 1; Num 0%float; Num (-0.5)%float; Num 0.5%float; Num 0.5%float]] =
    map (modified_secant_row f_xh 0%float 1%float) (range 1 (1 + 1)) /\
  0.5%float = iterates (modified_secant_step f_xh 1%float) 0%float 1 /\
  0.5%float = nabs (f_xh (iterates (modified_secant_step f_xh 1%float) 0%float (1 - 1))) /\
  forall k, 1 <= k <= 1 ->
    let x := iterates (modified_secant_step f_xh 1%float) 0%float (k - 1) in
    neq (nsub (f_xh (nadd x 1%float)) (f_xh x)) nzero = false.
Proof.
  apply (X11_modified_secant_trace f_xh 0%float 1%float 1 tol_1e6 0.5%float 0.5%float 1).
  vm_compute. reflexivity.
Defined.

(** X12.  Bisection computes the bisection recurrence on brackets, from
    [[a, b]] to [[a, c]] when [f(a)*f(c) < 0] and to [[c, b]] otherwise, with
    [c = (a + b)/2.0]: when it returns after [iters] passes, row [k] is the row
    of the bracket number [k - 1], the root estimate is the midpoint of the
    bracket number [iters - 1], and the final error is [abs(f(root))]. *)
Theorem X12_bisection_trace {T : Type} {N : PyNum T}
  (f : T -> T) (a b : T) (max_iter : Z) (tol root err : T) (iters : Z)
  (rows : list (CLI.row T)) :
  CLI.bisection_method f a b max_iter tol = Return root err iters rows ->
  rows = map (bisection_row f a b) (range 1 (iters + 1)) /\
  (let p := iterates (bisection_step f) (a, b) (iters - 1) in
   root = nquot (nadd (fst p) (snd p)) ntwo) /\
  err = nabs (f root).
Proof.
  intros E.
  generalize (run_method_outcome (CLI.Bisection f a b) max_iter tol).
  cbn [CLI.bracket_rejected CLI.run_method]. rewrite E.
  destruct (nlt nzero (nmul (f a) (f b))) eqn:G; [intros [msg H]; discriminate|].
  simpl. intros (Hi & Hwf & new & r & Hrows & _ & He & _).
  assert (rows = map (bisection_row f a b) (range 1 (iters + 1))) as Ht.
  { generalize (bisection_loop_trace f a b tol max_iter). revert E.
    unfold CLI.bisection_method. rewrite G. cbv zeta.
    destruct (for_each _ _ _) as [[[[[[[a' b'] fa] fb] c] fc] rows']|o].
    - destruct c, fc; intros E; inversion E; subst. simpl. auto.
    - intros ->. auto. }
  split; [exact Ht|].
  rewrite Hrows in Ht. apply trace_last_row in Ht; [|lia]. subst r.
  unfold bisection_row in He. simpl in He. inversion He; subst. auto.
Qed.

Lemma X12_bisection_trace_witness :
  [[Int 1; Num 0%float; Num 2%float; Num 1%float; Num (-1)%float; Num 1%float];
   [Int 2; Num 1%float; Num 2%float; Num 1.5%float; Num 0.25%float; Num 0.5%float]] =
    map (bisection_row f_sq2 0%float 2%float) (range 1 (2 + 1)) /\
  (let p := iterates (bisection_step f_sq2) (0%float, 2%float) (2 - 1) in
   1.5%float = nquot (nadd (fst p) (snd p)) ntwo) /\
  0.25%float = nabs (f_sq2 1.5%float).
Proof.
  apply (X12_bisection_trace f_sq2 0%float 2%float 2 tol_1e6 1.5%float 0.25%float 2).
  vm_compute. reflexivity.
Defined.

(** ** The zero tests of the other methods *)

(** X4.  Whenever a pass of Newton-Raphson starts from an [x] with
    [df(x) == 0], the call raises its [ZeroDivisionError], whose message is
    formatted with that [x], and returns no result; the rows are those of the
    passes before, none for the first pass. *)
Theorem X4_newton_zero_derivative {T : Type} {N : PyNum T}
  (df f : T -> T) (x0 : T) (max_iter : Z) (tol : T)
  (idx1 idx2 : list Z) (i : Z) (x : T) (fx : option T) (rows' : list (CLI.row T)) :
  range 1 (max_iter + 1) = idx1 ++ i :: idx2 ->
  for_each (CLI.newton_body df f tol) idx1 (x0, None, []) = Continue (x, fx, rows') ->
  neq (df x) nzero = true ->
  CLI.newton_raphson df f x0 max_iter tol =
    Raise (ZeroDivisionError "Zero derivative at x = {:.6g}" [x]) rows' /\
  length rows' = length idx1.
Proof.
  intros Hidx Hpre Hzero. split.
  - unfold CLI.newton_raphson. cbv zeta. rewrite Hidx, for_each_app, Hpre. simpl.
    unfold CLI.newton_body. now rewrite Hzero.
  - destruct (loop_continue _ _ _ _ _ _ _ (newton_pass df f x0 tol) _ _ _ Hpre)
      as (new & Hrows & Hwf & _).
    simpl in Hrows. subst rows'. apply Forall2_length in Hwf. now rewrite Hwf.
Qed.

(** [f(x) = x**2 - 2] from [x0 = 0], where the derivative [2*x] is zero. *)
Lemma X4_newton_zero_derivative_witness :
  CLI.newton_raphson f_2x f_sq2 0%float 50 tol_1e6 =
    Raise (ZeroDivisionError "Zero derivative at x = {:.6g}" [0%float]) [] /\
  length (@nil (CLI.row float)) = length (@nil Z).
Proof.
  apply (X4_newton_zero_derivative f_2x f_sq2 0%float 50 tol_1e6
           [] (range 2 51) 1 0%float None []); reflexivity.
Defined.

(** X5.  Whenever a pass of the modified secant method starts from an [x]
    with [f(x + delta) - f(x) == 0], the call raises its [ZeroDivisionError]
    and returns no result; the rows are those of the passes before. *)
Theorem X5_modified_secant_zero_denominator {T : Type} {N : PyNum T}
  (f : T -> T) (x0 delta : T) (max_iter : Z) (tol : T)
  (idx1 idx2 : list Z) (i : Z) (x : T) (f_x x_new : option T) (rows' : list (CLI.row T)) :
  range 1 (max_iter + 1) = idx1 ++ i :: idx2 ->
  for_each (CLI.modified_secant_body f delta tol) idx1 (x0, None, None, []) =
    Continue (x, f_x, x_new, rows') ->
  neq (nsub (f (nadd x delta)) (f x)) nzero = true ->
  CLI.modified_secant f x0 delta max_iter tol =
    Raise (ZeroDivisionError "Zero denominator in Modified Secant." []) rows' /\
  length rows' = length idx1.
Proof.
  intros Hidx Hpre Hzero. split.
  - unfold CLI.modified_secant. cbv zeta. rewrite Hidx, for_each_app, Hpre. simpl.
    unfold CLI.modified_secant_body. now rewrite Hzero.
  - destruct (loop_continue _ _ _ _ _ _ _ (modified_secant_pass f x0 delta tol) _ _ _ Hpre)
      as (new & Hrows & Hwf & _).
    simpl in Hrows. subst rows'. apply Forall2_length in Hwf. now rewrite Hwf.
Qed.

(** [f(x) = x**2 - 1] from [x0 = -1] with [delta = 2]: [f(1) = f(-1)]. *)
Lemma X5_modified_secant_zero_denominator_witness :
  CLI.modified_secant f_sq1 (-1)%float 2%float 50 tol_1e6 =
    Raise (ZeroDivisionError "Zero denominator in Modified Secant." []) [] /\
  length (@nil (CLI.row float)) = length (@nil Z).
Proof.
  apply (X5_modified_secant_zero_denominator f_sq1 (-1)%float 2%float 50 tol_1e6
           [] (range 2 51) 1 (-1)%float None None []); reflexivity.
Defined.

(** X6.  Regula falsi has no zero test: whenever a pass starts with cached
    values for which [fb - fa == 0], the division raises Python's
    "float division by zero" and the call returns no result.  This is what
    happens in the first pass when both endpoints are roots, which the entry
    test accepts. *)
Theorem X6_regula_falsi_division_by_zero {T : Type} {N : PyNum T}
  (f : T -> T) (a b : T) (max_iter : Z) (tol : T)
  (idx1 idx2 : list Z) (i : Z) (a' b' fa fb c : T) (fc : option T)
  (rows' : list (CLI.row T)) :
  nlt nzero (nmul (f a) (f b)) = false ->
  range 1 (max_iter + 1) = idx1 ++ i :: idx2 ->
  for_each (CLI.regula_falsi_body f tol) idx1 (a, b, f a, f b, a, None, []) =
    Continue (a', b', fa, fb, c, fc, rows') ->
  neq (nsub fb fa) nzero = true ->
  CLI.regula_falsi f a b max_iter tol =
    Raise (ZeroDivisionError "float division by zero" []) rows' /\
  length rows' = length idx1.
Proof.
  intros Hg Hidx Hpre Hzero. split.
  - unfold CLI.regula_falsi. cbv zeta. rewrite Hg, Hidx, for_each_app, Hpre. simpl.
    unfold CLI.regula_falsi_body, pydiv. now rewrite Hzero.
  - destruct (loop_continue _ _ _ _ _ _ _ (regula_falsi_pass f a b tol) _ _ _ Hpre)
      as (new & Hrows & Hwf & _).
    simpl in Hrows. subst rows'. apply Forall2_length in Hwf. now rewrite Hwf.
Qed.

(** [f(x) = x**2 - 1] on [[-1, 1]]: both endpoints are roots. *)
Lemma X6_regula_falsi_division_by_zero_witness :
  CLI.regula_falsi f_sq1 (-1)%float 1%float 50 tol_1e6 =
    Raise (ZeroDivisionError "float division by zero" []) [] /\
  length (@nil (CLI.row float)) = length (@nil Z).
Proof.
  apply (X6_regula_falsi_division_by_zero f_sq1 (-1)%float 1%float 50 tol_1e6
           [] (range 2 51) 1 (-1)%float 1%float (f_sq1 (-1)) (f_sq1 1) (-1)%float None []);
    reflexivity.
Defined.

(** ** The final error of regula falsi and fixed point iteration *)

(** X16.  For regula falsi and for fixed point iteration the final error that
    is returned is the error metric of the last row. *)
Theorem X16_final_error_is_metric {T : Type} {N : PyNum T}
  (c : CLI.call T) (max_iter : Z) (tol root err : T) (iters : Z) (rows : list (CLI.row T)) :
  match c with CLI.RegulaFalsi _ _ _ | CLI.FixedPoint _ _ => True | _ => False end ->
  CLI.run_method c max_iter tol = Return root err iters rows ->
  exists before last, rows = before ++ [last] /\ CLI.error_metric last = Some err.
Proof.
  intros Hc E. generalize (run_method_outcome c max_iter tol). rewrite E.
  destruct (CLI.bracket_rejected c); [intros [msg H]; discriminate|].
  cbn [solve_outcome]. intros (Hi & Hwf & new & r & -> & _ & He & _).
  apply Forall2_range_last in Hwf; [|lia].
  exists new, r. split; [reflexivity|].
  destruct c; try contradiction; simpl in Hwf.
  - destruct Hwf as (a0 & b0 & fa & fb & _ & ->). simpl in He. inversion He; subst.
    reflexivity.
  - destruct Hwf as (x & ->). simpl in He. inversion He; subst. reflexivity.
Qed.

Lemma X16_final_error_is_metric_witness :
  exists before last,
    [[Int 1; Num 1%float; Num 2%float; Num 1%float];
     [Int 2; Num 2%float; Num 4%float; Num 2%float]] = before ++ [last] /\
    CLI.error_metric last = Some 2%float.
Proof.
  apply (X16_final_error_is_metric (CLI.FixedPoint g_2x 1%float) 2 (-1)%float 4%float 2%float 2).
  - exact I.
  - vm_compute. reflexivity.
Defined.

(** ** Raising the iteration bound *)

Lemma range_empty (lo hi : Z) : hi <= lo -> range lo hi = [].
Proof. intros H. unfold range. now replace (Z.to_nat (hi - lo)) with O by lia. Qed.

Section Budget.
Context {T S Row : Type}.
Variable body : Z -> S -> flow S (outcome T Row).
Variable rows_in : S -> list Row.
Variable pending : S -> option (T * T).
Variable conv : Row -> bool.
Variable est : Row -> option (T * T).
Variable wf : Z -> Row -> Prop.
Variable bad : exn T -> Prop.

Hypothesis pass : forall i s,
  recording_pass rows_in pending conv est wf bad i s (body i s).

Variable fallthrough : Z -> S -> outcome T Row.

Hypothesis fall : forall max_iter s,
  match pending s with
  | Some (root, err) => fallthrough max_iter s = Return root err max_iter (rows_in s)
  | None => exists name, fallthrough max_iter s = Raise (UnboundLocalError name) (rows_in s)
  end.

Lemma fallthrough_rows (max_iter : Z) (s : S) :
  rows_of (fallthrough max_iter s) = rows_in s.
Proof.
  generalize (fall max_iter s). destruct (pending s) as [[root err]|].
  - now intros ->.
  - now intros [name ->].
Qed.

Lemma loop_rows_extend (idx : list Z) (s : S) (max_iter : Z) :
  exists more,
    rows_of match for_each body idx s with
            | Leave r => r
            | Continue s' => fallthrough max_iter s'
            end = rows_in s ++ more.
Proof.
  destruct (for_each body idx s) as [s'|[root err iters rows|e rows]] eqn:E.
  - destruct (loop_continue body rows_in pending conv est wf bad pass _ _ _ E)
      as (new & Hrows & _).
    exists new. now rewrite fallthrough_rows.
  - destruct (loop_return body rows_in pending conv est wf bad pass _ _ _ _ _ _ E)
      as (_ & _ & new & r & _ & Hr & _).
    exists (new ++ [r]). exact Hr.
  - destruct (loop_raise body rows_in pending conv est wf bad pass _ _ _ _ E)
      as (_ & _ & _ & new & _ & Hr & _).
    exists new. exact Hr.
Qed.

(** A loop that left the function in one of its passes does the same under a
    larger bound; one that ran out of passes goes on from where it stopped. *)
Lemma loop_budget (s0 : S) (m m' : Z) :
  m <= m' ->
  let loop := fun max_iter =>
    match for_each body (range 1 (max_iter + 1)) s0 with
    | Leave r => r
    | Continue s' => fallthrough max_iter s'
    end in
  (exists more, rows_of (loop m') = rows_of (loop m) ++ more) /\
  (match loop m with
   | Return _ _ iters _ => iters < m
   | Raise e _ => class_of e <> UnboundLocalError_class
   end -> loop m' = loop m).
Proof.
  intros Hm loop. unfold loop.
  destruct (for_each body (range 1 (m + 1)) s0) as [s'|r] eqn:E.
  - split.
    + rewrite fallthrough_rows.
      destruct (Z_le_gt_dec 0 m) as [H0|H0].
      * rewrite (range_app 1 (m + 1) (m' + 1)) by lia.
        rewrite for_each_app, E. apply loop_rows_extend.
      * rewrite range_empty in E by lia. simpl in E. inversion E; subst s'.
        apply loop_rows_extend.
    + generalize (fall m s'). destruct (pending s') as [[root err]|].
      * intros ->. lia.
      * intros [name ->]. simpl. congruence.
  - assert (for_each body (range 1 (m' + 1)) s0 = Leave r) as E'.
    { destruct (for_each_leave _ _ _ _ E) as (idx1 & i & idx2 & s1 & Hidx & H1 & H2).
      apply range_prefix in Hidx. destruct Hidx as (_ & Hpre & Hi).
      rewrite (range_app 1 (i + 1) (m' + 1)) by lia.
      rewrite <- Hpre, !for_each_app, H1. simpl. now rewrite H2. }
    rewrite E'. split; [exists []; now rewrite app_nil_r | reflexivity].
Qed.

End Budget.

(** X20.  A larger iteration bound only adds passes: the rows of the call with
    the smaller bound are the first rows of the call with the larger one, and
    a call that ended before its bound was reached (a result after fewer than
    [max_iter] passes, or an exception of the entry test or of a pass) ends
    the same way under every larger bound. *)
Theorem X20_larger_bound {T : Type} {N : PyNum T}
  (c : CLI.call T) (max_iter max_iter' : Z) (tol : T) :
  max_iter <= max_iter' ->
  (exists more,
     rows_of (CLI.run_method c max_iter' tol) =
     rows_of (CLI.run_method c max_iter tol) ++ more) /\
  (match CLI.run_method c max_iter tol with
   | Return _ _ iters _ => iters < max_iter
   | Raise e _ => class_of e <> UnboundLocalError_class
   end -> CLI.run_method c max_iter' tol = CLI.run_method c max_iter tol).
Proof.
  intros Hm.
  destruct c as [f a b|f a b|f x0 x1|df f x0|g x0|f x0 delta]; cbn [CLI.run_method].
  - unfold CLI.bisection_method.
    destruct (nlt nzero (nmul (f a) (f b)));
      [split; [exists []; reflexivity | reflexivity]|].
    apply (loop_budget _ CLI.bisection_rows CLI.bisection_pending _ _ _ _
             (fun i s => bisection_pass f a b tol i s)
             (fun max_iter s => let '(_, _, _, _, c, fc, rows) := s in
                match c, fc with
                | None, _ => Raise (UnboundLocalError "c") rows
                | Some _, None => Raise (UnboundLocalError "fc") rows
                | Some c, Some fc => Return c (nabs fc) max_iter rows
                end)); [|exact Hm].
    intros mi [[[[[[? ?] ?] ?] [c|]] [fc|]] rows]; simpl; eauto.
  - unfold CLI.regula_falsi.
    destruct (nlt nzero (nmul (f a) (f b)));
      [split; [exists []; reflexivity | reflexivity]|].
    apply (loop_budget _ CLI.regula_falsi_rows CLI.regula_falsi_pending _ _ _ _
             (fun i s => regula_falsi_pass f a b tol i s)
             (fun max_iter s => let '(_, _, _, _, c, fc, rows) := s in
                match fc with
                | None => Raise (UnboundLocalError "fc") rows
                | Some fc => Return c (nabs fc) max_iter rows
                end)); [|exact Hm].
    intros mi [[[[[[? ?] ?] ?] c] [fc|]] rows]; simpl; eauto.
  - unfold CLI.secant_method.
    apply (loop_budget _ CLI.secant_rows (CLI.secant_pending f) _ _ _ _
             (fun i s => secant_pass f x0 x1 tol i s)
             (fun max_iter s => let '(_, _, x2, rows) := s in
                match x2 with
                | None => Raise (UnboundLocalError "x2") rows
                | Some x2 => Return x2 (nabs (f x2)) max_iter rows
                end)); [|exact Hm].
    intros mi [[[? ?] [x2|]] rows]; simpl; eauto.
  - unfold CLI.newton_raphson.
    apply (loop_budget _ CLI.newton_rows CLI.newton_pending _ _ _ _
             (fun i s => newton_pass df f x0 tol i s)
             (fun max_iter s => let '(x, fx, rows) := s in
                match fx with
                | None => Raise (UnboundLocalError "fx") rows
                | Some fx => Return x (nabs fx) max_iter rows
                end)); [|exact Hm].
    intros mi [[x [fx|]] rows]; simpl; eauto.
  - unfold CLI.fixed_point_iteration.
    apply (loop_budget _ CLI.fixed_point_rows CLI.fixed_point_pending _ _ _ _
             (fun i s => fixed_point_pass g x0 tol i s)
             (fun max_iter s => let '(_, x_new, err, rows) := s in
                match x_new, err with
                | None, _ => Raise (UnboundLocalError "x_new") rows
                | Some _, None => Raise (UnboundLocalError "err") rows
                | Some x_new, Some err => Return x_new err max_iter rows
                end)); [|exact Hm].
    intros mi [[[? [x_new|]] [err|]] rows]; simpl; eauto.
  - unfold CLI.modified_secant.
    apply (loop_budget _ CLI.modified_secant_rows CLI.modified_secant_pending _ _ _ _
             (fun i s => modified_secant_pass f x0 delta tol i s)
             (fun max_iter s => let '(_, f_x, x_new, rows) := s in
                match x_new, f_x with
                | None, _ => Raise (UnboundLocalError "x_new") rows
                | Some _, None => Raise (UnboundLocalError "f_x") rows
                | Some x_new, Some f_x => Return x_new (nabs f_x) max_iter rows
                end)); [|exact Hm].
    intros mi [[[? [f_x|]] [x_new|]] rows]; simpl; eauto.
Qed.

(** Bisection of [x^2 - 2] on [[0, 2]] meets [tol = 1e-6] before pass 50, so
    the bound 100 gives the same result. *)
Lemma X20_larger_bound_witness :
  CLI.run_method (CLI.Bisection f_sq2 0%float 2%float) 100 tol_1e6 =
  CLI.run_method (CLI.Bisection f_sq2 0%float 2%float) 50 tol_1e6.
Proof.
  assert (50 <= 100) as H by lia.
  apply (proj2 (X20_larger_bound (CLI.Bisection f_sq2 0%float 2%float) 50 100 tol_1e6 H)).
  vm_compute. reflexivity.
Defined.

(** ** The table of iterations *)

Lemma string_length_append (s1 s2 : string) :
  String.length (String.append s1 s2) = (String.length s1 + String.length s2)%nat.
Proof. induction s1 as [|c s1 IH]; simpl; congruence. Qed.

Lemma str_mul_length (s : string) (n : nat) :
  String.length (str_mul s n) = (n * String.length s)%nat.
Proof.
  induction n as [|n IH]; simpl; [reflexivity|].
  now rewrite string_length_append, IH.
Qed.

Lemma ljust_length (s : string) (w : nat) :
  (String.length s <= w)%nat -> String.length (ljust s w) = w.
Proof.
  intros H. unfold ljust.
  rewrite string_length_append, str_mul_length. simpl. lia.
Qed.

Lemma concat_length (sepr : string) (fields : list string) :
  String.length (String.concat sepr fields) =
  (list_sum (map String.length fields) + String.length sepr * (length fields - 1))%nat.
Proof.
  induction fields as [|f fields IH]; [simpl; lia|].
  destruct fields as [|g fields].
  - simpl. lia.
  - change (String.concat sepr (f :: g :: fields))
      with (String.append f (String.append sepr (String.concat sepr (g :: fields)))).
    rewrite !string_length_append, IH. simpl. lia.
Qed.

Lemma comprehension_map {A B : Type} (e : A -> option B) (f : A -> B) (l : list A) :
  (forall x, In x l -> e x = Some (f x)) -> comprehension e l = Some (map f l).
Proof.
  induction l as [|x l IH]; intros H; simpl; [reflexivity|].
  rewrite (H x) by now left. rewrite IH; [reflexivity|].
  intros y Hy. apply H. now right.
Qed.

Lemma comprehension_None {A B : Type} (e : A -> option B) (l : list A) (x : A) :
  In x l -> e x = None -> comprehension e l = None.
Proof.
  induction l as [|y l IH]; intros Hin Hx; simpl; [contradiction|].
  destruct Hin as [->|Hin].
  - now rewrite Hx.
  - destruct (e y); [|reflexivity]. now rewrite IH.
Qed.

Lemma nth_map_seq {B : Type} (g : nat -> B) (n i : nat) (d : B) :
  (i < n)%nat -> nth i (map g (seq 0 n)) d = g i.
Proof.
  intros H. rewrite (nth_indep _ d (g O)) by now rewrite length_map, length_seq.
  now rewrite map_nth, seq_nth.
Qed.

Lemma list_as_seq {A : Type} (l : list A) (d : A) :
  l = map (fun i => nth i l d) (seq 0 (length l)).
Proof.
  apply (nth_ext _ _ d d).
  - now rewrite length_map, length_seq.
  - intros i Hi. now rewrite nth_map_seq.
Qed.

Lemma firstn_as_seq {A : Type} (l : list A) (d : A) (n : nat) :
  (n <= length l)%nat -> firstn n l = map (fun i => nth i l d) (seq 0 n).
Proof.
  intros H. apply (nth_ext _ _ d d).
  - now rewrite length_map, length_seq, firstn_length_le.
  - intros i Hi. rewrite firstn_length_le in Hi by exact H.
    rewrite nth_firstn, nth_map_seq by exact Hi.
    apply Nat.ltb_lt in Hi. now rewrite Hi.
Qed.

Lemma combine_map_self {A B : Type} (g : A -> B) (l : list A) :
  combine l (map g l) = map (fun x => (x, g x)) l.
Proof. induction l as [|x l IH]; simpl; congruence. Qed.

Lemma enumerate_seq {A : Type} (l : list A) (d : A) :
  enumerate l = map (fun i => (i, nth i l d)) (seq 0 (length l)).
Proof.
  unfold enumerate.
  transitivity (combine (seq 0 (length l)) (map (fun i => nth i l d) (seq 0 (length l)))).
  - f_equal. apply list_as_seq.
  - apply combine_map_self.
Qed.

Lemma enumerate_In {A : Type} (l : list A) (i : nat) (x : A) :
  In (i, x) (enumerate l) -> (i < length l)%nat /\ x = nth i l x.
Proof.
  rewrite (enumerate_seq l x). intros H. apply in_map_iff in H.
  destruct H as (j & E & Hj). apply in_seq in Hj. injection E as -> Hx.
  split; [lia | now symmetry].
Qed.

Lemma enumerate_nth {A B : Type} (g : nat * A -> B) (l : list A) (d : B) (i : nat) (x : A) :
  In (i, x) (enumerate l) -> nth i (map g (enumerate l)) d = g (i, x).
Proof.
  intros H. destruct (enumerate_In _ _ _ H) as [Hi Hx].
  rewrite (enumerate_seq l x), map_map, nth_map_seq by exact Hi. now rewrite <- Hx.
Qed.

Lemma Forall2_enumerate {A B : Type} (P : A -> B -> Prop) (g : nat * A -> B) (l : list A) :
  (forall i x, In (i, x) (enumerate l) -> P x (g (i, x))) ->
  Forall2 P l (map g (enumerate l)).
Proof.
  unfold enumerate. generalize O.
  induction l as [|x l IH]; intros s H; simpl; constructor.
  - apply H. now left.
  - apply IH. intros i y Hy. apply H. now right.
Qed.

Lemma Forall2_maps {A B C : Type} (P : B -> C -> Prop) (f : A -> B) (g : A -> C)
  (l : list A) :
  (forall x, In x l -> P (f x) (g x)) -> Forall2 P (map f l) (map g l).
Proof.
  induction l as [|x l IH]; intros H; simpl; constructor.
  - apply H. now left.
  - apply IH. intros y Hy. apply H. now right.
Qed.

Lemma list_max_In (l : list nat) (k : nat) : In k l -> (k <= list_max l)%nat.
Proof.
  intros H. assert (Forall (fun k => k <= list_max l)%nat l) as F
    by (apply list_max_le; lia).
  rewrite Forall_forall in F. now apply F.
Qed.

Section TableLines.
Context {T : Type}.
Variable str : cell T -> string.
Variable headers : list string.
Variable rows : list (CLI.row T).

Hypothesis long_rows : Forall (fun r : CLI.row T => (length headers <= length r)%nat) rows.

Lemma col_widths_ok :
  col_widths str headers rows = Some (map (width str rows) (enumerate headers)).
Proof.
  unfold col_widths. apply (comprehension_map _ (width str rows)). intros [i h] Hin.
  apply enumerate_In in Hin. destruct Hin as [Hi _].
  rewrite (comprehension_map _ (fun r : CLI.row T => nth i r (Int 0))); [reflexivity|].
  intros r Hr. apply nth_error_nth'.
  rewrite Forall_forall in long_rows. specialize (long_rows r Hr). simpl in long_rows. lia.
Qed.

Lemma widths_length : length (map (width str rows) (enumerate headers)) = length headers.
Proof.
  unfold enumerate. rewrite length_map, length_combine, length_seq. lia.
Qed.

Lemma header_fits (i : nat) (h : string) :
  (String.length h <= width str rows (i, h))%nat.
Proof. unfold width. apply list_max_In. now left. Qed.

Lemma cell_fits (i : nat) (h : string) (r : CLI.row T) :
  In r rows -> (String.length (str (nth i r (Int 0))) <= width str rows (i, h))%nat.
Proof.
  intros Hr. unfold width. apply list_max_In. right. simpl.
  rewrite map_map. unfold column. rewrite map_map.
  apply in_map_iff. exists r. now split.
Qed.

Lemma header_line_ok (ws : list nat) :
  length ws = length headers ->
  header_line headers ws =
  Some (String.concat " | "
          (map (fun ih : nat * string => ljust (snd ih) (nth (fst ih) ws O))
             (enumerate headers))).
Proof.
  intros L. unfold header_line. rewrite (comprehension_map _
    (fun ih : nat * string => ljust (snd ih) (nth (fst ih) ws O))); [reflexivity|].
  intros [i h] Hin. apply enumerate_In in Hin. destruct Hin as [Hi _]. simpl.
  rewrite (nth_error_nth' ws O) by lia. reflexivity.
Qed.

Lemma row_line_ok (ws : list nat) (r : CLI.row T) :
  length ws = length headers -> (length headers <= length r)%nat ->
  row_line str headers ws r =
  Some (String.concat " | "
          (map (fun i => ljust (str (nth i r (Int 0))) (nth i ws O))
             (seq 0 (length headers)))).
Proof.
  intros L Hr. unfold row_line. rewrite (comprehension_map _
    (fun i => ljust (str (nth i r (Int 0))) (nth i ws O))); [reflexivity|].
  intros i Hi. apply in_seq in Hi.
  rewrite (nth_error_nth' r (Int 0)), (nth_error_nth' ws O) by lia. reflexivity.
Qed.

Lemma print_rows_ok (ws : list nat) (rs : list (CLI.row T)) :
  length ws = length headers ->
  Forall (fun r : CLI.row T => (length headers <= length r)%nat) rs ->
  print_rows str headers ws rs =
  (map (fun r => String.concat " | "
                   (map (fun i => ljust (str (nth i r (Int 0))) (nth i ws O))
                      (seq 0 (length headers)))) rs, None).
Proof.
  intros L. induction rs as [|r rs IH]; intros H; simpl; [reflexivity|].
  inversion H; subst. rewrite row_line_ok, IH by assumption. reflexivity.
Qed.

(** The table of rows that are all long enough, without its index tests. *)
Lemma print_iteration_table_ok :
  print_iteration_table str headers rows =
  (let ws := map (width str rows) (enumerate headers) in
   String.concat " | "
     (map (fun ih : nat * string => ljust (snd ih) (nth (fst ih) ws O)) (enumerate headers))
   :: sep ws
   :: map (fun r => String.concat " | "
                      (map (fun i => ljust (str (nth i r (Int 0))) (nth i ws O))
                         (seq 0 (length headers)))) rows,
   None).
Proof.
  unfold print_iteration_table.
  rewrite col_widths_ok, header_line_ok, print_rows_ok
    by (try apply widths_length; exact long_rows).
  reflexivity.
Qed.

End TableLines.

Lemma table_line_length (ws : list nat) (texts : list string) (line : string) :
  table_line ws texts line ->
  String.length line = (list_sum ws + 3 * (length ws - 1))%nat.
Proof.
  intros (fields & -> & Hw & _). rewrite concat_length, <- Hw, length_map. reflexivity.
Qed.

Lemma sep_length (ws : list nat) :
  String.length (sep ws) = (list_sum ws + 3 * (length ws - 1))%nat.
Proof.
  unfold sep. rewrite concat_length, map_map, length_map.
  rewrite (map_ext _ (fun w => w)), map_id; [reflexivity|].
  intros w. rewrite str_mul_length. simpl. lia.
Qed.

Lemma Forall2_right {A B : Type} (P : B -> Prop) (l : list A) (l' : list B) :
  Forall2 (fun _ y => P y) l l' -> Forall P l'.
Proof. induction 1; constructor; auto. Qed.

(** X17.  A table whose rows all have at least as many entries as there are
    headers is printed whole and aligned: a header line, a separator and one
    line per row, every line made of one field per header, field [i] being
    the header or the entry followed by spaces up to the width of column
    [i], so that nothing is cut and all lines have the same length; entries
    beyond the headers are not printed. *)
Theorem X17_table_aligned {T : Type} (str : cell T -> string)
  (headers : list string) (rows : list (CLI.row T)) :
  Forall (fun r : CLI.row T => (length headers <= length r)%nat) rows ->
  exists ws hl body,
    print_iteration_table str headers rows = (hl :: sep ws :: body, None) /\
    length ws = length headers /\
    table_line ws headers hl /\
    Forall2 (fun r l => table_line ws (map str (firstn (length headers) r)) l) rows body /\
    Forall (fun l => String.length l = (list_sum ws + 3 * (length ws - 1))%nat)
      (hl :: sep ws :: body).
Proof.
  intros H. rewrite (print_iteration_table_ok str headers rows H). cbv zeta.
  set (ws := map (width str rows) (enumerate headers)).
  assert (length ws = length headers) as L by apply widths_length.
  assert (table_line ws headers
            (String.concat " | "
               (map (fun ih : nat * string => ljust (snd ih) (nth (fst ih) ws O))
                  (enumerate headers)))) as Hhl.
  { eexists. split; [reflexivity|]. split.
    - rewrite map_map. apply map_ext_in. intros [i h] Hin. simpl.
      unfold ws. rewrite (enumerate_nth _ _ _ _ _ Hin).
      apply ljust_length, header_fits.
    - apply Forall2_enumerate. intros i h _. unfold ljust. simpl. eexists. reflexivity. }
  assert (Forall2 (fun r l => table_line ws (map str (firstn (length headers) r)) l) rows
            (map (fun r => String.concat " | "
                    (map (fun i => ljust (str (nth i r (Int 0))) (nth i ws O))
                       (seq 0 (length headers)))) rows)) as Hbody.
  { rewrite <- (map_id rows) at 1. apply Forall2_maps. intros r Hr.
    rewrite Forall_forall in H. specialize (H r Hr). simpl in H.
    eexists. split; [reflexivity|]. split.
    - rewrite map_map. etransitivity; [|symmetry; apply (list_as_seq ws O)]. rewrite L.
      apply map_ext_in. intros i Hi. apply in_seq in Hi.
      apply ljust_length. unfold ws.
      rewrite (enumerate_seq headers EmptyString), map_map, nth_map_seq by lia.
      now apply cell_fits.
    - rewrite (firstn_as_seq r (Int 0)) by exact H. rewrite map_map.
      apply Forall2_maps. intros i _. unfold ljust. eexists. reflexivity. }
  exists ws. do 2 eexists. split; [reflexivity|]. split; [exact L|].
  split; [exact Hhl|]. split; [exact Hbody|].
  constructor; [exact (table_line_length _ _ _ Hhl)|].
  constructor; [apply sep_length|].
  apply (Forall2_right _ rows). revert Hbody. apply Forall2_impl.
  intros r l Hl. exact (table_line_length _ _ _ Hl).
Qed.

Lemma X17_table_aligned_witness :
  exists ws hl body,
    print_iteration_table
      (fun c : cell Z => match c with Int _ => "10" | Num _ => "0.5" end)%string
      ["iter"; "x"]%string [[Int 10; Num 5; Num 7]] = (hl :: sep ws :: body, None) /\
    length ws = length ["iter"; "x"]%string /\
    table_line ws ["iter"; "x"]%string hl /\
    Forall2 (fun r l =>
               table_line ws
                 (map (fun c : cell Z => match c with Int _ => "10" | Num _ => "0.5" end)%string
                    (firstn (length ["iter"; "x"]%string) r)) l)
      [[Int 10; Num 5; Num 7]] body /\
    Forall (fun l => String.length l = (list_sum ws + 3 * (length ws - 1))%nat)
      (hl :: sep ws :: body).
Proof.
  apply (X17_table_aligned
           (fun c : cell Z => match c with Int _ => "10" | Num _ => "0.5" end)%string
           ["iter"; "x"]%string [[Int 10; Num 5; Num 7]]).
  constructor; [simpl; lia | constructor].
Defined.

(** X18.  A row with fewer entries than there are headers makes
    [print_iteration_table] raise [IndexError] while it computes the column
    widths, before it has printed anything, whatever the other rows are. *)
Theorem X18_table_short_row {T : Type} (str : cell T -> string)
  (headers : list string) (rows : list (CLI.row T)) :
  Exists (fun r : CLI.row T => (length r < length headers)%nat) rows ->
  print_iteration_table str headers rows = ([], Some IndexError).
Proof.
  intros H. apply Exists_exists in H. destruct H as (r & Hin & Hlt).
  unfold print_iteration_table.
  assert (col_widths str headers rows = None) as ->; [|reflexivity].
  unfold col_widths.
  apply (comprehension_None _ _ (length r, nth (length r) headers EmptyString)).
  - rewrite (enumerate_seq headers EmptyString). apply in_map_iff.
    exists (length r). split; [reflexivity|]. apply in_seq. lia.
  - rewrite (comprehension_None _ rows r Hin); [reflexivity|].
    apply nth_error_None. lia.
Qed.

Lemma X18_table_short_row_witness :
  print_iteration_table
    (fun c : cell Z => match c with Int _ => "10" | Num _ => "0.5" end)%string
    ["iter"; "x"; "error"]%string [[Int 1; Num 5; Num 7]; [Int 2; Num 5]] =
  ([], Some IndexError).
Proof.
  apply (X18_table_short_row
           (fun c : cell Z => match c with Int _ => "10" | Num _ => "0.5" end)%string
           ["iter"; "x"; "error"]%string [[Int 1; Num 5; Num 7]; [Int 2; Num 5]]).
  right. left. simpl. lia.
Defined.

(** ** The report of [run_cli] *)

Lemma recorded_length {T : Type} {N : PyNum T} (c : CLI.call T) (i : Z) (r : CLI.row T) :
  CLI.recorded c i r -> length r = length (table_headers c).
Proof.
  destruct c; simpl.
  - now intros (a0 & b0 & ->).
  - now intros (a0 & b0 & fa & fb & _ & ->).
  - now intros (y0 & y1 & _ & ->).
  - now intros (y & _ & ->).
  - now intros (y & ->).
  - now intros (y & _ & ->).
Qed.

(** X19.  What [run_cli] reports for a call.  When the method raises, the
    report is the single line of the error and none of the rows computed
    before the failure is shown.  When the method returns, the rows fit the
    headers the choice passes, so the table never fails: the report is the
    title, the table with one line per pass under its two header lines, and
    the three closing lines. *)
Theorem X19_run_cli_report {T : Type} {N : PyNum T}
  (str : cell T -> string) (str_exn : exn T -> string) (format_12g : T -> string)
  (c : CLI.call T) (max_iter : Z) (tol : T) :
  match CLI.run_method c max_iter tol with
  | Raise e _ =>
      run_cli str str_exn format_12g c max_iter tol =
      [String.append "Computation error: " (str_exn e)]
  | Return root final_err iters rows =>
      exists table,
        print_iteration_table str (table_headers c) rows = (table, None) /\
        Z.of_nat (length table) = iters + 2 /\
        run_cli str str_exn format_12g c max_iter tol =
        EmptyString :: table_title c :: table ++
        [EmptyString;
         String.append "Final estimated root: " (format_12g root);
         String.append "Final function value / error estimate: " (format_12g final_err);
         String.append "Iterations used: " (str (Int iters))]
  end.
Proof.
  unfold run_cli. generalize (run_method_outcome c max_iter tol).
  destruct (CLI.run_method c max_iter tol) as [root err iters rows|e rows]; [|reflexivity].
  destruct (CLI.bracket_rejected c); [intros [msg H]; discriminate|].
  cbn [solve_outcome]. intros (Hi & Hwf & _).
  assert (Forall (fun r : CLI.row T => (length (table_headers c) <= length r)%nat) rows) as Hlen.
  { apply (Forall2_right _ (range 1 (iters + 1))). revert Hwf. apply Forall2_impl.
    intros i r Hr. rewrite (recorded_length c i r Hr). constructor. }
  rewrite (print_iteration_table_ok str _ rows Hlen). cbv zeta.
  eexists. split; [reflexivity|]. split; [|reflexivity].
  apply Forall2_length in Hwf. rewrite range_length in Hwf.
  cbn [length]. rewrite length_map. unfold CLI.row in *. lia.
Qed.
